(** * docXML: stores of the package engine

    A shallow embedding of the stateful stores of the document model
    (NumberingManager, CommentManager, ImageManager) and of the
    table-of-contents field encoder (TableOfContents), with the
    properties of their operations.

    JavaScript numbers that hold identifiers, counters, levels and twips
    are integers and are modelled as [Z]; where a number that a caller
    or a file supplies enters a sum (the ids passed to
    addAbstractNumbering and addInstance, the numbers read from
    filenames) the result is rounded as a double is.  A JavaScript [Map]
    or [Set] keyed by numbers or strings is a [gmap] or [gset]; the
    [Map] keyed by [Image] objects is an insertion-ordered association
    list over object handles.  A method that can throw returns the state
    it leaves behind together with either its value or the error. *)

From Stdlib Require Import ZArith List String Ascii Lia Permutation DecimalString.
From Stdlib Require Import DecimalPos DecimalZ.
From stdpp Require Import base gmap sets list strings sorting.

Local Open Scope Z_scope.

(** ** Results and the state-and-exception monad *)

Inductive result (E A : Type) : Type :=
| Ok (a : A)
| Throw (e : E).
Arguments Ok {E A} a.
Arguments Throw {E A} e.

Definition is_ok {E A} (r : result E A) : bool :=
  match r with Ok _ => true | Throw _ => false end.

(** A method of an object with state [S]: it runs on a state and leaves a
    state, also when it throws (what it mutated before the throw stays). *)
Definition M (S E A : Type) : Type := S -> S * result E A.

Definition ret {S E A} (a : A) : M S E A := fun s => (s, Ok a).
Definition throw {S E A} (e : E) : M S E A := fun s => (s, Throw e).
Definition bind {S E A B} (m : M S E A) (f : A -> M S E B) : M S E B :=
  fun s => match m s with
           | (s', Ok a) => f a s'
           | (s', Throw e) => (s', Throw e)
           end.
Definition get {S E} : M S E S := fun s => (s, Ok s).
Definition put {S E} (s : S) : M S E unit := fun _ => (s, Ok tt).

(** [try { body } catch (error) { handler }] *)
Definition try_catch {S E A} (body : M S E A) (handler : E -> M S E A) : M S E A :=
  fun s => match body s with
           | (s', Ok a) => (s', Ok a)
           | (s', Throw e) => handler e s'
           end.

Declare Scope method_scope.
Delimit Scope method_scope with method.
Notation "x <- m ;; k" := (bind m (fun x => k))
  (at level 100, m at next level, right associativity) : method_scope.
Notation "m ;; k" := (bind m (fun _ => k))
  (at level 100, right associativity) : method_scope.

(** ** Numbers

    A JavaScript number is a double.  Every integer of a size up to
    2^53 is a double, so the sums and counters that stay within
    Number.MAX_SAFE_INTEGER are exact; a result beyond is rounded to the
    nearest double, a tie going to the even significand.  The doubles
    end below 2^1024: what would round to an infinity is outside these
    definitions. *)
Definition MAX_SAFE_INTEGER : Z := 9007199254740991.  (* 2^53 - 1 *)

(** [Number.isSafeInteger] on a number that holds an integer. *)
Definition safe_integer (n : Z) : Prop :=
  - MAX_SAFE_INTEGER <= n <= MAX_SAFE_INTEGER.

(** The double nearest to an integer. *)
Definition to_number (z : Z) : Z :=
  let a := Z.abs z in
  if a <=? MAX_SAFE_INTEGER + 1 then z
  else
    (* the significand has 53 bits: [e] low bits are dropped *)
    let e := Z.log2 a - 52 in
    let q := a / 2 ^ e in
    let r := a mod 2 ^ e in
    let half := 2 ^ (e - 1) in
    let q' := if r <? half then q
              else if half <? r then q + 1
              else if Z.even q then q else q + 1 in
    Z.sgn z * (q' * 2 ^ e).

(** [n + 1] on a number that holds an integer. *)
Definition js_succ (n : Z) : Z := to_number (n + 1).

(** ** NumberingManager *)

Module Numbering.

Inductive Error : Type :=
| AbstractNumberingDoesNotExist (abstractNumId : Z)
    (* `Abstract numbering ${abstractNumId} does not exist` *)
| InvalidLevel (level : Z)
    (* `Invalid level ${level}. Level must be between 0 and 8.` *)
| LeftIndentNegative
    (* 'Left indent must be non-negative' *)
| HangingIndentNegative
    (* 'Hanging indent must be non-negative' *)
| FactoryError (msg : string).
    (* whatever a factory of AbstractNumbering throws *)

(** Modelled from the spec: the class NumberingLevel (its file is not
    among the sources).  A level owns its index, format, template text,
    start value and left/hanging indent in twips; [setLeftIndent] and
    [setHangingIndent] reject a negative value, as the tests of the
    class require. *)
Record NumberingLevel : Type := mkLevel {
  level : Z;
  format : string;
  text : string;
  start : Z;
  leftIndent : Z;
  hangingIndent : Z
}.

Definition getLevel (l : NumberingLevel) : Z := level l.

Definition setLeftIndent (twips : Z) (l : NumberingLevel)
  : result Error NumberingLevel :=
  if twips <? 0 then Throw LeftIndentNegative
  else Ok (mkLevel (level l) (format l) (text l) (start l) twips (hangingIndent l)).

Definition setHangingIndent (twips : Z) (l : NumberingLevel)
  : result Error NumberingLevel :=
  if twips <? 0 then Throw HangingIndentNegative
  else Ok (mkLevel (level l) (format l) (text l) (start l) (leftIndent l) twips).

(** Modelled from the spec: the class AbstractNumbering (not among the
    sources): an integer id and its levels, in the order [getAllLevels]
    returns them; [getLevel] finds the level with a given index. *)
Record AbstractNumbering : Type := mkAbstract {
  abstractNumId : Z;
  name : option string;
  levels : list NumberingLevel
}.

Definition getAbstractNumId (a : AbstractNumbering) : Z := abstractNumId a.
Definition getAllLevels (a : AbstractNumbering) : list NumberingLevel := levels a.
Definition abstract_getLevel (i : Z) (a : AbstractNumbering) : option NumberingLevel :=
  List.find (fun l => level l =? i) (levels a).

(** Modelled from the spec: the class NumberingInstance (not among the
    sources): its numId, the id of the abstract definition it refers to,
    and the start overrides per level. *)
Record NumberingInstance : Type := mkInstance {
  numId : Z;
  inst_abstractNumId : Z;
  levelOverrides : list (Z * Z)
}.

Definition NumberingInstance_create (n a : Z) : NumberingInstance :=
  mkInstance n a [].

Record NumberingManager : Type := mkManager {
  abstractNumberings : gmap Z AbstractNumbering;
  instances : gmap Z NumberingInstance;
  nextAbstractNumId : Z;
  nextNumId : Z
}.

Definition with_abstracts (f : gmap Z AbstractNumbering -> gmap Z AbstractNumbering)
  (m : NumberingManager) : NumberingManager :=
  mkManager (f (abstractNumberings m)) (instances m) (nextAbstractNumId m) (nextNumId m).
Definition with_instances (f : gmap Z NumberingInstance -> gmap Z NumberingInstance)
  (m : NumberingManager) : NumberingManager :=
  mkManager (abstractNumberings m) (f (instances m)) (nextAbstractNumId m) (nextNumId m).
Definition with_nextAbstractNumId (n : Z) (m : NumberingManager) : NumberingManager :=
  mkManager (abstractNumberings m) (instances m) n (nextNumId m).
Definition with_nextNumId (n : Z) (m : NumberingManager) : NumberingManager :=
  mkManager (abstractNumberings m) (instances m) (nextAbstractNumId m) n.

Definition Method (A : Type) : Type := M NumberingManager Error A.

Local Open Scope method_scope.

(** [Map.prototype.delete] applied to each key of an array in turn. *)
Definition delete_all {V} (ks : list Z) (m : gmap Z V) : gmap Z V :=
  foldl (fun acc k => delete k acc) m ks.

(** addAbstractNumbering *)
Definition addAbstractNumbering (a : AbstractNumbering) : Method unit :=
  fun m =>
    let id := getAbstractNumId a in
    let m1 := with_abstracts (insert id a) m in
    let m2 := if nextAbstractNumId m1 <=? id
              then with_nextAbstractNumId (js_succ id) m1 else m1 in
    (m2, Ok tt).

Definition getAbstractNumbering (id : Z) (m : NumberingManager)
  : option AbstractNumbering := abstractNumberings m !! id.

Definition hasAbstractNumbering (id : Z) (m : NumberingManager) : bool :=
  bool_decide (is_Some (abstractNumberings m !! id)).

(** removeAbstractNumbering: the instances that refer to the definition
    are collected, deleted, and then the definition itself is deleted;
    the value is what [Map.delete] returns. *)
Definition removeAbstractNumbering (id : Z) : Method bool :=
  fun m =>
    let instancesToRemove :=
      (filter (fun p : Z * NumberingInstance => inst_abstractNumId p.2 = id)
              (map_to_list (instances m))).*1 in
    let m1 := with_instances (delete_all instancesToRemove) m in
    (with_abstracts (delete id) m1, Ok (hasAbstractNumbering id m1)).

(** addInstance *)
Definition addInstance (i : NumberingInstance) : Method unit :=
  fun m =>
    let n := numId i in
    let a := inst_abstractNumId i in
    if negb (hasAbstractNumbering a m)
    then (m, Throw (AbstractNumberingDoesNotExist a))
    else
      let m1 := with_instances (insert n i) m in
      let m2 := if nextNumId m1 <=? n then with_nextNumId (js_succ n) m1 else m1 in
      (m2, Ok tt).

Definition getInstance (n : Z) (m : NumberingManager) : option NumberingInstance :=
  instances m !! n.

Definition hasInstance (n : Z) (m : NumberingManager) : bool :=
  bool_decide (is_Some (instances m !! n)).

Definition removeInstance (n : Z) : Method bool :=
  fun m => (with_instances (delete n) m, Ok (hasInstance n m)).

(** The shared body of createBulletList, createNumberedList,
    createMultiLevelList, createOutlineList and createCustomList: they
    differ in the factory of AbstractNumbering they call, which is not
    among the sources and is a parameter here; it gets the id just
    minted and may throw. *)
Definition createList (factory : Z -> result Error AbstractNumbering) : Method Z :=
  m <- get ;;
  let abstractNumId := nextAbstractNumId m in
  put (with_nextAbstractNumId (abstractNumId + 1) m) ;;
  match factory abstractNumId with
  | Throw e => throw e
  | Ok abstractNumbering =>
      addAbstractNumbering abstractNumbering ;;
      m' <- get ;;
      let numId := nextNumId m' in
      put (with_nextNumId (numId + 1) m') ;;
      addInstance (NumberingInstance_create numId abstractNumId) ;;
      ret numId
  end.

(** createInstance *)
Definition createInstance (abstractNumId : Z) : Method Z :=
  m <- get ;;
  if negb (hasAbstractNumbering abstractNumId m)
  then throw (AbstractNumberingDoesNotExist abstractNumId)
  else
    let numId := nextNumId m in
    put (with_nextNumId (numId + 1) m) ;;
    addInstance (NumberingInstance_create numId abstractNumId) ;;
    ret numId.

(** The constructor; with [initializeDefaults] it registers the default
    bullet and numbered definitions, made by two factories. *)
Definition empty_manager : NumberingManager := mkManager ∅ ∅ 0 1.

Definition initializeDefaultNumberings
  (bullet numbered : Z -> result Error AbstractNumbering) : Method unit :=
  m <- get ;;
  put (with_nextAbstractNumId (nextAbstractNumId m + 1) m) ;;
  match bullet (nextAbstractNumId m) with
  | Throw e => throw e
  | Ok bulletAbstract =>
      addAbstractNumbering bulletAbstract ;;
      m' <- get ;;
      put (with_nextAbstractNumId (nextAbstractNumId m' + 1) m') ;;
      match numbered (nextAbstractNumId m') with
      | Throw e => throw e
      | Ok numberedAbstract => addAbstractNumbering numberedAbstract
      end
  end.

Definition new_manager (initializeDefaults : bool)
  (bullet numbered : Z -> result Error AbstractNumbering)
  : NumberingManager * result Error unit :=
  if initializeDefaults
  then initializeDefaultNumberings bullet numbered empty_manager
  else (empty_manager, Ok tt).

Definition clear : Method unit := fun _ => (empty_manager, Ok tt).

(** getStandardIndentation *)
Record Indentation : Type := mkIndentation {
  std_leftIndent : Z;
  std_hangingIndent : Z
}.

Definition getStandardIndentation (level : Z) : result Error Indentation :=
  if (level <? 0) || (8 <? level) then Throw (InvalidLevel level)
  else Ok (mkIndentation (720 * (level + 1)) 360).

(** The level objects of a definition are mutated in place: the first
    level of the list with the given index is replaced by its new state. *)
Fixpoint update_level (i : Z) (f : NumberingLevel -> NumberingLevel)
  (ls : list NumberingLevel) : list NumberingLevel :=
  match ls with
  | [] => []
  | l :: rest => if level l =? i then f l :: rest else l :: update_level i f rest
  end.

Definition set_levels (ls : list NumberingLevel) (a : AbstractNumbering)
  : AbstractNumbering :=
  mkAbstract (abstractNumId a) (name a) ls.

(** setListIndentation; [console.warn] leaves no trace in the state. *)
Definition setListIndentation (numId level leftIndent hangingIndent : Z)
  : Method bool :=
  fun m =>
    if (level <? 0) || (8 <? level) then (m, Throw (InvalidLevel level))
    else
      let leftIndent := Z.max 0 leftIndent in
      let hangingIndent := Z.max 0 hangingIndent in
      match getInstance numId m with
      | None => (m, Ok false)
      | Some instance =>
          match getAbstractNumbering (inst_abstractNumId instance) m with
          | None => (m, Ok false)
          | Some abstractNum =>
              match abstract_getLevel level abstractNum with
              | None => (m, Ok false)
              | Some numLevel =>
                  let store l :=
                    with_abstracts
                      (insert (inst_abstractNumId instance)
                         (set_levels (update_level level (fun _ => l)
                                        (levels abstractNum)) abstractNum)) m in
                  match setLeftIndent leftIndent numLevel with
                  | Throw e => (m, Throw e)
                  | Ok l1 =>
                      match setHangingIndent hangingIndent l1 with
                      | Throw e => (store l1, Throw e)
                      | Ok l2 => (store l2, Ok true)
                      end
                  end
              end
          end
      end.

(** The loop of normalizeListIndentation over the levels of a
    definition: a throw stops it and the levels already visited keep
    their new indents. *)
Fixpoint normalizeLevels (ls : list NumberingLevel)
  : list NumberingLevel * result Error unit :=
  match ls with
  | [] => ([], Ok tt)
  | l :: rest =>
      match getStandardIndentation (getLevel l) with
      | Throw e => (l :: rest, Throw e)
      | Ok standardIndent =>
          match setLeftIndent (std_leftIndent standardIndent) l with
          | Throw e => (l :: rest, Throw e)
          | Ok l1 =>
              match setHangingIndent (std_hangingIndent standardIndent) l1 with
              | Throw e => (l1 :: rest, Throw e)
              | Ok l2 =>
                  let '(rest', r) := normalizeLevels rest in (l2 :: rest', r)
              end
          end
      end
  end.

(** normalizeListIndentation *)
Definition normalizeListIndentation (numId : Z) : Method bool :=
  fun m =>
    match getInstance numId m with
    | None => (m, Ok false)
    | Some instance =>
        match getAbstractNumbering (inst_abstractNumId instance) m with
        | None => (m, Ok false)
        | Some abstractNum =>
            let '(ls, r) := normalizeLevels (getAllLevels abstractNum) in
            let m' := with_abstracts
                        (insert (inst_abstractNumId instance)
                           (set_levels ls abstractNum)) m in
            match r with
            | Throw e => (m', Throw e)
            | Ok _ => (m', Ok true)
            end
        end
    end.

(** getAllInstances: the values sorted by ascending numId. *)
Definition numId_le (a b : NumberingInstance) : Prop := numId a <= numId b.

#[local] Instance numId_le_dec (a b : NumberingInstance) : Decision (numId_le a b).
Proof. unfold numId_le. apply _. Defined.

Definition getAllInstances (m : NumberingManager) : list NumberingInstance :=
  merge_sort numId_le (map_to_list (instances m)).*2.

(** normalizeAllListIndentation *)
Fixpoint normalizeAll_loop (todo : list NumberingInstance) (count : Z)
  : Method Z :=
  match todo with
  | [] => ret count
  | instance :: rest =>
      (success <- normalizeListIndentation (numId instance) ;;
       normalizeAll_loop rest (if success : bool then count + 1 else count))%method
  end.

Definition normalizeAllListIndentation : Method Z :=
  fun m => normalizeAll_loop (getAllInstances m) 0 m.

Definition getAbstractNumberingCount (m : NumberingManager) : Z :=
  Z.of_nat (size (abstractNumberings m)).
Definition getInstanceCount (m : NumberingManager) : Z :=
  Z.of_nat (size (instances m)).

(** cleanupUnusedNumbering *)
Record CleanupCounts : Type := mkCounts {
  instancesRemoved : Z;
  abstractsRemoved : Z
}.

Definition cleanupUnusedNumbering (usedNumIds : gset Z) : Method CleanupCounts :=
  fun m =>
    (* Step 1: remove unused instances *)
    let instancesToRemove :=
      filter (fun numId => numId ∉ usedNumIds) (map_to_list (instances m)).*1 in
    let m1 := with_instances (delete_all instancesToRemove) m in
    let instancesRemoved := Z.of_nat (length instancesToRemove) in
    (* Step 2: the definitions the remaining instances refer to *)
    let referencedAbstractNumIds : gset Z :=
      list_to_set (inst_abstractNumId <$> (map_to_list (instances m1)).*2) in
    (* Step 3: remove the definitions that are not referred to *)
    let abstractsToRemove :=
      filter (fun abstractNumId => abstractNumId ∉ referencedAbstractNumIds)
             (map_to_list (abstractNumberings m1)).*1 in
    let m2 := with_abstracts (delete_all abstractsToRemove) m1 in
    let abstractsRemoved := Z.of_nat (length abstractsToRemove) in
    (m2, Ok (mkCounts instancesRemoved abstractsRemoved)).

(** The operations of the manager that change its state. *)
Inductive Op : Type :=
| OpAddAbstractNumbering (a : AbstractNumbering)
| OpRemoveAbstractNumbering (abstractNumId : Z)
| OpAddInstance (i : NumberingInstance)
| OpRemoveInstance (numId : Z)
| OpCreateList (factory : Z -> result Error AbstractNumbering)
| OpCreateInstance (abstractNumId : Z)
| OpSetListIndentation (numId level leftIndent hangingIndent : Z)
| OpNormalizeListIndentation (numId : Z)
| OpNormalizeAllListIndentation
| OpClear
| OpCleanupUnusedNumbering (usedNumIds : gset Z).

Definition run (o : Op) (m : NumberingManager) : NumberingManager :=
  match o with
  | OpAddAbstractNumbering a => (addAbstractNumbering a m).1
  | OpRemoveAbstractNumbering id => (removeAbstractNumbering id m).1
  | OpAddInstance i => (addInstance i m).1
  | OpRemoveInstance n => (removeInstance n m).1
  | OpCreateList factory => (createList factory m).1
  | OpCreateInstance id => (createInstance id m).1
  | OpSetListIndentation n l li hi => (setListIndentation n l li hi m).1
  | OpNormalizeListIndentation n => (normalizeListIndentation n m).1
  | OpNormalizeAllListIndentation => (normalizeAllListIndentation m).1
  | OpClear => (clear m).1
  | OpCleanupUnusedNumbering used => (cleanupUnusedNumbering used m).1
  end.

(** Every registered instance refers to a registered definition. *)
Definition references_resolve (m : NumberingManager) : Prop :=
  forall n i, instances m !! n = Some i ->
              is_Some (abstractNumberings m !! inst_abstractNumId i).

(** The level indexes of a definition are in [0,8], as the constructor
    of NumberingLevel enforces. *)
Definition levels_in_range (a : AbstractNumbering) : Prop :=
  Forall (fun l => 0 <= level l <= 8) (levels a).

Definition standard_level (l : NumberingLevel) : NumberingLevel :=
  mkLevel (level l) (format l) (text l) (start l) (720 * (level l + 1)) 360.

End Numbering.

(** ** CommentManager *)

Module Comments.

Inductive Error : Type :=
| ParentCommentDoesNotExist (parentCommentId : Z).
    (* `Cannot create reply: parent comment with ID ${parentCommentId}
       does not exist` *)

(** Modelled from the spec: the class Comment (not among the sources):
    integer id, author, initials, timestamp, text of its runs and the
    optional id of the parent; [isReply] holds when a parent id is
    present.  A comment is held by value, as it is after [setId]: a
    Comment object is registered once. *)
Record Comment : Type := mkComment {
  id : Z;
  author : string;
  initials : string;
  date : Z;
  content : string;
  parentId : option Z
}.

Definition getId (c : Comment) : Z := id c.
Definition getParentId (c : Comment) : option Z := parentId c.
Definition isReply (c : Comment) : bool :=
  match parentId c with Some _ => true | None => false end.
Definition setId (n : Z) (c : Comment) : Comment :=
  mkComment n (author c) (initials c) (date c) (content c) (parentId c).

(** Comment.create and Comment.createReply; [now] is the clock that the
    constructor reads. *)
Definition Comment_create (now : Z) (author content initials : string) : Comment :=
  mkComment 0 author initials now content None.
Definition Comment_createReply (now : Z) (parentId : Z)
  (author content initials : string) : Comment :=
  mkComment 0 author initials now content (Some parentId).

Record CommentEntry : Type := mkEntry {
  comment : Comment;
  replies : list Comment
}.

Record CommentManager : Type := mkManager {
  comments : gmap Z CommentEntry;
  nextId : Z
}.

Definition Method (A : Type) : Type := M CommentManager Error A.

Definition create : CommentManager := mkManager ∅ 0.

(** register, on what the comments hold: for a Comment object that is
    registered for the first time ([CommentObjects.register] keeps the
    objects apart from what they hold). *)
Definition register (c : Comment) : Method Comment :=
  fun m =>
    (* Assign unique ID *)
    let c := setId (nextId m) c in
    (* Store comment *)
    let entry := mkEntry c [] in
    let stored := <[getId c := entry]> (comments m) in
    (* If this is a reply, add it to the parent's replies array *)
    let threaded :=
      match getParentId c with
      | Some p =>
          if isReply c then
            match stored !! p with
            | Some parentEntry =>
                <[p := mkEntry (comment parentEntry) (replies parentEntry ++ [c])]> stored
            | None => stored
            end
          else stored
      | None => stored
      end in
    (mkManager threaded (nextId m + 1), Ok c).

Definition getComment (n : Z) (m : CommentManager) : option Comment :=
  comment <$> comments m !! n.

Definition getReplies (n : Z) (m : CommentManager) : list Comment :=
  match comments m !! n with Some entry => replies entry | None => [] end.

Definition hasReplies (n : Z) (m : CommentManager) : bool :=
  match comments m !! n with
  | Some entry => bool_decide (0 < length (replies entry))%nat
  | None => false
  end.

Definition has (n : Z) (m : CommentManager) : bool :=
  bool_decide (is_Some (comments m !! n)).

Definition getCount (m : CommentManager) : Z := Z.of_nat (size (comments m)).

(** [Map.prototype.delete] for the id of each comment of an array. *)
Definition delete_replies (rs : list Comment) (cs : gmap Z CommentEntry)
  : gmap Z CommentEntry :=
  foldl (fun acc reply => delete (getId reply) acc) cs rs.

(** removeComment: the value is what the last [Map.delete] returns. *)
Definition removeComment (n : Z) : Method bool :=
  fun m =>
    match comments m !! n with
    | None => (m, Ok false)
    | Some entry =>
        (* Remove all replies first *)
        let cs := delete_replies (replies entry) (comments m) in
        (* Remove the comment itself *)
        (mkManager (delete n cs) (nextId m), Ok (bool_decide (is_Some (cs !! n))))
    end.

Definition clear : Method unit := fun _ => (mkManager ∅ 0, Ok tt).

(** createComment *)
Definition createComment (now : Z) (author content initials : string)
  : Method Comment :=
  register (Comment_create now author content initials).

(** createReply *)
Definition createReply (now : Z) (parentCommentId : Z)
  (author content initials : string) : Method Comment :=
  fun m =>
    (* Verify parent exists *)
    if negb (has parentCommentId m)
    then (m, Throw (ParentCommentDoesNotExist parentCommentId))
    else register (Comment_createReply now parentCommentId author content initials) m.

(** The ids in the store were all minted by the counter. *)
Definition ids_minted (m : CommentManager) : Prop :=
  forall n e, comments m !! n = Some e -> 0 <= n < nextId m.

End Comments.

(** ** ImageManager *)

Module Images.

(** An [Image] object is known by its identity; its state lives in a
    heap of objects, which the manager reads and mutates. *)
Definition ImageRef : Type := nat.

Inductive Error : Type :=
| MaxImageCountExceeded (maxImageCount : Z)
    (* `Cannot add image: Maximum image count (${maxImageCount}) exceeded. ...` *)
| SingleImageSizeExceeded (bytes maxSingleImageSizeBytes : Z)
    (* `Image size (...MB) exceeds maximum single image size (...MB). ...` *)
| TotalImageSizeExceeded (newTotalSize maxTotalImageSizeBytes : Z)
    (* `Total image size (...MB) would exceed maximum (...MB) after adding
       this image. ...` *)
| ImageDataNotLoaded
    (* thrown by Image.getImageData while the bytes are not in memory *)
| InvalidConcurrency
    (* 'Concurrency must be an integer between 1 and 50' *)
| LoadFailed (msg : string).
    (* whatever Image.ensureDataLoaded throws *)

(** The lines that follow `Consider:` in the message of an error. *)
Definition remediation (e : Error) : list string :=
  match e with
  | MaxImageCountExceeded _ =>
      [ "Reducing the number of images";
        "Increasing maxImageCount in DocumentOptions";
        "Splitting into multiple documents" ]
  | SingleImageSizeExceeded _ _ =>
      [ "Compressing the image";
        "Resizing to lower resolution";
        "Converting to a more efficient format (e.g., JPEG)";
        "Increasing maxSingleImageSizeMB in DocumentOptions" ]
  | TotalImageSizeExceeded _ _ =>
      [ "Compressing existing images";
        "Removing unnecessary images";
        "Increasing maxTotalImageSizeMB in DocumentOptions";
        "Splitting into multiple documents" ]
  | _ => []
  end.

(** The quota errors of the register call. *)
Definition is_capacity_error (e : Error) : bool :=
  match e with
  | MaxImageCountExceeded _ | SingleImageSizeExceeded _ _
  | TotalImageSizeExceeded _ _ => true
  | _ => false
  end.

(** [error.message.includes('not loaded')]: the fixed text of the three
    quota messages does not hold these words, and their variable parts
    are digits. *)
Definition message_includes_not_loaded (e : Error) : bool :=
  match e with
  | ImageDataNotLoaded => true
  | _ => false
  end.

(** Modelled from the spec: the class Image (not among the sources).
    Of an image the manager uses the extension, the bytes when they are
    in memory (here their length), and the two ids it assigns. *)
Record Image : Type := mkImage {
  extension : string;
  imageData : option Z;
  img_docPrId : option Z;
  img_relationshipId : option string
}.

Definition getImageData (i : Image) : result Error Z :=
  match imageData i with
  | Some bytes => Ok bytes
  | None => Throw ImageDataNotLoaded
  end.
Definition getExtension (i : Image) : string := extension i.
Definition setDocPrId (n : Z) (i : Image) : Image :=
  mkImage (extension i) (imageData i) (Some n) (img_relationshipId i).
Definition setRelationshipId (r : string) (i : Image) : Image :=
  mkImage (extension i) (imageData i) (img_docPrId i) (Some r).
Definition setImageData (d : option Z) (i : Image) : Image :=
  mkImage (extension i) d (img_docPrId i) (img_relationshipId i).
Definition releaseData (i : Image) : Image := setImageData None i.

Definition Heap : Type := ImageRef -> Image.

Definition heap_update (h : Heap) (r : ImageRef) (f : Image -> Image) : Heap :=
  fun r' => if Nat.eqb r' r then f (h r') else h r'.

Record ImageEntry : Type := mkEntry {
  image : ImageRef;
  filename : string;
  relationshipId : string;
  docPrId : Z
}.

(** The [Map<Image, ImageEntry>]: keys are object identities, iteration
    is in insertion order, and [set] on a present key keeps its place. *)
Definition ImageMap : Type := list (ImageRef * ImageEntry).

Fixpoint map_get (k : ImageRef) (m : ImageMap) : option ImageEntry :=
  match m with
  | [] => None
  | (k', v) :: rest => if Nat.eqb k' k then Some v else map_get k rest
  end.

Fixpoint map_set (k : ImageRef) (v : ImageEntry) (m : ImageMap) : ImageMap :=
  match m with
  | [] => [(k, v)]
  | (k', v') :: rest =>
      if Nat.eqb k' k then (k, v) :: rest else (k', v') :: map_set k v rest
  end.

Definition map_has (k : ImageRef) (m : ImageMap) : bool :=
  match map_get k m with Some _ => true | None => false end.
Definition map_size (m : ImageMap) : Z := Z.of_nat (length m).
Definition map_values (m : ImageMap) : list ImageEntry := m.*2.

Record ImageManager : Type := mkManager {
  images : ImageMap;
  imagesByRelId : gmap string ImageEntry;
  nextImageNumber : Z;
  nextDocPrId : Z;
  maxImageCount : Z;
  maxTotalImageSizeBytes : Z;
  maxSingleImageSizeBytes : Z
}.

Record ImageManagerOptions : Type := mkOptions {
  opt_maxImageCount : option Z;
  opt_maxTotalImageSizeMB : option Z;
  opt_maxSingleImageSizeMB : option Z
}.

Definition new_manager (options : ImageManagerOptions) : ImageManager :=
  mkManager [] ∅ 1 1
    (default 20 (opt_maxImageCount options))
    (default 100 (opt_maxTotalImageSizeMB options) * 1024 * 1024)
    (default 20 (opt_maxSingleImageSizeMB options) * 1024 * 1024).

(** The manager together with the objects it refers to. *)
Record World : Type := mkWorld {
  heap : Heap;
  manager : ImageManager
}.

Definition Method (A : Type) : Type := M World Error A.

Definition getImageCount (w : World) : Z := map_size (images (manager w)).

Definition hasImage (i : ImageRef) (w : World) : bool :=
  map_has i (images (manager w)).

Definition getFilename (i : ImageRef) (w : World) : option string :=
  filename <$> map_get i (images (manager w)).

Definition getAllImages (w : World) : list ImageEntry :=
  map_values (images (manager w)).

(** getTotalSize: the bytes of the images that are in memory. *)
Definition getTotalSize (w : World) : Z :=
  foldl (fun totalSize entry =>
           match getImageData (heap w (image entry)) with
           | Ok bytes => totalSize + bytes
           | Throw _ => totalSize
           end) 0 (map_values (images (manager w))).

(** The number in a template literal. *)
Definition string_of_Z (z : Z) : string := NilZero.string_of_int (Z.to_int z).

(** The body of the [try] block of registerImage. *)
Definition size_checks (i : ImageRef) (w : World) : result Error unit :=
  match getImageData (heap w i) with
  | Throw e => Throw e
  | Ok bytes =>
      if maxSingleImageSizeBytes (manager w) <? bytes
      then Throw (SingleImageSizeExceeded bytes (maxSingleImageSizeBytes (manager w)))
      else
        let currentTotalSize := getTotalSize w in
        let newTotalSize := currentTotalSize + bytes in
        if maxTotalImageSizeBytes (manager w) <? newTotalSize
        then Throw (TotalImageSizeExceeded newTotalSize
                      (maxTotalImageSizeBytes (manager w)))
        else Ok tt
  end.

(** registerImage *)
Definition registerImage (i : ImageRef) (relId : string) : Method string :=
  fun w =>
    let m := manager w in
    (* Check by relationship ID first *)
    match imagesByRelId m !! relId with
    | Some existingByRelId =>
        let m' := mkManager (map_set i existingByRelId (images m))
                    (imagesByRelId m) (nextImageNumber m) (nextDocPrId m)
                    (maxImageCount m) (maxTotalImageSizeBytes m)
                    (maxSingleImageSizeBytes m) in
        (mkWorld (heap w) m', Ok (filename existingByRelId))
    | None =>
        (* Check if already registered by object reference (fallback) *)
        match map_get i (images m) with
        | Some existing => (w, Ok (filename existing))
        | None =>
            (* Validate image count limit *)
            if maxImageCount m <=? map_size (images m)
            then (w, Throw (MaxImageCountExceeded (maxImageCount m)))
            else
              (* Validate single and total size, if data is loaded *)
              let rethrown :=
                match size_checks i w with
                | Throw e =>
                    if negb (message_includes_not_loaded e) then Some e else None
                | Ok _ => None
                end in
              match rethrown with
              | Some e => (w, Throw e)
              | None =>
                  (* Generate unique filename *)
                  let extension := getExtension (heap w i) in
                  let filename :=
                    ("image" ++ string_of_Z (nextImageNumber m) ++ "." ++ extension)%string in
                  (* Assign docPr ID, set relationship ID *)
                  let docPrId := nextDocPrId m in
                  let h' := heap_update (heap w) i
                              (fun o => setRelationshipId relId (setDocPrId docPrId o)) in
                  (* Store entry *)
                  let entry := mkEntry i filename relId docPrId in
                  let m' := mkManager (map_set i entry (images m))
                              (<[relId := entry]> (imagesByRelId m))
                              (nextImageNumber m + 1) (nextDocPrId m + 1)
                              (maxImageCount m) (maxTotalImageSizeBytes m)
                              (maxSingleImageSizeBytes m) in
                  (mkWorld h' m', Ok filename)
              end
        end
    end.

Definition clear : Method unit :=
  fun w =>
    let m := manager w in
    (mkWorld (heap w)
       (mkManager [] ∅ 1 1 (maxImageCount m) (maxTotalImageSizeBytes m)
          (maxSingleImageSizeBytes m)), Ok tt).

(** A JavaScript number as the validation of [concurrency] sees it: a
    finite number is a fraction, and the comparisons with NaN are false. *)
Inductive JsNumber : Type :=
| JsFinite (num : Z) (den : positive)
| JsNaN
| JsInfinity (negative : bool).

Definition js_int (z : Z) : JsNumber := JsFinite z 1.

(** [a < b] and [a > b] for an integer literal [b] *)
Definition js_lt (a : JsNumber) (b : Z) : bool :=
  match a with
  | JsFinite n d => n <? b * Z.pos d
  | JsNaN => false
  | JsInfinity negative => negative
  end.
Definition js_gt (a : JsNumber) (b : Z) : bool :=
  match a with
  | JsFinite n d => b * Z.pos d <? n
  | JsNaN => false
  | JsInfinity negative => negb negative
  end.
(** [Number.isInteger] *)
Definition isInteger (a : JsNumber) : bool :=
  match a with
  | JsFinite n d => n mod Z.pos d =? 0
  | _ => false
  end.
(** The value of a number that [isInteger] accepts. *)
Definition integer_value (a : JsNumber) : Z :=
  match a with
  | JsFinite n d => n / Z.pos d
  | _ => 0
  end.

(** [Array.prototype.slice(i, j)] for [0 <= i <= j] *)
Definition slice {A} (i j : Z) (l : list A) : list A :=
  take (Z.to_nat j - Z.to_nat i) (drop (Z.to_nat i) l).

Section BulkLoad.

(** Modelled from the spec: Image.ensureDataLoaded (not among the
    sources) brings the bytes of an image into memory, or throws;
    [source r] is what reading the bytes of image [r] yields. *)
Variable source : ImageRef -> result Error Z.

(** The loads of a batch run concurrently: [schedule batch] is the
    order in which they settle. *)
Variable schedule : list ImageEntry -> list ImageEntry.

Definition ensureDataLoaded (r : ImageRef) (h : Heap) : Heap * result Error unit :=
  match imageData (h r) with
  | Some _ => (h, Ok tt)
  | None =>
      match source r with
      | Ok bytes => (heap_update h r (setImageData (Some bytes)), Ok tt)
      | Throw e => (h, Throw e)
      end
  end.

(** The progress callback, as far as loadAllImageData can tell: what
    each of its calls does, the first one being call 0.  A callback
    neither registers images nor touches their bytes. *)
Inductive Outcome : Type := Returns | Throws.

Definition Callback : Type := nat -> Outcome.

(** What is thrown inside loadAllImageData: an Error of the manager or
    of a load, or whatever a call of the callback threw. *)
Inductive Rejection : Type :=
| Raised (e : Error)
| CallbackThrew (call : nat).

(** What loadAllImageData keeps between the loads: the objects, its
    counter, and the calls of [onProgress] made so far, those that threw
    included. *)
Record LoadState : Type := mkLoad {
  ls_heap : Heap;
  loaded : Z;
  progress : list (Z * Z)
}.

Definition Load (A : Type) : Type := M LoadState Rejection A.

Local Open Scope method_scope.

(** [await entry.image.ensureDataLoaded()] *)
Definition await_load (r : ImageRef) : Load unit :=
  fun s =>
    match ensureDataLoaded r (ls_heap s) with
    | (h, Ok _) => (mkLoad h (loaded s) (progress s), Ok tt)
    | (h, Throw e) => (mkLoad h (loaded s) (progress s), Throw (Raised e))
    end.

(** [loaded++] *)
Definition count : Load unit :=
  fun s => (mkLoad (ls_heap s) (loaded s + 1) (progress s), Ok tt).

(** [if (onProgress) { onProgress(loaded, total); }] *)
Definition report (onProgress : option Callback) (total : Z) : Load unit :=
  fun s =>
    match onProgress with
    | None => (s, Ok tt)
    | Some callback =>
        let call := length (progress s) in
        let s' := mkLoad (ls_heap s) (loaded s) (progress s ++ [(loaded s, total)]) in
        match callback call with
        | Returns => (s', Ok tt)
        | Throws => (s', Throw (CallbackThrew call))
        end
    end.

(** The callback of [batch.map], from the point where the load of its
    entry settles; it runs to its end without interruption.  The call of
    [onProgress] is inside the [try]: what it throws is caught like a
    failed load, and what it throws in the [catch] rejects the promise
    of the entry. *)
Definition load_entry (onProgress : option Callback) (total : Z)
  (entry : ImageEntry) : Load unit :=
  try_catch
    (await_load (image entry) ;;
     count ;;
     (* Report progress *)
     report onProgress total)
    (fun error =>
       (* console.warn *)
       count ;; (* Still count as processed *)
       report onProgress total).

(** The promises of a batch settle one after the other, each whether or
    not one before it was rejected; [Promise.all] is rejected with the
    first rejection. *)
Definition settle (onProgress : option Callback) (total : Z)
  (acc : LoadState * result Rejection unit) (entry : ImageEntry)
  : LoadState * result Rejection unit :=
  let '(s', r') := load_entry onProgress total entry acc.1 in
  (s', match acc.2 with Ok _ => r' | Throw rejection => Throw rejection end).

(** [await Promise.all(batch.map(...))]; the state is the one when every
    promise of the batch has settled. *)
Definition run_batch (onProgress : option Callback) (total : Z)
  (batch : list ImageEntry) : Load unit :=
  fun s => foldl (settle onProgress total) (s, Ok tt) (schedule batch).

(** The [for] loop over the batches: a rejected batch ends it.  [None]
    when the fuel runs out. *)
Fixpoint batches (fuel : nat) (i concurrency total : Z) (onProgress : option Callback)
  (all : list ImageEntry) (s : LoadState) : option (LoadState * result Rejection unit) :=
  if i <? total then
    match fuel with
    | O => None
    | S fuel' =>
        let batch := slice i (Z.min (i + concurrency) total) all in
        match run_batch onProgress total batch s with
        | (s', Ok _) => batches fuel' (i + concurrency) concurrency total onProgress all s'
        | (s', Throw rejection) => Some (s', Throw rejection)
        end
    end
  else Some (s, Ok tt).

(** loadAllImageData; the value is the state of the objects, the calls
    of [onProgress] in order, and how the call ends: it returns, or its
    promise is rejected. *)
Definition loadAllImageData (concurrency : option JsNumber)
  (onProgress : option Callback) (w : World)
  : option (World * list (Z * Z) * result Rejection unit) :=
  let concurrency := default (js_int 5) concurrency in
  let all := map_values (images (manager w)) in
  let total := Z.of_nat (length all) in
  if total =? 0 then Some (w, [], Ok tt)
  else if js_lt concurrency 1 || js_gt concurrency 50 || negb (isInteger concurrency)
  then Some (w, [], Throw (Raised InvalidConcurrency))
  else
    match batches (Z.to_nat total) 0 (integer_value concurrency) total onProgress
            all (mkLoad (heap w) 0 []) with
    | Some (s, outcome) => Some (mkWorld (ls_heap s) (manager w), progress s, outcome)
    | None => None
    end.

End BulkLoad.

End Images.

(** ** TableOfContents *)

Module Toc.

Local Open Scope string_scope.

Inductive Error : Type :=
| LevelsOutOfRange
    (* 'TOC levels must be between 1 and 9' *)
| FieldStructureIncomplete (got : nat).
    (* `CRITICAL: TOC field structure incomplete. Expected 5 elements
       (begin, instruction, separate, content, end), got ${length}. ...` *)

(** The XMLElement of the XML builder (its file is not among the
    sources): a name, attributes, and children that are elements or
    text; an absent [attributes] or [children] is the empty list and an
    absent [selfClosing] is [false]. *)
Inductive XMLElement : Type :=
| Element (name : string) (attributes : list (string * string))
    (children : list XMLNode) (selfClosing : bool)
with XMLNode : Type :=
| Child (e : XMLElement)
| Text (s : string).

Definition name_of (e : XMLElement) : string :=
  match e with Element n _ _ _ => n end.
Definition children_of (e : XMLElement) : list XMLNode :=
  match e with Element _ _ c _ => c end.
Definition push (c : XMLElement) (e : XMLElement) : XMLElement :=
  match e with Element n a cs sc => Element n a (cs ++ [Child c])%list sc end.

Inductive TabLeader : Type := dot | hyphen | underscore | none.
Inductive NumberingFormat : Type := decimal | roman | alpha.

Record TOCProperties : Type := mkProperties {
  p_title : option string;
  p_levels : option Z;
  p_includeStyles : option (list string);
  p_showPageNumbers : option bool;
  p_rightAlignPageNumbers : option bool;
  p_useHyperlinks : option bool;
  p_style : option string;
  p_tabLeader : option TabLeader;
  p_fieldSwitches : option string;
  p_numbered : option bool;
  p_numberingFormat : option NumberingFormat;
  p_noIndent : option bool;
  p_customIndents : option (list Z);
  p_spaceBetweenEntries : option Z;
  p_hyperlinkColor : option string
}.

Definition no_properties : TOCProperties :=
  mkProperties None None None None None None None None None None None None
    None None None.

Record TableOfContents : Type := mkToc {
  title : string;
  levels : Z;
  includeStyles : option (list string);
  showPageNumbers : bool;
  useHyperlinks : bool;
  tabLeader : TabLeader;
  fieldSwitches : option string;
  numbered : bool;
  numberingFormat : NumberingFormat;
  noIndent : bool;
  customIndents : option (list Z);
  spaceBetweenEntries : Z;
  hyperlinkColor : string
}.

(** [x || d] on an optional string, number and boolean: the empty
    string, zero and false are falsy. *)
Definition string_or (x : option string) (d : string) : string :=
  match x with
  | Some EmptyString | None => d
  | Some s => s
  end.
Definition number_or (x : option Z) (d : Z) : Z :=
  match x with
  | Some 0%Z | None => d
  | Some n => n
  end.
Definition bool_or (x : option bool) (d : bool) : bool :=
  match x with
  | Some true => true
  | _ => d
  end.

(** The constructor. *)
Definition new (properties : TOCProperties) : TableOfContents :=
  mkToc
    (string_or (p_title properties) "Table of Contents")
    (number_or (p_levels properties) 3)
    (p_includeStyles properties)
    (match p_showPageNumbers properties with Some false => false | _ => true end)
    (bool_or (p_useHyperlinks properties) false)
    (default dot (p_tabLeader properties))
    (p_fieldSwitches properties)
    (bool_or (p_numbered properties) false)
    (default decimal (p_numberingFormat properties))
    (bool_or (p_noIndent properties) false)
    (p_customIndents properties)
    (number_or (p_spaceBetweenEntries properties) 0)
    (string_or (p_hyperlinkColor properties) "0000FF").

Definition getLevels (t : TableOfContents) : Z := levels t.

Definition set_levels (n : Z) (t : TableOfContents) : TableOfContents :=
  mkToc (title t) n (includeStyles t) (showPageNumbers t) (useHyperlinks t)
    (tabLeader t) (fieldSwitches t) (numbered t) (numberingFormat t)
    (noIndent t) (customIndents t) (spaceBetweenEntries t) (hyperlinkColor t).

(** setLevels *)
Definition setLevels (n : Z) (t : TableOfContents)
  : result Error TableOfContents :=
  if ((n <? 1) || (9 <? n))%Z then Throw LevelsOutOfRange
  else Ok (set_levels n t).

(** configure: a property that is not [undefined] is written as it is. *)
Definition configure (options : TOCProperties) (t : TableOfContents)
  : TableOfContents :=
  mkToc
    (default (title t) (p_title options))
    (default (levels t) (p_levels options))
    (match p_includeStyles options with Some s => Some s | None => includeStyles t end)
    (default (showPageNumbers t) (p_showPageNumbers options))
    (default (useHyperlinks t) (p_useHyperlinks options))
    (default (tabLeader t) (p_tabLeader options))
    (match p_fieldSwitches options with Some s => Some s | None => fieldSwitches t end)
    (default (numbered t) (p_numbered options))
    (default (numberingFormat t) (p_numberingFormat options))
    (default (noIndent t) (p_noIndent options))
    (match p_customIndents options with Some s => Some s | None => customIndents t end)
    (default (spaceBetweenEntries t) (p_spaceBetweenEntries options))
    (default (hyperlinkColor t) (p_hyperlinkColor options)).

(** The characters that a Rocq string cannot spell directly. *)
Definition quote : string := String (ascii_of_nat 34) EmptyString.
Definition newline : string := String (ascii_of_nat 10) EmptyString.

Definition string_of_Z (z : Z) : string := NilZero.string_of_int (Z.to_int z).

(** [array.join(sep)] *)
Fixpoint join (sep : string) (l : list string) : string :=
  match l with
  | [] => EmptyString
  | [s] => s
  | s :: rest => s ++ sep ++ join sep rest
  end.

(** buildFieldInstruction *)
Definition buildFieldInstruction (t : TableOfContents) : string :=
  let instruction := "TOC" in
  let instruction :=
    match includeStyles t with
    | Some (s :: styles) =>
        let stylesString :=
          join " " (List.map (fun s => quote ++ s ++ quote ++ ",1") (s :: styles)) in
        instruction ++ " \t " ++ stylesString
    | _ => instruction ++ " \o " ++ quote ++ "1-" ++ string_of_Z (levels t) ++ quote
    end in
  let instruction :=
    if useHyperlinks t then instruction ++ " \h" else instruction in
  let instruction :=
    if negb (showPageNumbers t) then instruction ++ " \n" else instruction in
  let instruction :=
    match tabLeader t with
    | dot => instruction
    | hyphen => instruction ++ " \p " ++ quote ++ "h" ++ quote
    | underscore => instruction ++ " \p " ++ quote ++ "u" ++ quote
    | none => instruction ++ " \p " ++ quote ++ "n" ++ quote
    end in
  let instruction :=
    match fieldSwitches t with
    | Some (String c s) => instruction ++ " " ++ String c s
    | _ => instruction
    end in
  instruction ++ " \* MERGEFORMAT".

(** The five runs of the field, as toXML pushes them. *)
Definition fldChar_run (fldCharType : string) : XMLElement :=
  Element "w:r" []
    [Child (Element "w:fldChar" [("w:fldCharType", fldCharType)] [] true)] false.

Definition begin_run : XMLElement := fldChar_run "begin".
Definition separate_run : XMLElement := fldChar_run "separate".
Definition end_run : XMLElement := fldChar_run "end".

Definition instruction_run (instruction : string) : XMLElement :=
  Element "w:r" []
    [Child (Element "w:instrText" [("xml:space", "preserve")]
              [Text instruction] false)] false.

Definition content_run : XMLElement :=
  Element "w:r" []
    [Child (Element "w:rPr" [] [Child (Element "w:noProof" [] [] true)] false);
     Child (Element "w:t" [] [Text "Right-click to update field."] false)] false.

Definition title_paragraph (title : string) : XMLElement :=
  Element "w:p" []
    [Child (Element "w:pPr" []
              [Child (Element "w:pStyle" [("w:val", "TOCHeading")] [] true)] false);
     Child (Element "w:r" [] [Child (Element "w:t" [] [Text title] false)] false)]
    false.

(** The check at the end of toXML: a field paragraph that does not have
    its five children is not returned. *)
Definition validate_field (elements : list XMLElement) (tocParagraph : XMLElement)
  : result Error (list XMLElement) :=
  if negb (length (children_of tocParagraph) =? 5)%nat
  then Throw (FieldStructureIncomplete (length (children_of tocParagraph)))
  else Ok (elements ++ [tocParagraph])%list.

(** toXML *)
Definition toXML (t : TableOfContents) : result Error (list XMLElement) :=
  (* 1. Title paragraph *)
  let elements :=
    match title t with
    | EmptyString => []
    | _ => [title_paragraph (title t)]
    end in
  (* 2. TOC field paragraph *)
  let tocParagraph := Element "w:p" [] [] false in
  let tocParagraph := push begin_run tocParagraph in
  let tocParagraph := push (instruction_run (buildFieldInstruction t)) tocParagraph in
  let tocParagraph := push separate_run tocParagraph in
  let tocParagraph := push content_run tocParagraph in
  let tocParagraph := push end_run tocParagraph in
  (* Validate complete structure before returning *)
  validate_field elements tocParagraph.

(** The stage of a complex field that a run of the field paragraph
    carries, with the text it holds.  A run is read as a stage only when
    it is made as that stage is: a [w:fldChar] marker with its type and
    nothing else, a [w:instrText] that preserves space and holds the
    instruction, or a text [w:t] after optional run properties. *)
Inductive Stage : Type :=
| Begin
| Instruction (instruction : string)
| Separate
| CachedContent (text : string)
| End_.

Definition marker (fldCharType : string) : option Stage :=
  if String.eqb fldCharType "begin" then Some Begin
  else if String.eqb fldCharType "separate" then Some Separate
  else if String.eqb fldCharType "end" then Some End_
  else None.

Definition text_of (e : XMLElement) : option string :=
  match e with
  | Element tag [] [Text text] false =>
      if String.eqb tag "w:t" then Some text else None
  | _ => None
  end.

Definition stage_of (n : XMLNode) : option Stage :=
  match n with
  | Child (Element run [] [Child inner] false) =>
      if negb (String.eqb run "w:r") then None
      else
        match inner with
        | Element tag [(key, value)] [] true =>
            if String.eqb tag "w:fldChar" && String.eqb key "w:fldCharType"
            then marker value else None
        | Element tag [(key, value)] [Text instruction] false =>
            if String.eqb tag "w:instrText" && String.eqb key "xml:space"
               && String.eqb value "preserve"
            then Some (Instruction instruction) else None
        | _ => CachedContent <$> text_of inner
        end
  | Child (Element run [] [Child (Element properties _ _ _); Child inner] false) =>
      if String.eqb run "w:r" && String.eqb properties "w:rPr"
      then CachedContent <$> text_of inner else None
  | _ => None
  end.

End Toc.

(** * Properties *)

(** ** Numbers *)

Module NumbersTheory.

Lemma to_number_exact (z : Z) :
  Z.abs z <= MAX_SAFE_INTEGER + 1 -> to_number z = z.
Proof. intros Hz. unfold to_number. by destruct (Z.leb_spec (Z.abs z) (MAX_SAFE_INTEGER + 1)); [|lia]. Qed.

Lemma js_succ_safe (n : Z) : safe_integer n -> js_succ n = n + 1.
Proof. intros [Hlo Hhi]. unfold js_succ. apply to_number_exact. lia. Qed.

(** One more than 2^53 is no double: the sum is 2^53 again. *)
Lemma js_succ_beyond_safe : js_succ (MAX_SAFE_INTEGER + 1) = MAX_SAFE_INTEGER + 1.
Proof. reflexivity. Qed.

End NumbersTheory.

(** ** NumberingManager: cleanup, references, indentation *)

Module NumberingTheory.
Import Numbering.

Section DeleteAll.
Context {V : Type}.
Implicit Types (m : gmap Z V) (ks : list Z).

Lemma lookup_delete_all ks m i :
  delete_all ks m !! i = if decide (i ∈ ks) then None else m !! i.
Proof.
  revert m. induction ks as [|k ks IH]; intros m; simpl.
  - destruct (decide (i ∈ [])) as [Hin|Hin]; [by apply elem_of_nil in Hin | done].
  - change (delete_all ks (delete k m) !! i = if decide (i ∈ k :: ks) then None else m !! i).
    rewrite IH. destruct (decide (i ∈ ks)) as [Hin|Hin].
    + rewrite decide_True; [done | by right].
    + destruct (decide (i = k)) as [->|Hne].
      * rewrite decide_True; [apply lookup_delete_eq | by left].
      * rewrite decide_False; [by apply lookup_delete_ne | ].
        intros [?|?]%elem_of_cons; tauto.
Qed.

Lemma size_delete_all ks m :
  NoDup ks -> (forall k, k ∈ ks -> is_Some (m !! k)) ->
  (size (delete_all ks m) + length ks)%nat = size m.
Proof.
  revert m. induction ks as [|k ks IH]; intros m Hnd Hin; simpl.
  - lia.
  - change (size (delete_all ks (delete k m)) + S (length ks) = size m)%nat.
    apply NoDup_cons in Hnd as [Hk Hnd].
    destruct (Hin k) as [v Hv]; [by left|].
    assert (Hsz : S (size (delete k m)) = size m).
    { rewrite <- (insert_delete_id m k v Hv) at 2.
      symmetry. apply map_size_insert_None, lookup_delete_eq. }
    specialize (IH (delete k m) Hnd).
    rewrite <- Hsz. rewrite <- IH; [lia|].
    intros k' Hk'. rewrite lookup_delete_ne; [apply Hin; by right|].
    intros ->. done.
Qed.

(** The keys of a map that a [forEach] with a test on the key collects. *)
Lemma elem_of_collected_keys (P : Z -> Prop) `{!forall k, Decision (P k)} m k :
  k ∈ filter P (map_to_list m).*1 <-> is_Some (m !! k) /\ P k.
Proof.
  rewrite list_elem_of_filter, list_elem_of_fmap. split.
  - intros [HP [[k' v] [-> Hkv]]]. apply elem_of_map_to_list in Hkv.
    split; [by exists v | done].
  - intros [[v Hv] HP]. split; [done|].
    exists (k, v). split; [done | by apply elem_of_map_to_list].
Qed.

Lemma NoDup_collected_keys (P : Z -> Prop) `{!forall k, Decision (P k)} m :
  NoDup (filter P (map_to_list m).*1).
Proof. apply NoDup_filter, NoDup_fst_map_to_list. Qed.

(** The keys that a [forEach] with a test on the value collects. *)
Lemma elem_of_collected_entries (P : Z * V -> Prop) `{!forall p, Decision (P p)} m k :
  k ∈ (filter P (map_to_list m)).*1 <-> exists v, m !! k = Some v /\ P (k, v).
Proof.
  rewrite list_elem_of_fmap. split.
  - intros [[k' v] [-> [HP Hkv]%list_elem_of_filter]].
    apply elem_of_map_to_list in Hkv. by exists v.
  - intros [v [Hv HP]]. exists (k, v). split; [done|].
    apply list_elem_of_filter. split; [done | by apply elem_of_map_to_list].
Qed.

End DeleteAll.

(** The definitions that the instances of a map refer to. *)
Lemma elem_of_referenced (insts : gmap Z NumberingInstance) (a : Z) :
  a ∈ (list_to_set (inst_abstractNumId <$> (map_to_list insts).*2) : gset Z) <->
  exists n i, insts !! n = Some i /\ inst_abstractNumId i = a.
Proof.
  rewrite elem_of_list_to_set, list_elem_of_fmap. split.
  - intros [i [-> [[n i'] [-> Hin]]%list_elem_of_fmap]].
    apply elem_of_map_to_list in Hin. by exists n, i'.
  - intros [n [i [Hi Ha]]]. exists i. split; [done|].
    apply list_elem_of_fmap. exists (n, i). split; [done|].
    by apply elem_of_map_to_list.
Qed.

(** What cleanupUnusedNumbering leaves in the two maps. *)
Lemma cleanupUnusedNumbering_instances (usedNumIds : gset Z) m n :
  instances (cleanupUnusedNumbering usedNumIds m).1 !! n =
    if decide (n ∈ usedNumIds) then instances m !! n else None.
Proof.
  unfold cleanupUnusedNumbering. cbn [fst with_abstracts with_instances instances].
  rewrite lookup_delete_all.
  destruct (decide (n ∈ filter (fun numId => numId ∉ usedNumIds)
                         (map_to_list (instances m)).*1)) as [Hin|Hin].
  - apply elem_of_collected_keys in Hin as [_ Hn]. by rewrite decide_False.
  - destruct (decide (n ∈ usedNumIds)) as [Hu|Hu]; [done|].
    destruct (instances m !! n) as [i|] eqn:Hi; [|done].
    exfalso. apply Hin. apply elem_of_collected_keys. split; [by exists i | done].
Qed.

Lemma cleanupUnusedNumbering_abstracts (usedNumIds : gset Z) m a :
  let m' := (cleanupUnusedNumbering usedNumIds m).1 in
  ((exists n i, instances m' !! n = Some i /\ inst_abstractNumId i = a) ->
   abstractNumberings m' !! a = abstractNumberings m !! a) /\
  (~ (exists n i, instances m' !! n = Some i /\ inst_abstractNumId i = a) ->
   abstractNumberings m' !! a = None).
Proof.
  unfold cleanupUnusedNumbering.
  cbn [fst with_abstracts with_instances abstractNumberings instances].
  set (insts' := delete_all _ (instances m)).
  set (referenced := list_to_set (inst_abstractNumId <$> (map_to_list insts').*2) : gset Z).
  set (absToRemove := filter (fun a => a ∉ referenced)
                        (map_to_list (abstractNumberings m)).*1).
  split; intros Href; rewrite lookup_delete_all.
  - rewrite decide_False; [done|].
    intros [_ Hnot]%elem_of_collected_keys. apply Hnot.
    by apply elem_of_referenced.
  - destruct (decide (a ∈ absToRemove)) as [Hin|Hin]; [done|].
    destruct (abstractNumberings m !! a) as [d|] eqn:Hd; [|done].
    exfalso. apply Hin. apply elem_of_collected_keys. split; [by exists d|].
    intros Hr. apply Href. by apply elem_of_referenced.
Qed.

(** C3: cleanupUnusedNumbering(usedNumIds) does not throw; it removes
    exactly the instances whose numId is not in usedNumIds, then exactly
    the abstract definitions that no surviving instance refers to; every
    other instance and definition and both id counters are as before;
    and the two counts it returns are the numbers of instances and of
    definitions that left the maps. *)
Theorem cleanupUnusedNumbering_exact (usedNumIds : gset Z) (m : NumberingManager) :
  exists counts,
    (cleanupUnusedNumbering usedNumIds m).2 = Ok counts /\
    let m' := (cleanupUnusedNumbering usedNumIds m).1 in
    (forall n, instances m' !! n =
               if decide (n ∈ usedNumIds) then instances m !! n else None) /\
    (forall a, (exists n i, instances m' !! n = Some i /\ inst_abstractNumId i = a) ->
               abstractNumberings m' !! a = abstractNumberings m !! a) /\
    (forall a, ~ (exists n i, instances m' !! n = Some i /\ inst_abstractNumId i = a) ->
               abstractNumberings m' !! a = None) /\
    nextAbstractNumId m' = nextAbstractNumId m /\
    nextNumId m' = nextNumId m /\
    instancesRemoved counts =
      Z.of_nat (size (instances m)) - Z.of_nat (size (instances m')) /\
    abstractsRemoved counts =
      Z.of_nat (size (abstractNumberings m)) - Z.of_nat (size (abstractNumberings m')).
Proof.
  eexists. split; [reflexivity|]. intros m'.
  split; [apply cleanupUnusedNumbering_instances|].
  split; [intros a; apply (cleanupUnusedNumbering_abstracts usedNumIds m a)|].
  split; [intros a; apply (cleanupUnusedNumbering_abstracts usedNumIds m a)|].
  split; [done|]. split; [done|].
  unfold m', cleanupUnusedNumbering.
  cbn [fst snd with_abstracts with_instances abstractNumberings instances
       instancesRemoved abstractsRemoved].
  split.
  - set (toRemove := filter _ (map_to_list (instances m)).*1).
    pose proof (size_delete_all toRemove (instances m)) as Hsz.
    rewrite <- Hsz; [lia | apply NoDup_collected_keys |].
    intros k Hk. by apply elem_of_collected_keys in Hk as [? _].
  - set (absToRemove := filter _ (map_to_list (abstractNumberings m)).*1).
    pose proof (size_delete_all absToRemove (abstractNumberings m)) as Hsz.
    rewrite <- Hsz; [lia | apply NoDup_collected_keys |].
    intros k Hk. by apply elem_of_collected_keys in Hk as [? _].
Qed.

(** *** Instances refer to registered definitions *)

(** The invariant looks at the two maps only: it survives when no
    instance is added and no definition is lost. *)
Lemma references_resolve_mono (m m' : NumberingManager) :
  (forall n i, instances m' !! n = Some i -> instances m !! n = Some i) ->
  (forall a, is_Some (abstractNumberings m !! a) ->
             is_Some (abstractNumberings m' !! a)) ->
  references_resolve m -> references_resolve m'.
Proof. intros Hi Ha Hm n i Hn. apply Ha, (Hm n), Hi, Hn. Qed.

Lemma hasAbstractNumbering_true a m :
  hasAbstractNumbering a m = true <-> is_Some (abstractNumberings m !! a).
Proof. unfold hasAbstractNumbering. apply bool_decide_eq_true. Qed.

Lemma hasAbstractNumbering_false a m :
  hasAbstractNumbering a m = false <-> abstractNumberings m !! a = None.
Proof.
  unfold hasAbstractNumbering. rewrite bool_decide_eq_false.
  by rewrite eq_None_not_Some.
Qed.

Lemma addAbstractNumbering_maps a m :
  abstractNumberings (addAbstractNumbering a m).1
    = <[abstractNumId a := a]> (abstractNumberings m) /\
  instances (addAbstractNumbering a m).1 = instances m.
Proof.
  unfold addAbstractNumbering, getAbstractNumId. cbn.
  destruct (nextAbstractNumId m <=? abstractNumId a); done.
Qed.

Lemma addAbstractNumbering_preserves a m :
  references_resolve m -> references_resolve (addAbstractNumbering a m).1.
Proof.
  destruct (addAbstractNumbering_maps a m) as [Ha Hi].
  apply references_resolve_mono.
  - intros n i. by rewrite Hi.
  - intros b Hb. rewrite Ha. apply lookup_insert_is_Some'. by right.
Qed.

Lemma addInstance_absent i m :
  abstractNumberings m !! inst_abstractNumId i = None ->
  addInstance i m = (m, Throw (AbstractNumberingDoesNotExist (inst_abstractNumId i))).
Proof.
  intros Hnone. unfold addInstance.
  by rewrite (proj2 (hasAbstractNumbering_false _ _) Hnone).
Qed.

Lemma addInstance_preserves i m :
  references_resolve m -> references_resolve (addInstance i m).1.
Proof.
  intros Hm. unfold addInstance.
  destruct (hasAbstractNumbering (inst_abstractNumId i) m) eqn:Hhas; cbn; [|done].
  apply hasAbstractNumbering_true in Hhas.
  assert (Hres : references_resolve (with_instances (insert (numId i) i) m)).
  { intros n j. cbn. intros [[<- <-]|[_ Hj]]%lookup_insert_Some; [done|].
    by apply (Hm n). }
  by destruct (nextNumId m <=? numId i).
Qed.

Lemma removeAbstractNumbering_instances id m n :
  instances (removeAbstractNumbering id m).1 !! n =
    match instances m !! n with
    | Some i => if decide (inst_abstractNumId i = id) then None else Some i
    | None => None
    end.
Proof.
  unfold removeAbstractNumbering. cbn. rewrite lookup_delete_all.
  set (P := fun p : Z * NumberingInstance => inst_abstractNumId p.2 = id).
  destruct (decide (n ∈ (filter P (map_to_list (instances m))).*1)) as [Hin|Hin].
  - apply elem_of_collected_entries in Hin as [i [-> Hi]].
    unfold P in Hi; cbn in Hi. by rewrite decide_True.
  - destruct (instances m !! n) as [i|] eqn:Hi; [|done].
    rewrite decide_False; [done|]. intros Hid. apply Hin.
    apply elem_of_collected_entries. by exists i.
Qed.

Lemma removeAbstractNumbering_preserves id m :
  references_resolve m -> references_resolve (removeAbstractNumbering id m).1.
Proof.
  intros Hm n i Hn. rewrite removeAbstractNumbering_instances in Hn.
  destruct (instances m !! n) as [j|] eqn:Hj; [|done].
  destruct (decide (inst_abstractNumId j = id)) as [|Hne]; [done|].
  injection Hn as <-. unfold removeAbstractNumbering. cbn.
  rewrite lookup_delete_ne; [by apply (Hm n) | done].
Qed.

Lemma removeInstance_preserves n m :
  references_resolve m -> references_resolve (removeInstance n m).1.
Proof.
  apply references_resolve_mono; cbn; [|done].
  intros k i [_ Hk]%lookup_delete_Some. done.
Qed.

Lemma counters_preserve m a b :
  references_resolve m ->
  references_resolve (mkManager (abstractNumberings m) (instances m) a b).
Proof. by apply references_resolve_mono. Qed.

(** The equations of the monad that the proofs rewrite with. *)
Lemma bind_get {A} (k : NumberingManager -> Method A) m :
  bind get k m = k m m.
Proof. reflexivity. Qed.

Lemma bind_put {A} (k : unit -> Method A) m' m :
  bind (put m') k m = k tt m'.
Proof. reflexivity. Qed.

Lemma bind_result {A B} (c : Method A) (k : A -> Method B) m :
  bind c k m = match (c m).2 with
               | Ok a => k a (c m).1
               | Throw e => ((c m).1, Throw e)
               end.
Proof. unfold bind. by destruct (c m) as [m' [a|e]]. Qed.

Lemma createList_preserves factory m :
  references_resolve m -> references_resolve (createList factory m).1.
Proof.
  intros Hm. unfold createList. rewrite bind_get, bind_put.
  set (m1 := with_nextAbstractNumId (nextAbstractNumId m + 1) m).
  assert (H1 : references_resolve m1) by by apply counters_preserve.
  destruct (factory (nextAbstractNumId m)) as [a|e]; [|done].
  rewrite bind_result.
  pose proof (addAbstractNumbering_preserves a m1 H1) as H2.
  destruct (addAbstractNumbering a m1) as [m2 [[]|e]]; cbn [fst snd] in *; [|done].
  rewrite bind_get, bind_put, bind_result.
  set (m3 := with_nextNumId (nextNumId m2 + 1) m2).
  assert (H3 : references_resolve m3) by by apply counters_preserve.
  pose proof (addInstance_preserves
                (NumberingInstance_create (nextNumId m2) (nextAbstractNumId m))
                m3 H3) as H4.
  by destruct (addInstance _ m3) as [m4 [[]|e]].
Qed.

Lemma createInstance_preserves id m :
  references_resolve m -> references_resolve (createInstance id m).1.
Proof.
  intros Hm. unfold createInstance. rewrite bind_get.
  destruct (hasAbstractNumbering id m); cbn [negb]; [|done].
  rewrite bind_put, bind_result.
  set (m1 := with_nextNumId (nextNumId m + 1) m).
  assert (H1 : references_resolve m1) by by apply counters_preserve.
  pose proof (addInstance_preserves (NumberingInstance_create (nextNumId m) id)
                m1 H1) as H2.
  by destruct (addInstance _ m1) as [m2 [[]|e]].
Qed.

(** Writing a definition back under a key that is registered. *)
Lemma store_abstract_preserves a d m :
  references_resolve m ->
  references_resolve (with_abstracts (insert a d) m).
Proof.
  apply references_resolve_mono; cbn; [done|].
  intros b Hb. apply lookup_insert_is_Some'. by right.
Qed.

Lemma setListIndentation_preserves n l li hi m :
  references_resolve m -> references_resolve (setListIndentation n l li hi m).1.
Proof.
  intros Hm. unfold setListIndentation.
  destruct ((l <? 0) || (8 <? l)); [done|].
  destruct (getInstance n m) as [i|]; [|done].
  destruct (getAbstractNumbering (inst_abstractNumId i) m) as [a|]; [|done].
  destruct (abstract_getLevel l a) as [lv|]; [|done].
  destruct (setLeftIndent _ lv) as [l1|e]; [|done].
  destruct (setHangingIndent _ l1) as [l2|e]; cbn [fst];
    by apply store_abstract_preserves.
Qed.

Lemma normalizeListIndentation_preserves n m :
  references_resolve m -> references_resolve (normalizeListIndentation n m).1.
Proof.
  intros Hm. unfold normalizeListIndentation.
  destruct (getInstance n m) as [i|]; [|done].
  destruct (getAbstractNumbering (inst_abstractNumId i) m) as [a|]; [|done].
  destruct (normalizeLevels (getAllLevels a)) as [ls [[]|e]]; cbn [fst];
    by apply store_abstract_preserves.
Qed.

Lemma normalizeAll_loop_preserves todo count m :
  references_resolve m -> references_resolve (normalizeAll_loop todo count m).1.
Proof.
  revert count m. induction todo as [|i todo IH]; intros count m Hm; [done|].
  cbn [normalizeAll_loop]. unfold bind.
  pose proof (normalizeListIndentation_preserves (numId i) m Hm) as H1.
  destruct (normalizeListIndentation (numId i) m) as [m1 [b|e]]; cbn in *; [|done].
  by apply IH.
Qed.

Lemma cleanupUnusedNumbering_preserves used m :
  references_resolve m -> references_resolve (cleanupUnusedNumbering used m).1.
Proof.
  intros Hm n i Hn.
  rewrite (proj1 (cleanupUnusedNumbering_abstracts used m (inst_abstractNumId i)));
    [|by exists n, i].
  rewrite cleanupUnusedNumbering_instances in Hn.
  destruct (decide (n ∈ used)); [|done]. by apply (Hm n).
Qed.

Lemma new_manager_resolves b bullet numbered :
  references_resolve (new_manager b bullet numbered).1.
Proof.
  assert (He : forall abs a c, references_resolve (mkManager abs ∅ a c)).
  { intros abs a c n i Hn. cbn in Hn. by rewrite lookup_empty in Hn. }
  unfold new_manager. destruct b; [|apply He].
  unfold initializeDefaultNumberings. rewrite bind_get, bind_put.
  set (m1 := with_nextAbstractNumId (nextAbstractNumId empty_manager + 1) empty_manager).
  assert (H1 : references_resolve m1) by apply He.
  destruct (bullet (nextAbstractNumId empty_manager)) as [a|e]; [|done].
  rewrite bind_result.
  pose proof (addAbstractNumbering_preserves a m1 H1) as H2.
  destruct (addAbstractNumbering a m1) as [m2 [[]|e]]; cbn [fst snd] in *; [|done].
  rewrite bind_get, bind_put.
  destruct (numbered (nextAbstractNumId m2)) as [a'|e].
  - apply addAbstractNumbering_preserves. by apply counters_preserve.
  - by apply counters_preserve.
Qed.

(** C4: in the manager that the constructor makes every instance refers
    to a registered abstract definition, and every operation of the
    manager keeps it so, also when it throws; addInstance throws and
    changes nothing when the definition it refers to is absent; and
    after removeAbstractNumbering(abstractNumId) the definition is gone
    and the instances left are exactly those of before that refer to
    another definition. *)
Theorem references_always_resolve :
  (forall b bullet numbered, references_resolve (new_manager b bullet numbered).1) /\
  (forall o m, references_resolve m -> references_resolve (run o m)) /\
  (forall i m,
      abstractNumberings m !! inst_abstractNumId i = None ->
      addInstance i m =
        (m, Throw (AbstractNumberingDoesNotExist (inst_abstractNumId i)))) /\
  (forall id m,
      abstractNumberings (removeAbstractNumbering id m).1 !! id = None /\
      forall n, instances (removeAbstractNumbering id m).1 !! n =
                match instances m !! n with
                | Some i => if decide (inst_abstractNumId i = id) then None else Some i
                | None => None
                end).
Proof.
  split; [exact new_manager_resolves|]. split; [|split].
  - intros [a|id|i|n|factory|id|n l li hi|n| | |used] m Hm; cbn [run].
    + by apply addAbstractNumbering_preserves.
    + by apply removeAbstractNumbering_preserves.
    + by apply addInstance_preserves.
    + by apply removeInstance_preserves.
    + by apply createList_preserves.
    + by apply createInstance_preserves.
    + by apply setListIndentation_preserves.
    + by apply normalizeListIndentation_preserves.
    + by apply normalizeAll_loop_preserves.
    + intros n i Hn. cbn in Hn. by rewrite lookup_empty in Hn.
    + by apply cleanupUnusedNumbering_preserves.
  - exact addInstance_absent.
  - intros id m. split; [|apply removeAbstractNumbering_instances].
    unfold removeAbstractNumbering. cbn. apply lookup_delete_eq.
Qed.

(** *** Standard indentation *)

Lemma getStandardIndentation_in_range L :
  0 <= L <= 8 ->
  getStandardIndentation L = Ok (mkIndentation (720 * (L + 1)) 360).
Proof.
  intros HL. unfold getStandardIndentation.
  destruct (Z.ltb_spec L 0); [lia|]. destruct (Z.ltb_spec 8 L); [lia|]. done.
Qed.

Lemma getStandardIndentation_out_of_range L :
  L < 0 \/ 8 < L -> getStandardIndentation L = Throw (InvalidLevel L).
Proof.
  intros HL. unfold getStandardIndentation.
  destruct (Z.ltb_spec L 0); [done|]. destruct (Z.ltb_spec 8 L); [done|]. lia.
Qed.

Lemma normalize_level_in_range l :
  0 <= level l <= 8 ->
  exists l1,
    setLeftIndent (720 * (level l + 1)) l = Ok l1 /\
    setHangingIndent 360 l1 = Ok (standard_level l).
Proof.
  intros Hl. unfold setLeftIndent, setHangingIndent.
  destruct (Z.ltb_spec (720 * (level l + 1)) 0); [lia|].
  eexists. split; [reflexivity|]. done.
Qed.

Lemma normalizeLevels_in_range ls :
  Forall (fun l => 0 <= level l <= 8) ls ->
  normalizeLevels ls = (standard_level <$> ls, Ok tt).
Proof.
  induction 1 as [|l ls Hl Hls IH]; [done|].
  cbn [normalizeLevels]. unfold getLevel.
  rewrite (getStandardIndentation_in_range _ Hl). cbn [std_leftIndent std_hangingIndent].
  destruct (normalize_level_in_range l Hl) as [l1 [-> ->]].
  by rewrite IH.
Qed.

(** What setListIndentation writes differs from what was there in the
    two indents of one level only. *)
Lemma standard_level_update i l' ls :
  (forall l, List.find (fun l => level l =? i) ls = Some l ->
             standard_level l' = standard_level l) ->
  standard_level <$> update_level i (fun _ => l') ls = standard_level <$> ls.
Proof.
  induction ls as [|l ls IH]; intros Hl; [done|].
  cbn [update_level List.find] in *.
  destruct (level l =? i); cbn [fmap list_fmap].
  - by rewrite (Hl l).
  - f_equal. by apply IH.
Qed.

Lemma setListIndentation_keeps_levels numId lvl li hi m inst a :
  instances m !! numId = Some inst ->
  abstractNumberings m !! inst_abstractNumId inst = Some a ->
  exists a1,
    abstractNumberings (setListIndentation numId lvl li hi m).1
      !! inst_abstractNumId inst = Some a1 /\
    instances (setListIndentation numId lvl li hi m).1 = instances m /\
    standard_level <$> levels a1 = standard_level <$> levels a.
Proof.
  intros Hi Ha. unfold setListIndentation, getInstance, getAbstractNumbering.
  destruct ((lvl <? 0) || (8 <? lvl)); [by exists a|].
  rewrite Hi, Ha.
  destruct (abstract_getLevel lvl a) as [lv|] eqn:Hlv; [|by exists a].
  unfold setLeftIndent, setHangingIndent.
  destruct (Z.ltb_spec (Z.max 0 li) 0); [lia|].
  destruct (Z.ltb_spec (Z.max 0 hi) 0); [lia|].
  cbn [fst with_abstracts abstractNumberings instances].
  eexists. split; [apply lookup_insert_eq|]. split; [done|].
  cbn [set_levels levels leftIndent level format text start hangingIndent].
  apply standard_level_update. intros l Hl.
  unfold abstract_getLevel in Hlv. rewrite Hl in Hlv. by injection Hlv as ->.
Qed.

Lemma normalizeListIndentation_standard numId m inst a :
  instances m !! numId = Some inst ->
  abstractNumberings m !! inst_abstractNumId inst = Some a ->
  levels_in_range a ->
  normalizeListIndentation numId m =
    (with_abstracts
       (insert (inst_abstractNumId inst) (set_levels (standard_level <$> levels a) a)) m,
     Ok true).
Proof.
  intros Hi Ha Hr. unfold normalizeListIndentation, getInstance, getAbstractNumbering.
  rewrite Hi, Ha. unfold getAllLevels. by rewrite (normalizeLevels_in_range _ Hr).
Qed.

(** C7: getStandardIndentation(L) returns left indent 720*(L+1) and
    hanging indent 360 for every level L in [0,8] and throws for every
    other L; normalizeListIndentation(numId), for an instance that is
    registered with its definition, returns true and leaves every level
    of that definition with these two indents and everything else of it
    and of the manager as it was, whatever the indents were before; and
    this also holds after a call of setListIndentation on the list. *)
Theorem standard_indentation_restored :
  (forall L, 0 <= L <= 8 ->
     getStandardIndentation L = Ok (mkIndentation (720 * (L + 1)) 360)) /\
  (forall L, L < 0 \/ 8 < L ->
     getStandardIndentation L = Throw (InvalidLevel L)) /\
  (forall numId m inst a,
     instances m !! numId = Some inst ->
     abstractNumberings m !! inst_abstractNumId inst = Some a ->
     levels_in_range a ->
     normalizeListIndentation numId m =
       (with_abstracts
          (insert (inst_abstractNumId inst)
             (set_levels (standard_level <$> levels a) a)) m,
        Ok true) /\
     Forall (fun l => leftIndent l = 720 * (level l + 1) /\ hangingIndent l = 360)
            (standard_level <$> levels a)) /\
  (forall numId lvl li hi m inst a,
     instances m !! numId = Some inst ->
     abstractNumberings m !! inst_abstractNumId inst = Some a ->
     levels_in_range a ->
     exists a',
       (normalizeListIndentation numId (setListIndentation numId lvl li hi m).1).2
         = Ok true /\
       abstractNumberings
         (normalizeListIndentation numId (setListIndentation numId lvl li hi m).1).1
         !! inst_abstractNumId inst = Some a' /\
       levels a' = standard_level <$> levels a).
Proof.
  split; [exact getStandardIndentation_in_range|].
  split; [exact getStandardIndentation_out_of_range|].
  split.
  - intros numId m inst a Hi Ha Hr. split.
    + by apply normalizeListIndentation_standard.
    + apply Forall_fmap, Forall_forall. by intros l _.
  - intros numId lvl li hi m inst a Hi Ha Hr.
    destruct (setListIndentation_keeps_levels numId lvl li hi m inst a Hi Ha)
      as [a1 [Ha1 [Hi1 Hl1]]].
    assert (Hr1 : levels_in_range a1).
    { unfold levels_in_range in *.
      assert (Hs : Forall (fun l => 0 <= level l <= 8) (standard_level <$> levels a1)).
      { rewrite Hl1. apply Forall_fmap. eapply Forall_impl; [exact Hr|]. by intros l. }
      apply Forall_fmap in Hs. eapply Forall_impl; [exact Hs|]. by intros l. }
    rewrite <- Hi1 in Hi.
    rewrite (normalizeListIndentation_standard numId _ inst a1 Hi Ha1 Hr1).
    eexists. split; [done|]. split; [apply lookup_insert_eq|].
    by rewrite <- Hl1.
Qed.

(** *** A list with indents that are not the standard ones *)

Definition odd_levels : list NumberingLevel :=
  [mkLevel 0 "decimal" "%1." 1 5 7; mkLevel 1 "lowerLetter" "%2." 1 99 0].

Definition odd_list_factory (abstractNumId : Z) : result Error AbstractNumbering :=
  Ok (mkAbstract abstractNumId None odd_levels).

Definition odd_manager : NumberingManager :=
  run (OpCreateList odd_list_factory) empty_manager.

Lemma references_always_resolve_witness :
  references_resolve odd_manager /\
  references_resolve (run (OpRemoveAbstractNumbering 0) odd_manager).
Proof.
  assert (H : references_resolve odd_manager).
  { apply (proj1 (proj2 references_always_resolve)).
    apply (proj1 references_always_resolve false odd_list_factory odd_list_factory). }
  split; [exact H|].
  apply (proj1 (proj2 references_always_resolve)), H.
Defined.

Lemma standard_indentation_restored_witness :
  instances odd_manager !! 1 = Some (mkInstance 1 0 []) /\
  abstractNumberings odd_manager !! 0 = Some (mkAbstract 0 None odd_levels) /\
  levels_in_range (mkAbstract 0 None odd_levels) /\
  normalizeListIndentation 1 odd_manager =
    (with_abstracts
       (insert 0
          (mkAbstract 0 None
             [mkLevel 0 "decimal" "%1." 1 720 360;
              mkLevel 1 "lowerLetter" "%2." 1 1440 360])) odd_manager,
     Ok true).
Proof.
  assert (Hr : levels_in_range (mkAbstract 0 None odd_levels)).
  { repeat constructor; cbn; lia. }
  split; [reflexivity|]. split; [reflexivity|]. split; [exact Hr|].
  apply (proj1 (proj1 (proj2 (proj2 standard_indentation_restored))
                  1 odd_manager (mkInstance 1 0 []) (mkAbstract 0 None odd_levels)
                  eq_refl eq_refl Hr)).
Defined.

(** Two lists, of which only the first is in use: the cleanup removes
    one instance and one definition. *)
Example cleanup_two_lists :
  let m := run (OpCreateList odd_list_factory) odd_manager in
  getInstanceCount m = 2 /\ getAbstractNumberingCount m = 2 /\
  (cleanupUnusedNumbering {[1]} m).2 = Ok (mkCounts 1 1) /\
  (cleanupUnusedNumbering {[1]} m).1 =
    mkManager (abstractNumberings odd_manager) (instances odd_manager) 2 3.
Proof. vm_compute. repeat split; reflexivity. Qed.

Example standard_indentation_level_2 :
  getStandardIndentation 2 = Ok (mkIndentation 2160 360) /\
  getStandardIndentation 9 = Throw (InvalidLevel 9) /\
  getStandardIndentation (-1) = Throw (InvalidLevel (-1)).
Proof. repeat split; reflexivity. Qed.

End NumberingTheory.

(** ** CommentManager: replies and removal *)

Module CommentsTheory.
Import Comments.

Lemma has_true n m : has n m = true <-> is_Some (comments m !! n).
Proof. unfold has. apply bool_decide_eq_true. Qed.

Lemma has_false n m : has n m = false <-> comments m !! n = None.
Proof. unfold has. rewrite bool_decide_eq_false. by rewrite eq_None_not_Some. Qed.

(** *** The ids of the store come from the counter *)

Lemma create_ids_minted : ids_minted create.
Proof. intros n e Hn. cbn in Hn. by rewrite lookup_empty in Hn. Qed.

Lemma register_keys c m n :
  is_Some (comments (register c m).1 !! n) <->
  n = nextId m \/ is_Some (comments m !! n).
Proof.
  unfold register. cbn [fst comments].
  change (getId (setId (nextId m) c)) with (nextId m).
  change (getParentId (setId (nextId m) c)) with (parentId c).
  set (c' := setId (nextId m) c).
  assert (Hs : is_Some (<[nextId m := mkEntry c' []]> (comments m) !! n) <->
               n = nextId m \/ is_Some (comments m !! n)).
  { rewrite lookup_insert_is_Some'. intuition congruence. }
  destruct (parentId c) as [p|]; [|exact Hs].
  destruct (isReply c'); [|exact Hs].
  destruct (<[nextId m := mkEntry c' []]> (comments m) !! p) as [pe|] eqn:Hp;
    [|exact Hs].
  rewrite lookup_insert_is_Some'. rewrite Hs. split; [|tauto].
  intros [<-|H]; [|exact H]. apply Hs. by rewrite Hp.
Qed.

Lemma register_ids_minted c m :
  0 <= nextId m -> ids_minted m -> ids_minted (register c m).1.
Proof.
  intros H0 Hm n e Hn.
  assert (Hk : n = nextId m \/ is_Some (comments m !! n))
    by (apply (register_keys c); eauto).
  replace (nextId (register c m).1) with (nextId m + 1) by done.
  destruct Hk as [->|[e' He']]; [lia|]. specialize (Hm n e' He'). lia.
Qed.

Lemma lookup_delete_replies rs (cs : gmap Z CommentEntry) n :
  delete_replies rs cs !! n =
    if decide (n ∈ getId <$> rs) then None else cs !! n.
Proof.
  revert cs. induction rs as [|r rs IH]; intros cs.
  - cbn. destruct (decide (n ∈ [])) as [Hin|Hin]; [by apply elem_of_nil in Hin | done].
  - change (delete_replies rs (delete (getId r) cs) !! n =
            if decide (n ∈ getId r :: (getId <$> rs)) then None else cs !! n).
    rewrite IH. destruct (decide (n ∈ getId <$> rs)) as [Hin|Hin].
    + rewrite decide_True; [done | by right].
    + destruct (decide (n = getId r)) as [->|Hne].
      * rewrite decide_True; [apply lookup_delete_eq | by left].
      * rewrite decide_False; [by apply lookup_delete_ne|].
        intros [?|?]%elem_of_cons; tauto.
Qed.

Lemma removeComment_ids_minted n m :
  ids_minted m -> ids_minted (removeComment n m).1.
Proof.
  intros Hm k e. unfold removeComment.
  destruct (comments m !! n) as [entry|]; [|apply Hm].
  cbn [fst comments nextId]. intros [_ Hk]%lookup_delete_Some.
  rewrite lookup_delete_replies in Hk.
  destruct (decide (k ∈ getId <$> replies entry)); [done|]. by apply (Hm k e).
Qed.

(** The operations of the manager that change its state. *)
Inductive Op : Type :=
| OpRegister (c : Comment)
| OpRemoveComment (n : Z)
| OpClear
| OpCreateComment (now : Z) (author content initials : string)
| OpCreateReply (now parentCommentId : Z) (author content initials : string).

Definition run (o : Op) (m : CommentManager) : CommentManager :=
  match o with
  | OpRegister c => (register c m).1
  | OpRemoveComment n => (removeComment n m).1
  | OpClear => (clear m).1
  | OpCreateComment now a c i => (createComment now a c i m).1
  | OpCreateReply now p a c i => (createReply now p a c i m).1
  end.

(** The states of a manager: what a sequence of operations makes of a
    new one. *)
Inductive reachable : CommentManager -> Prop :=
| reachable_create : reachable create
| reachable_run o m : reachable m -> reachable (run o m).

Lemma run_ids_minted o m :
  0 <= nextId m /\ ids_minted m ->
  0 <= nextId (run o m) /\ ids_minted (run o m).
Proof.
  intros [H0 Hm]. destruct o as [c|n| |now a c i|now p a c i]; cbn [run].
  - split; [cbn; lia | by apply register_ids_minted].
  - split; [|by apply removeComment_ids_minted].
    unfold removeComment. by destruct (comments m !! n).
  - split; [done | exact create_ids_minted].
  - split; [cbn; lia | by apply register_ids_minted].
  - unfold createReply. destruct (has p m); cbn [negb]; [|done].
    split; [cbn; lia | by apply register_ids_minted].
Qed.

Lemma reachable_ids_minted m : reachable m -> 0 <= nextId m /\ ids_minted m.
Proof.
  induction 1 as [|o m _ IH]; [|by apply run_ids_minted].
  split; [done | exact create_ids_minted].
Qed.

(** *** createReply *)

Lemma ids_minted_fresh m : ids_minted m -> comments m !! nextId m = None.
Proof.
  intros Hm. destruct (comments m !! nextId m) as [e|] eqn:He; [|done].
  specialize (Hm _ _ He). lia.
Qed.

(** C8: in a state whose ids were minted by the counter (every state
    that the operations reach from a new manager), createReply(parentId,
    ...) throws, and changes nothing, exactly when no comment with id
    parentId is registered; when the parent is registered the reply gets
    the id of the counter, which no registered comment has, is stored
    under it with no replies of its own, and is appended to the reply
    list of the parent; the counter advances by one. *)
Theorem createReply_requires_parent (now parentId : Z)
  (author content initials : string) (m : CommentManager) :
  ids_minted m ->
  let reply := setId (nextId m)
                 (Comment_createReply now parentId author content initials) in
  (comments m !! parentId = None ->
   createReply now parentId author content initials m =
     (m, Throw (ParentCommentDoesNotExist parentId))) /\
  (forall parentEntry, comments m !! parentId = Some parentEntry ->
   comments m !! nextId m = None /\
   createReply now parentId author content initials m =
     (mkManager
        (<[parentId := mkEntry (comment parentEntry) (replies parentEntry ++ [reply])]>
           (<[nextId m := mkEntry reply []]> (comments m)))
        (nextId m + 1),
      Ok reply)) /\
  (is_ok (createReply now parentId author content initials m).2 = false <->
   comments m !! parentId = None).
Proof.
  intros Hm reply.
  assert (Hnone : comments m !! parentId = None ->
                  createReply now parentId author content initials m =
                    (m, Throw (ParentCommentDoesNotExist parentId))).
  { intros Hp. unfold createReply. by rewrite (proj2 (has_false _ _) Hp). }
  assert (Hsome : forall parentEntry, comments m !! parentId = Some parentEntry ->
            createReply now parentId author content initials m =
              (mkManager
                 (<[parentId := mkEntry (comment parentEntry)
                                  (replies parentEntry ++ [reply])]>
                    (<[nextId m := mkEntry reply []]> (comments m)))
                 (nextId m + 1),
               Ok reply)).
  { intros pe Hp. unfold createReply.
    rewrite (proj2 (has_true parentId m)) by eauto. cbn [negb].
    unfold register. fold reply.
    change (getId reply) with (nextId m).
    change (getParentId reply) with (Some parentId).
    change (isReply reply) with true. cbv iota.
    rewrite lookup_insert_ne; [by rewrite Hp|].
    intros Heq. specialize (Hm _ _ Hp). lia. }
  split; [exact Hnone|]. split.
  - intros pe Hp. split; [by apply ids_minted_fresh | by apply Hsome].
  - destruct (comments m !! parentId) as [pe|] eqn:Hp.
    + rewrite (Hsome pe eq_refl). by cbn.
    + rewrite (Hnone eq_refl). by cbn.
Qed.

(** *** removeComment *)

Lemma removeComment_unregistered n m :
  comments m !! n = None -> removeComment n m = (m, Ok false).
Proof. intros Hn. unfold removeComment. by rewrite Hn. Qed.

(** Whatever the state, the comment and the comments of its reply list
    leave the store, and nothing else does. *)
Lemma removeComment_store n m entry k :
  comments m !! n = Some entry ->
  comments (removeComment n m).1 !! k =
    if decide (k = n \/ k ∈ getId <$> replies entry) then None
    else comments m !! k.
Proof.
  intros Hn. unfold removeComment. rewrite Hn. cbn [fst comments].
  destruct (decide (k = n)) as [->|Hne].
  - rewrite lookup_delete_eq. rewrite decide_True; [done | by left].
  - rewrite lookup_delete_ne by done. rewrite lookup_delete_replies.
    destruct (decide (k ∈ getId <$> replies entry)) as [Hin|Hin].
    + rewrite decide_True; [done | by right].
    + rewrite decide_False; [done | tauto].
Qed.

(** The value is [true] when no comment of the reply list carries the
    id itself. *)
Lemma removeComment_registered n m entry :
  comments m !! n = Some entry ->
  n ∉ getId <$> replies entry ->
  (removeComment n m).2 = Ok true.
Proof.
  intros Hn Hnot. unfold removeComment. rewrite Hn. cbn [snd].
  rewrite bool_decide_eq_true_2; [done|].
  rewrite lookup_delete_replies. rewrite decide_False by done. eauto.
Qed.

(** A reply whose parent id is the id that the counter is about to
    mint: registered on a new manager it becomes comment 0 and its own
    first reply. *)
Definition self_parented : Comment := Comment_createReply 0 0 "a" "t" "a".

Definition self_parented_manager : CommentManager :=
  (register self_parented create).1.

(** C9: removeComment(0) on the manager in which comment 0 is listed
    among its own replies (a reply to id 0 registered on a new manager):
    comment 0 is registered, the call empties the store, and it returns
    false. *)
Theorem removeComment_self_parented_returns_false :
  reachable self_parented_manager /\
  comments self_parented_manager !! 0 =
    Some (mkEntry (setId 0 self_parented) [setId 0 self_parented]) /\
  removeComment 0 self_parented_manager = (mkManager ∅ 1, Ok false).
Proof.
  split; [apply (reachable_run (OpRegister self_parented)), reachable_create|].
  split; reflexivity.
Qed.

(** *** A manager with one comment *)

Definition one_comment : CommentManager :=
  run (OpCreateComment 1000 "Ann" "Please check" "A") create.

Lemma createReply_requires_parent_witness :
  ids_minted one_comment /\
  createReply 2000 0 "Bob" "Done" "B" one_comment =
    (mkManager
       {[ 0 := mkEntry (mkComment 0 "Ann" "A" 1000 "Please check" None)
                 [mkComment 1 "Bob" "B" 2000 "Done" (Some 0)];
          1 := mkEntry (mkComment 1 "Bob" "B" 2000 "Done" (Some 0)) [] ]}
       2,
     Ok (mkComment 1 "Bob" "B" 2000 "Done" (Some 0))).
Proof.
  assert (H : ids_minted one_comment).
  { apply reachable_ids_minted, reachable_run, reachable_create. }
  split; [exact H|].
  rewrite (proj2 (proj1 (proj2 (createReply_requires_parent
                                  2000 0 "Bob" "Done" "B" one_comment H))
                    (mkEntry (mkComment 0 "Ann" "A" 1000 "Please check" None) [])
                    eq_refl)).
  reflexivity.
Defined.

(** A comment with one reply: removing the comment removes both and
    returns true; removing an id that is not there changes nothing. *)
Example remove_thread :
  let m := (createReply 2000 0 "Bob" "Done" "B" one_comment).1 in
  getCount m = 2 /\
  removeComment 0 m = (mkManager ∅ 2, Ok true) /\
  removeComment 7 m = (m, Ok false).
Proof. vm_compute. repeat split; reflexivity. Qed.

Example reply_to_missing_parent :
  createReply 2000 5 "Bob" "Done" "B" one_comment =
    (one_comment, Throw (ParentCommentDoesNotExist 5)).
Proof. reflexivity. Qed.

End CommentsTheory.

(** ** ImageManager: registration and bulk load *)

Module ImagesTheory.
Import Images.

(** *** The map keyed by image objects *)

Lemma map_get_set_eq k v m : map_get k (map_set k v m) = Some v.
Proof.
  induction m as [|[k' v'] m IH]; cbn.
  - by rewrite Nat.eqb_refl.
  - destruct (Nat.eqb_spec k' k) as [->|Hne]; cbn.
    + by rewrite Nat.eqb_refl.
    + by destruct (Nat.eqb_spec k' k).
Qed.

Lemma map_get_set_ne k k' v m :
  k <> k' -> map_get k' (map_set k v m) = map_get k' m.
Proof.
  intros Hne. induction m as [|[k0 v0] m IH]; cbn.
  - by destruct (Nat.eqb_spec k k').
  - destruct (Nat.eqb_spec k0 k) as [->|Hne0]; cbn.
    + by destruct (Nat.eqb_spec k k').
    + by destruct (Nat.eqb_spec k0 k').
Qed.

Lemma map_size_set k v m :
  map_size (map_set k v m) =
    if map_has k m then map_size m else map_size m + 1.
Proof.
  unfold map_size, map_has. induction m as [|[k' v'] m IH]; [done|].
  cbn [map_set map_get]. destruct (Nat.eqb_spec k' k) as [->|Hne]; [done|].
  cbn [length]. destruct (map_get k m); lia.
Qed.

(** *** Registering under a recorded relationship id *)

Definition with_images (f : ImageMap -> ImageMap) (m : ImageManager) : ImageManager :=
  mkManager (f (images m)) (imagesByRelId m) (nextImageNumber m) (nextDocPrId m)
    (maxImageCount m) (maxTotalImageSizeBytes m) (maxSingleImageSizeBytes m).

Lemma registerImage_recorded i k e w :
  imagesByRelId (manager w) !! k = Some e ->
  registerImage i k w =
    (mkWorld (heap w) (with_images (map_set i e) (manager w)), Ok (filename e)).
Proof. intros Hk. unfold registerImage. by rewrite Hk. Qed.

(** A registerImage call never forgets or replaces a recorded key. *)
Lemma registerImage_keeps_recorded i k' w k e :
  imagesByRelId (manager w) !! k = Some e ->
  imagesByRelId (manager (registerImage i k' w).1) !! k = Some e.
Proof.
  intros Hk. unfold registerImage.
  destruct (imagesByRelId (manager w) !! k') as [e'|] eqn:Hk'; [done|].
  destruct (map_get i (images (manager w))); [done|].
  destruct (maxImageCount (manager w) <=? map_size (images (manager w))); [done|].
  destruct (size_checks i w) as [[]|err]; [|destruct (negb _); [done|]];
    cbn [fst manager imagesByRelId];
    (rewrite lookup_insert_ne; [done | intros ->; congruence]).
Qed.

(** A call that returns a filename and leaves its key recorded returned
    the filename of the recorded entry. *)
Lemma registerImage_returns_recorded i k w w' f e :
  registerImage i k w = (w', Ok f) ->
  imagesByRelId (manager w') !! k = Some e ->
  filename e = f.
Proof.
  unfold registerImage.
  destruct (imagesByRelId (manager w) !! k) as [e0|] eqn:Hk.
  - intros [= <- <-]. cbn. rewrite Hk. by intros [= <-].
  - destruct (map_get i (images (manager w))) as [e1|].
    { intros [= <- <-]. by rewrite Hk. }
    destruct (maxImageCount (manager w) <=? map_size (images (manager w))); [done|].
    destruct (size_checks i w) as [[]|err]; [|destruct (negb _); [done|]];
      intros [= <- <-]; cbn [manager imagesByRelId];
      rewrite lookup_insert_eq; by intros [= <-].
Qed.

(** The path by relationship id: in a state where the relationship key
    [k] is recorded with an entry, registerImage with [k] and any Image
    object returns the filename of that entry and throws nothing; the
    objects, the index by relationship id, both counters and the limits
    are as before; the object is a key of the image map for that entry
    afterwards and no other key changes.  Every registerImage call keeps
    [k] recorded with its entry, and a call with [k] that returned a
    filename and left [k] recorded returned the filename of that
    entry. *)
Lemma registerImage_by_relationship_id
  (w : World) (k : string) (e : ImageEntry) (i : ImageRef) :
  imagesByRelId (manager w) !! k = Some e ->
  let w' := (registerImage i k w).1 in
  (registerImage i k w).2 = Ok (filename e) /\
  heap w' = heap w /\
  imagesByRelId (manager w') = imagesByRelId (manager w) /\
  nextImageNumber (manager w') = nextImageNumber (manager w) /\
  nextDocPrId (manager w') = nextDocPrId (manager w) /\
  maxImageCount (manager w') = maxImageCount (manager w) /\
  maxTotalImageSizeBytes (manager w') = maxTotalImageSizeBytes (manager w) /\
  maxSingleImageSizeBytes (manager w') = maxSingleImageSizeBytes (manager w) /\
  map_get i (images (manager w')) = Some e /\
  (forall j, j <> i ->
     map_get j (images (manager w')) = map_get j (images (manager w))) /\
  (hasImage i w = true -> getImageCount w' = getImageCount w) /\
  (forall j k', imagesByRelId (manager (registerImage j k' w).1) !! k = Some e) /\
  (forall j w0 f, registerImage j k w0 = (w, Ok f) -> filename e = f).
Proof.
  intros Hk w'. unfold w'. rewrite (registerImage_recorded i k e w Hk).
  cbn [fst snd heap manager with_images images imagesByRelId nextImageNumber
       nextDocPrId maxImageCount maxTotalImageSizeBytes maxSingleImageSizeBytes].
  repeat (split; [reflexivity|]).
  split; [apply map_get_set_eq|].
  split; [intros j Hj; by apply map_get_set_ne|].
  split.
  - unfold hasImage, getImageCount. cbn [manager images with_images]. intros Hhas.
    by rewrite map_size_set, Hhas.
  - split.
    + intros j k'. by apply registerImage_keeps_recorded.
    + intros j w0 f Hcall. by apply (registerImage_returns_recorded j k w0 w f e).
Qed.

(** A new manager with the default limits, and objects for images whose
    bytes are not in memory. *)
Definition png : Image := mkImage "png" None None None.

Definition new_world : World :=
  mkWorld (fun _ => png) (new_manager (mkOptions None None None)).

Definition image1 : ImageRef := 1%nat.
Definition image2 : ImageRef := 2%nat.

(** [Map.set] with a key that is not in the map adds it at the end. *)
Lemma map_set_new k v m : map_get k m = None -> map_set k v m = (m ++ [(k, v)])%list.
Proof.
  induction m as [|[k' v'] m IH]; cbn [map_get map_set app]; [done|].
  destruct (Nat.eqb k' k); [done|]. intros Hget. by rewrite IH.
Qed.

Lemma getTotalSize_snoc (h : Heap) (m : ImageManager) (k : ImageRef) (e : ImageEntry) :
  getTotalSize (mkWorld h (with_images (fun im => im ++ [(k, e)])%list m)) =
    getTotalSize (mkWorld h m) + default 0 (imageData (h (image e))).
Proof.
  unfold getTotalSize, map_values. cbn [heap manager with_images images].
  rewrite fmap_app, foldl_app. cbn [fmap list_fmap foldl snd].
  unfold getImageData. destruct (imageData (h (image e))); cbn [default id]; lia.
Qed.

(** C1: registerImage does not do what the claim, and its own
    docstring, say for the case that the docstring names: the same
    image after a load and save, a new Image object under a recorded
    relationship id.  The call returns the recorded filename and mints
    no number, but [images.set(image, existingByRelId)] does not update
    an object reference: it adds the new object as one more key for the
    recorded entry.  The image count grows by one, getAllImages lists
    the entry once more, and getTotalSize counts the bytes of its image
    once more. *)
Theorem registerImage_new_object_duplicates_entry
  (w : World) (k : string) (e : ImageEntry) (i : ImageRef) :
  imagesByRelId (manager w) !! k = Some e ->
  hasImage i w = false ->
  (registerImage i k w).2 = Ok (filename e) /\
  nextImageNumber (manager (registerImage i k w).1) = nextImageNumber (manager w) /\
  getImageCount (registerImage i k w).1 = getImageCount w + 1 /\
  getAllImages (registerImage i k w).1 = (getAllImages w ++ [e])%list /\
  getTotalSize (registerImage i k w).1 =
    getTotalSize w + default 0 (imageData (heap w (image e))).
Proof.
  intros Hk Hnew. rewrite (registerImage_recorded i k e w Hk). cbn [fst snd].
  unfold hasImage, map_has in Hnew.
  destruct (map_get i (images (manager w))) as [e0|] eqn:Hget; [done|].
  split; [done|]. split; [done|].
  assert (Hset : with_images (map_set i e) (manager w) =
                 with_images (fun im => im ++ [(i, e)])%list (manager w)).
  { unfold with_images. by rewrite (map_set_new i e _ Hget). }
  rewrite Hset. split; [|split].
  - unfold getImageCount, map_size. cbn [manager with_images images].
    rewrite length_app. cbn [length]. lia.
  - unfold getAllImages, map_values. cbn [manager with_images images].
    by rewrite fmap_app.
  - rewrite getTotalSize_snoc. by destruct w.
Qed.

(** The check by object reference returns a filename without recording
    the key: registerImage(image1, 'rId2') for the tracked image1
    returns 'image1.png', and a later registerImage(image2, 'rId2')
    mints 'image2.png'. *)
Example registerImage_fallback_records_no_key :
  (registerImage image1 "rId2" (registerImage image1 "rId1" new_world).1).2
    = Ok "image1.png"%string /\
  imagesByRelId
    (manager (registerImage image1 "rId2" (registerImage image1 "rId1" new_world).1).1)
    !! "rId2"%string = None /\
  (registerImage image2 "rId2"
     (registerImage image1 "rId2" (registerImage image1 "rId1" new_world).1).1).2
    = Ok "image2.png"%string.
Proof. vm_compute. repeat split; reflexivity. Qed.

(** *** An image above the single-image limit *)

Lemma size_checks_oversized i w bytes :
  imageData (heap w i) = Some bytes ->
  maxSingleImageSizeBytes (manager w) < bytes ->
  size_checks i w =
    Throw (SingleImageSizeExceeded bytes (maxSingleImageSizeBytes (manager w))).
Proof.
  intros Hd Hb. unfold size_checks, getImageData. rewrite Hd.
  by destruct (Z.ltb_spec (maxSingleImageSizeBytes (manager w)) bytes); [|lia].
Qed.

(** C5 (as the code has it): for an Image object that the manager does
    not track yet, whose bytes are in memory and are more than the
    single-image limit, registerImage with a relationship key that is
    not recorded throws a capacity error with remediation lines (the
    count error when the manager is full, else the single-size error)
    and the objects and the manager are as before: the image is not
    added and getImageCount() is the same. *)
Theorem registerImage_oversized_rejected
  (w : World) (i : ImageRef) (k : string) (bytes : Z) :
  imagesByRelId (manager w) !! k = None ->
  hasImage i w = false ->
  imageData (heap w i) = Some bytes ->
  maxSingleImageSizeBytes (manager w) < bytes ->
  exists err,
    registerImage i k w = (w, Throw err) /\
    err = (if maxImageCount (manager w) <=? getImageCount w
           then MaxImageCountExceeded (maxImageCount (manager w))
           else SingleImageSizeExceeded bytes (maxSingleImageSizeBytes (manager w))) /\
    is_capacity_error err = true /\
    remediation err <> [] /\
    hasImage i (registerImage i k w).1 = false /\
    getImageCount (registerImage i k w).1 = getImageCount w.
Proof.
  intros Hk Hi Hd Hb. unfold hasImage, map_has in Hi.
  destruct (map_get i (images (manager w))) as [e|] eqn:Hget; [done|].
  assert (Hcall : registerImage i k w =
            (w, Throw (if maxImageCount (manager w) <=? getImageCount w
                       then MaxImageCountExceeded (maxImageCount (manager w))
                       else SingleImageSizeExceeded bytes
                              (maxSingleImageSizeBytes (manager w))))).
  { unfold registerImage, getImageCount. rewrite Hk, Hget.
    destruct (maxImageCount (manager w) <=? map_size (images (manager w))); [done|].
    by rewrite (size_checks_oversized i w bytes Hd Hb). }
  eexists. split; [exact Hcall|]. rewrite Hcall. cbn [fst].
  split; [done|].
  split; [by destruct (_ <=? _)|].
  split; [by destruct (_ <=? _)|].
  split; [|done]. unfold hasImage, map_has. by rewrite Hget.
Qed.

(** C5, as stated, fails on the code.  An image is registered under
    'rId1' on a new manager while its bytes are not in memory;
    loadAllImageData then brings in its 30 MB, above the limit of 20 MB;
    registerImage of that same object with the new key 'rId2' throws
    nothing and returns 'image1.png'. *)
Lemma registerImage_oversized_counterexample :
  exists w,
    loadAllImageData (fun _ => Ok 31457280) (fun batch => batch)
      (Some (js_int 5)) None (registerImage image1 "rId1" new_world).1
      = Some (w, [], Ok tt) /\
    imagesByRelId (manager w) !! "rId2" = None /\
    imageData (heap w image1) = Some 31457280 /\
    maxSingleImageSizeBytes (manager w) = 20971520 /\
    (registerImage image1 "rId2" w).2 = Ok "image1.png"%string /\
    getImageCount (registerImage image1 "rId2" w).1 = getImageCount w.
Proof. eexists. split; [reflexivity|]. vm_compute. repeat split; reflexivity. Qed.

(** *** Bulk load *)

(** The calls [onProgress(start, total)], ..., [onProgress(start + len - 1,
    total)]. *)
Definition calls_from (start len total : Z) : list (Z * Z) :=
  (fun loaded => (loaded, total)) <$> seqZ start len.

(** The number that a JavaScript value denotes. *)
Definition denotes (a : JsNumber) (z : Z) : Prop :=
  match a with
  | JsFinite n d => n = z * Z.pos d
  | _ => False
  end.

Lemma calls_from_app start len1 len2 total :
  0 <= len1 -> 0 <= len2 ->
  calls_from start (len1 + len2) total =
    calls_from start len1 total ++ calls_from (start + len1) len2 total.
Proof.
  intros H1 H2. unfold calls_from. rewrite seqZ_app by done. apply fmap_app.
Qed.

Lemma last_calls_from start len total :
  0 < len -> last (calls_from start len total) = Some (start + len - 1, total).
Proof.
  intros Hlen. replace len with ((len - 1) + 1) at 1 by lia.
  rewrite calls_from_app by lia. unfold calls_from at 2.
  rewrite seqZ_cons by lia. rewrite seqZ_nil by lia. cbn [fmap list_fmap].
  rewrite last_snoc. do 2 f_equal. lia.
Qed.

Lemma concurrency_valid_iff (a : JsNumber) :
  js_lt a 1 || js_gt a 50 || negb (isInteger a) = false <->
  exists z, 1 <= z <= 50 /\ denotes a z.
Proof.
  destruct a as [n d| |neg]; cbn [js_lt js_gt isInteger denotes].
  - rewrite !orb_false_iff, negb_false_iff, Z.ltb_ge, Z.ltb_ge, Z.eqb_eq. split.
    + intros [[Hlo Hhi] Hmod]. exists (n / Z.pos d).
      assert (Hn : n = n / Z.pos d * Z.pos d).
      { rewrite (Z.div_mod n (Z.pos d)) at 1 by lia. lia. }
      split; [|exact Hn]. nia.
    + intros [z [Hz ->]]. split; [split; nia|]. apply Z.mod_mul. lia.
  - split; [done | by intros [z [_ []]]].
  - split; [by destruct neg | by intros [z [_ []]]].
Qed.

Lemma integer_value_denotes a z : denotes a z -> integer_value a = z.
Proof.
  destruct a as [n d| |neg]; cbn; [|done..].
  intros ->. apply Z.div_mul. lia.
Qed.

Lemma length_slice {A} (i j : Z) (l : list A) :
  0 <= i <= j -> j <= Z.of_nat (length l) ->
  Z.of_nat (length (slice i j l)) = j - i.
Proof.
  intros Hi Hj. unfold slice. rewrite length_take, length_drop. lia.
Qed.

(** A callback whose calls all return. *)
Definition returns_always (callback : Callback) : Prop :=
  forall call, callback call = Returns.

Section BulkLoad.

Variable source : ImageRef -> result Error Z.
Variable schedule : list ImageEntry -> list ImageEntry.

(** Every load of a batch settles, once, in some order. *)
Hypothesis schedule_permutes : forall batch, schedule batch ≡ₚ batch.

Lemma load_entry_reports callback total entry s :
  returns_always callback ->
  exists h,
    load_entry source (Some callback) total entry s =
      (mkLoad h (loaded s + 1) (progress s ++ [(loaded s + 1, total)]), Ok tt).
Proof.
  intros Hret. unfold load_entry, try_catch, bind, await_load, count, report.
  destruct (ensureDataLoaded source (image entry) (ls_heap s)) as [h [[]|e]];
    cbn [ls_heap loaded progress]; rewrite Hret; by exists h.
Qed.

Lemma settled_report callback total (settled : list ImageEntry) s :
  returns_always callback ->
  exists h,
    foldl (settle source (Some callback) total) (s, Ok tt) settled =
      (mkLoad h (loaded s + Z.of_nat (length settled))
         (progress s ++ calls_from (loaded s + 1) (Z.of_nat (length settled)) total),
       Ok tt).
Proof.
  intros Hret. revert s. induction settled as [|entry settled IH]; intros s.
  - exists (ls_heap s). cbn [foldl length]. unfold calls_from.
    rewrite seqZ_nil, app_nil_r by done. destruct s. cbn. do 3 f_equal. lia.
  - cbn [foldl]. unfold settle at 2. cbn [fst snd].
    destruct (load_entry_reports callback total entry s Hret) as [h1 ->].
    destruct (IH (mkLoad h1 (loaded s + 1) (progress s ++ [(loaded s + 1, total)])))
      as [h2 ->].
    exists h2. cbn [loaded progress length]. f_equal. f_equal; [lia|].
    rewrite <- app_assoc. f_equal.
    replace (Z.of_nat (S (length settled))) with (1 + Z.of_nat (length settled)) by lia.
    by rewrite (calls_from_app (loaded s + 1) 1) by lia.
Qed.

Lemma run_batch_report callback total batch s :
  returns_always callback ->
  exists h,
    run_batch source schedule (Some callback) total batch s =
      (mkLoad h (loaded s + Z.of_nat (length batch))
         (progress s ++ calls_from (loaded s + 1) (Z.of_nat (length batch)) total),
       Ok tt).
Proof.
  intros Hret. unfold run_batch.
  rewrite <- (Permutation_length (schedule_permutes batch)).
  by apply settled_report.
Qed.

(** With a callback that returns, the loop ends within [total - i]
    rounds, with every entry counted and reported. *)
Lemma batches_report (all : list ImageEntry) (c : Z) callback (fuel : nat) :
  returns_always callback ->
  1 <= c ->
  forall i s,
    let total := Z.of_nat (length all) in
    0 <= i -> loaded s = Z.min i total ->
    (Z.to_nat (total - i) <= fuel)%nat ->
    exists s',
      batches source schedule fuel i c total (Some callback) all s = Some (s', Ok tt) /\
      loaded s' = total /\
      progress s' =
        progress s ++ calls_from (loaded s + 1) (total - loaded s) total.
Proof.
  intros Hret Hc. induction fuel as [|fuel IH]; intros i s total Hi Hs Hfuel.
  - exists s. cbn [batches]. destruct (Z.ltb_spec i total); [lia|].
    split; [done|]. split; [lia|].
    unfold calls_from. rewrite seqZ_nil by lia. by rewrite app_nil_r.
  - cbn [batches]. destruct (Z.ltb_spec i total) as [Hlt|Hge].
    + set (batch := slice i (Z.min (i + c) total) all).
      assert (Hlen : Z.of_nat (length batch) = Z.min (i + c) total - i).
      { apply length_slice; fold total; lia. }
      destruct (run_batch_report callback total batch s Hret) as [h1 ->].
      set (s1 := mkLoad h1 _ _).
      destruct (IH (i + c) s1) as [s' [Hrun [Hl' Hp']]];
        [lia | unfold s1; cbn [loaded]; fold total; lia | fold total; lia |].
      exists s'. split; [exact Hrun|]. split; [exact Hl'|].
      rewrite Hp'. unfold s1. cbn [loaded progress]. rewrite <- app_assoc. f_equal.
      replace (total - loaded s)
        with (Z.of_nat (length batch) + (total - (loaded s + Z.of_nat (length batch))))
        by lia.
      rewrite calls_from_app by lia. f_equal. f_equal; lia.
    + exists s. split; [done|]. split; [lia|].
      unfold calls_from. rewrite seqZ_nil by lia. by rewrite app_nil_r.
Qed.

(** C6 (amended): with n > 0 images in the manager, a concurrency that
    denotes an integer in [1,50] and a progress callback whose calls all
    return, loadAllImageData returns, whatever the order in which the
    loads of a batch settle and whichever of the loads throw; the
    manager is as before; [onProgress] was called n times, with (1, n),
    (2, n), ..., (n, n) in this order, so the loaded values increase
    strictly and end at n.  With a concurrency that denotes no integer in
    [1,50] (a fraction, a number outside the range, NaN, an infinity)
    the call throws, whatever the callback, and nothing is loaded or
    reported. *)
Theorem loadAllImageData_progress
  (concurrency : JsNumber) (callback : Callback) (w : World) :
  let n := getImageCount w in
  0 < n ->
  ((exists z, 1 <= z <= 50 /\ denotes concurrency z) ->
   returns_always callback ->
   exists h calls,
     loadAllImageData source schedule (Some concurrency) (Some callback) w
       = Some (mkWorld h (manager w), calls, Ok tt) /\
     calls = calls_from 1 n n /\
     calls.*1 = seqZ 1 n /\
     last calls = Some (n, n) /\
     (forall (j k : nat) x y, calls.*1 !! j = Some x -> calls.*1 !! k = Some y ->
                              (j < k)%nat -> x < y)) /\
  (~ (exists z, 1 <= z <= 50 /\ denotes concurrency z) ->
   forall onProgress,
     loadAllImageData source schedule (Some concurrency) onProgress w
       = Some (w, [], Throw (Raised InvalidConcurrency))).
Proof.
  intros n Hn. unfold getImageCount, map_size in n.
  assert (Htotal : Z.of_nat (length (map_values (images (manager w)))) = n).
  { unfold map_values. by rewrite length_fmap. }
  split.
  - intros Hvalid Hret. destruct (Hvalid) as [z [Hz Hden]].
    apply concurrency_valid_iff in Hvalid.
    unfold loadAllImageData. cbn [default id]. rewrite Htotal.
    destruct (Z.eqb_spec n 0); [lia|]. rewrite Hvalid.
    rewrite (integer_value_denotes _ _ Hden).
    destruct (batches_report (map_values (images (manager w))) z callback (Z.to_nat n)
                Hret ltac:(lia) 0 (mkLoad (heap w) 0 []))
      as [s' [Hrun [Hl Hp]]]; [lia | cbn; lia | lia |].
    rewrite Htotal in Hrun, Hp. rewrite Hrun. cbn [progress loaded app] in Hp.
    exists (ls_heap s'), (progress s'). split; [done|].
    replace (n - 0) with n in Hp by lia. change (0 + 1) with 1 in Hp.
    assert (Hfst : (calls_from 1 n n).*1 = seqZ 1 n).
    { unfold calls_from. rewrite <- list_fmap_compose. apply list_fmap_id. }
    rewrite Hp. split; [done|]. split; [exact Hfst|]. split.
    + rewrite last_calls_from by lia. do 2 f_equal. lia.
    + rewrite Hfst. intros j k x y Hj Hk Hjk.
      apply lookup_seqZ in Hj as [-> _]. apply lookup_seqZ in Hk as [-> _]. lia.
  - intros Hinvalid onProgress.
    unfold loadAllImageData. cbn [default id]. rewrite Htotal.
    destruct (Z.eqb_spec n 0); [lia|].
    destruct (js_lt concurrency 1 || js_gt concurrency 50
              || negb (isInteger concurrency)) eqn:Hv; [done|].
    by apply concurrency_valid_iff in Hv.
Qed.

End BulkLoad.

(** *** Worlds to run the theorems on *)

(** A new manager and an image of 30 MB that is in memory. *)
Definition large_image_world : World :=
  mkWorld (heap_update (heap new_world) image1 (setImageData (Some 31457280)))
    (manager new_world).

(** Seven images registered while their bytes are not in memory. *)
Definition seven_images : World :=
  foldl (fun w (p : ImageRef * string) => (registerImage p.1 p.2 w).1) new_world
    [(1%nat, "rId1"); (2%nat, "rId2"); (3%nat, "rId3"); (4%nat, "rId4");
     (5%nat, "rId5"); (6%nat, "rId6"); (7%nat, "rId7")]%string.

(** The bytes of image 4 cannot be read. *)
Definition fourth_fails (r : ImageRef) : result Error Z :=
  if Nat.eqb r 4 then Throw (LoadFailed "ENOENT") else Ok 1024.

Lemma registerImage_new_object_duplicates_entry_witness :
  imagesByRelId (manager (registerImage image1 "rId1" new_world).1) !! "rId1"%string
    = Some (mkEntry image1 "image1.png" "rId1" 1) /\
  hasImage image2 (registerImage image1 "rId1" new_world).1 = false /\
  (registerImage image2 "rId1" (registerImage image1 "rId1" new_world).1).2
    = Ok "image1.png"%string /\
  getImageCount (registerImage image1 "rId1" new_world).1 = 1 /\
  getImageCount (registerImage image2 "rId1" (registerImage image1 "rId1" new_world).1).1
    = 2 /\
  getAllImages (registerImage image2 "rId1" (registerImage image1 "rId1" new_world).1).1
    = [mkEntry image1 "image1.png" "rId1" 1; mkEntry image1 "image1.png" "rId1" 1].
Proof.
  assert (Hk : imagesByRelId (manager (registerImage image1 "rId1" new_world).1)
                !! "rId1"%string = Some (mkEntry image1 "image1.png" "rId1" 1))
    by reflexivity.
  assert (Hnew : hasImage image2 (registerImage image1 "rId1" new_world).1 = false)
    by reflexivity.
  destruct (registerImage_new_object_duplicates_entry _ _ _ image2 Hk Hnew)
    as [Hfile [_ [Hcount [Hall _]]]].
  split; [exact Hk|]. split; [exact Hnew|]. split; [exact Hfile|].
  split; [reflexivity|]. split; [rewrite Hcount; reflexivity|].
  rewrite Hall. reflexivity.
Defined.

Lemma registerImage_oversized_rejected_witness :
  imagesByRelId (manager large_image_world) !! "rId1"%string = None /\
  hasImage image1 large_image_world = false /\
  imageData (heap large_image_world image1) = Some 31457280 /\
  maxSingleImageSizeBytes (manager large_image_world) < 31457280 /\
  exists err,
    registerImage image1 "rId1" large_image_world = (large_image_world, Throw err) /\
    is_capacity_error err = true.
Proof.
  split; [reflexivity|]. split; [reflexivity|]. split; [reflexivity|].
  split; [reflexivity|].
  destruct (registerImage_oversized_rejected large_image_world image1 "rId1"
              31457280 eq_refl eq_refl eq_refl eq_refl)
    as [err [Hcall [_ [Hcap _]]]].
  exists err. split; [exact Hcall | exact Hcap].
Defined.

(** A callback that returns, one whose first call throws, and one
    whose calls all throw. *)
Definition quiet : Callback := fun _ => Returns.
Definition throws_once : Callback :=
  fun call => match call with O => Throws | S _ => Returns end.
Definition throws_always : Callback := fun _ => Throws.

(** The calls of the callback and the way the call ends. *)
Definition observed (r : option (World * list (Z * Z) * result Rejection unit))
  : option (list (Z * Z) * result Rejection unit) :=
  (fun x => (x.1.2, x.2)) <$> r.

Lemma loadAllImageData_progress_witness :
  0 < getImageCount seven_images /\
  exists h,
    loadAllImageData fourth_fails reverse (Some (js_int 3)) (Some quiet) seven_images =
      Some (mkWorld h (manager seven_images),
            [(1, 7); (2, 7); (3, 7); (4, 7); (5, 7); (6, 7); (7, 7)], Ok tt).
Proof.
  split; [reflexivity|].
  assert (Hvalid : exists z, 1 <= z <= 50 /\ denotes (js_int 3) z).
  { exists 3. split; [lia | reflexivity]. }
  destruct (proj1 (loadAllImageData_progress fourth_fails reverse
                     (fun batch => reverse_Permutation batch)
                     (js_int 3) quiet seven_images eq_refl) Hvalid (fun _ => eq_refl))
    as [h [calls [Hcall [Hcalls _]]]].
  exists h. rewrite Hcall, Hcalls. reflexivity.
Defined.

(** C6, as stated, fails on the code: the claim puts no condition on
    the callback.  With 7 images, concurrency 3 and a callback whose
    first call throws, the throw is caught as if the load had failed:
    the first image that settles is counted twice and the loaded values
    end at 8, not at 7.  With a callback whose calls all throw, the
    second throw of an entry rejects the call after the first batch:
    the loaded values stop at 6 and the other images are never
    loaded. *)
Lemma loadAllImageData_throwing_callback_counterexample :
  getImageCount seven_images = 7 /\
  (exists z, 1 <= z <= 50 /\ denotes (js_int 3) z) /\
  observed (loadAllImageData fourth_fails reverse (Some (js_int 3)) (Some throws_once)
              seven_images) =
    Some ([(1, 7); (2, 7); (3, 7); (4, 7); (5, 7); (6, 7); (7, 7); (8, 7)], Ok tt) /\
  observed (loadAllImageData fourth_fails reverse (Some (js_int 3)) (Some throws_always)
              seven_images) =
    Some ([(1, 7); (2, 7); (3, 7); (4, 7); (5, 7); (6, 7)], Throw (CallbackThrew 1)).
Proof.
  split; [reflexivity|]. split; [exists 3; split; [lia | reflexivity]|].
  split; vm_compute; reflexivity.
Qed.

(** With no image in the manager the call returns before it looks at
    the concurrency. *)
Example loadAllImageData_no_images :
  loadAllImageData fourth_fails reverse (Some JsNaN) (Some quiet) new_world =
    Some (new_world, [], Ok tt).
Proof. reflexivity. Qed.

Example loadAllImageData_fraction :
  loadAllImageData fourth_fails reverse (Some (JsFinite 5 2)) (Some quiet) seven_images =
    Some (seven_images, [], Throw (Raised InvalidConcurrency)).
Proof. reflexivity. Qed.

End ImagesTheory.

(** ** TableOfContents: the complex field *)

Module TocTheory.
Import Toc.

Local Open Scope string_scope.

(** The field paragraph that toXML builds. *)
Definition field_paragraph (t : TableOfContents) : XMLElement :=
  Element "w:p" []
    [Child begin_run;
     Child (instruction_run (buildFieldInstruction t));
     Child separate_run;
     Child content_run;
     Child end_run] false.

Definition title_part (t : TableOfContents) : list XMLElement :=
  match title t with
  | EmptyString => []
  | _ => [title_paragraph (title t)]
  end.

Lemma toXML_value t : toXML t = Ok (title_part t ++ [field_paragraph t])%list.
Proof. unfold toXML, title_part. by destruct (title t). Qed.

Lemma validate_field_incomplete elements p :
  length (children_of p) <> 5%nat ->
  validate_field elements p = Throw (FieldStructureIncomplete (length (children_of p))).
Proof.
  intros Hlen. unfold validate_field.
  by destruct (Nat.eqb_spec (length (children_of p)) 5).
Qed.

(** An instruction that starts with the name of the field. *)
Definition names_field (instruction : string) : Prop :=
  exists switches, instruction = "TOC" ++ switches.

Lemma names_field_append instruction more :
  names_field instruction -> names_field (instruction ++ more).
Proof. intros [switches ->]. by exists (switches ++ more). Qed.

Lemma buildFieldInstruction_shape (t : TableOfContents) :
  exists switches, buildFieldInstruction t = ("TOC" ++ switches) ++ " \* MERGEFORMAT".
Proof.
  unfold buildFieldInstruction. cbv zeta.
  match goal with
  | |- exists switches, ?i ++ _ = _ =>
      enough (names_field i) as [switches ->] by by exists switches
  end.
  destruct (includeStyles t) as [[|style styles]|], (useHyperlinks t),
    (showPageNumbers t), (tabLeader t), (fieldSwitches t) as [[|c switches]|];
    repeat apply names_field_append; by eexists.
Qed.

(** C2: for every TableOfContents, toXML returns, after the title
    paragraph when there is a title, the field paragraph, whose children
    are exactly five runs, in this order: the begin marker
    ([w:fldChar] of type begin), the instruction text ([w:instrText],
    space preserved, holding the instruction that
    buildFieldInstruction builds, which starts with TOC and ends with
    \* MERGEFORMAT), the separate marker, the cached result (the text
    'Right-click to update field.', not proofed) and the end marker;
    toXML never returns anything else, and its final check throws for
    any paragraph that does not have five children, so a field with a
    stage missing is not returned. *)
Theorem toXML_five_stages (t : TableOfContents) :
  toXML t =
    Ok (title_part t ++
        [Element "w:p" []
           [Child (Element "w:r" []
                     [Child (Element "w:fldChar" [("w:fldCharType", "begin")] [] true)]
                     false);
            Child (Element "w:r" []
                     [Child (Element "w:instrText" [("xml:space", "preserve")]
                               [Text (buildFieldInstruction t)] false)]
                     false);
            Child (Element "w:r" []
                     [Child (Element "w:fldChar" [("w:fldCharType", "separate")] [] true)]
                     false);
            Child (Element "w:r" []
                     [Child (Element "w:rPr" []
                               [Child (Element "w:noProof" [] [] true)] false);
                      Child (Element "w:t" [] [Text "Right-click to update field."]
                               false)]
                     false);
            Child (Element "w:r" []
                     [Child (Element "w:fldChar" [("w:fldCharType", "end")] [] true)]
                     false)]
           false])%list /\
  (exists switches,
     buildFieldInstruction t = ("TOC" ++ switches) ++ " \* MERGEFORMAT") /\
  (forall elements, toXML t = Ok elements ->
     exists p, last elements = Some p /\
               name_of p = "w:p" /\
               stage_of <$> children_of p =
                 [Some Begin;
                  Some (Instruction (buildFieldInstruction t));
                  Some Separate;
                  Some (CachedContent "Right-click to update field.");
                  Some End_]) /\
  (forall elements p,
     length (children_of p) <> 5%nat ->
     validate_field elements p =
       Throw (FieldStructureIncomplete (length (children_of p)))).
Proof.
  split; [apply toXML_value|]. split; [apply buildFieldInstruction_shape|].
  split; [|apply validate_field_incomplete].
  intros elements. rewrite toXML_value. intros [= <-].
  exists (field_paragraph t). by rewrite last_snoc.
Qed.

(** *** The number of heading levels *)

Lemma setLevels_rejects n t :
  setLevels n t = Throw LevelsOutOfRange <-> (n < 1 \/ 9 < n)%Z.
Proof.
  unfold setLevels.
  destruct (Z.ltb_spec n 1) as [H1|H1]; destruct (Z.ltb_spec 9 n) as [H9|H9];
    cbn [orb]; split; intros H; try done; try lia; tauto.
Qed.

(** The properties and the options that set nothing but the levels. *)
Definition only_levels (n : Z) : TOCProperties :=
  mkProperties None (Some n) None None None None None None None None None None
    None None None.

(** C10: the constructor takes any number for the levels as it is
    (zero, which is falsy, gives the default 3) and configure writes any
    number it is given; neither of them can throw; a TableOfContents
    with 12 levels can be constructed, and one with 0 levels configured,
    and toXML writes them into the field instruction; setLevels throws
    exactly for the numbers below 1 or above 9, and for the others it
    stores the number. *)
Theorem levels_validated_by_setLevels_only :
  (forall properties n,
     p_levels properties = Some n -> n <> 0%Z ->
     levels (new properties) = n) /\
  (forall options t n,
     p_levels options = Some n -> levels (configure options t) = n) /\
  (levels (new (only_levels 12)) = 12%Z /\
   toXML (new (only_levels 12)) =
     Ok [title_paragraph "Table of Contents";
         Element "w:p" []
           [Child begin_run;
            Child (instruction_run
                     ("TOC \o " ++ quote ++ "1-12" ++ quote ++ " \* MERGEFORMAT"));
            Child separate_run;
            Child content_run;
            Child end_run] false]) /\
  (levels (configure (only_levels 0) (new no_properties)) = 0%Z /\
   buildFieldInstruction (configure (only_levels 0) (new no_properties)) =
     "TOC \o " ++ quote ++ "1-0" ++ quote ++ " \* MERGEFORMAT") /\
  (forall n t, setLevels n t = Throw LevelsOutOfRange <-> (n < 1 \/ 9 < n)%Z) /\
  (forall n t, (1 <= n <= 9)%Z -> setLevels n t = Ok (set_levels n t)).
Proof.
  split.
  { intros properties n Hn Hz. unfold new. cbn [levels]. rewrite Hn.
    unfold number_or. by destruct n. }
  split.
  { intros options t n Hn. unfold configure. cbn [levels]. by rewrite Hn. }
  split; [split; reflexivity|]. split; [split; reflexivity|].
  split; [apply setLevels_rejects|].
  intros n t Hn. unfold setLevels.
  destruct (Z.ltb_spec n 1); [lia|]. by destruct (Z.ltb_spec 9 n); [lia|].
Qed.

Example default_field_instruction :
  buildFieldInstruction (new no_properties) =
    "TOC \o " ++ quote ++ "1-3" ++ quote ++ " \* MERGEFORMAT".
Proof. reflexivity. Qed.

Example setLevels_bounds :
  setLevels 0 (new no_properties) = Throw LevelsOutOfRange /\
  setLevels 10 (new no_properties) = Throw LevelsOutOfRange /\
  levels (new (only_levels 0)) = 3%Z /\
  (exists t, setLevels 9 (new no_properties) = Ok t /\ levels t = 9%Z).
Proof. repeat split; try reflexivity. eexists. split; reflexivity. Qed.

End TocTheory.

(** * Further operations of the stores *)

(** ** NumberingManager: listing *)

Module NumberingLists.
Import Numbering.

Definition abstractNumId_le (a b : AbstractNumbering) : Prop :=
  getAbstractNumId a <= getAbstractNumId b.

#[local] Instance abstractNumId_le_dec (a b : AbstractNumbering) :
  Decision (abstractNumId_le a b).
Proof. unfold abstractNumId_le. apply _. Defined.

(** getAllAbstractNumberings: the values sorted by ascending id. *)
Definition getAllAbstractNumberings (m : NumberingManager) : list AbstractNumbering :=
  merge_sort abstractNumId_le (map_to_list (abstractNumberings m)).*2.

(** Every id in use is below the counter that mints the next one. *)
Definition ids_below_counters (m : NumberingManager) : Prop :=
  (forall a d, abstractNumberings m !! a = Some d -> a < nextAbstractNumId m) /\
  (forall n i, instances m !! n = Some i -> n < nextNumId m).

(** Both counters are safe integers, so that [++] on them is exact. *)
Definition safe_counters (m : NumberingManager) : Prop :=
  nextAbstractNumId m <= MAX_SAFE_INTEGER /\ nextNumId m <= MAX_SAFE_INTEGER.

(** A factory of definitions gives the definition the id it is passed. *)
Definition carries_id (factory : Z -> result Error AbstractNumbering) : Prop :=
  forall id d, factory id = Ok d -> abstractNumId d = id.

(** The ids that the caller of an operation passes in are safe
    integers; the definition that the factory of a create-list method
    makes has the id it was passed or another safe integer. *)
Definition safe_op (o : Op) (m : NumberingManager) : Prop :=
  match o with
  | OpAddAbstractNumbering a => safe_integer (abstractNumId a)
  | OpAddInstance i => safe_integer (numId i)
  | OpCreateList factory =>
      forall d, factory (nextAbstractNumId m) = Ok d ->
        abstractNumId d = nextAbstractNumId m \/ safe_integer (abstractNumId d)
  | _ => True
  end.

(** An instance is registered under its own numId. *)
Definition keyed_by_numId (m : NumberingManager) : Prop :=
  forall n i, instances m !! n = Some i -> numId i = n.

(** A definition with the standard indents on all its levels. *)
Definition standardized (d : AbstractNumbering) : AbstractNumbering :=
  set_levels (standard_level <$> levels d) d.

End NumberingLists.

Module NumberingListsTheory.
Import Numbering NumberingLists NumbersTheory NumberingTheory.

(** *** The counters stay ahead of the ids *)

Lemma ids_below_mono (m m' : NumberingManager) :
  (forall a, is_Some (abstractNumberings m' !! a) ->
             is_Some (abstractNumberings m !! a)) ->
  (forall n, is_Some (instances m' !! n) -> is_Some (instances m !! n)) ->
  nextAbstractNumId m <= nextAbstractNumId m' ->
  nextNumId m <= nextNumId m' ->
  ids_below_counters m -> ids_below_counters m'.
Proof.
  intros Ha Hi Hca Hci [Hma Hmi]. split.
  - intros a d Hd. destruct (Ha a) as [d' Hd']; [eauto|]. specialize (Hma _ _ Hd'). lia.
  - intros n i Hn. destruct (Hi n) as [i' Hi']; [eauto|]. specialize (Hmi _ _ Hi'). lia.
Qed.

Lemma addAbstractNumbering_ids_below a m :
  abstractNumId a < nextAbstractNumId m \/ safe_integer (abstractNumId a) ->
  ids_below_counters m -> ids_below_counters (addAbstractNumbering a m).1.
Proof.
  intros Hsafe [Hma Hmi]. unfold addAbstractNumbering, getAbstractNumId. cbn [fst].
  assert (Hins : forall c, abstractNumId a < c -> nextAbstractNumId m <= c ->
            ids_below_counters
              (mkManager (<[abstractNumId a := a]> (abstractNumberings m))
                 (instances m) c (nextNumId m))).
  { intros c Hc Hle. split; cbn.
    - intros b d [[<- _]|[_ Hd]]%lookup_insert_Some; [done|].
      specialize (Hma _ _ Hd). lia.
    - exact Hmi. }
  cbn [with_abstracts nextAbstractNumId].
  destruct (Z.leb_spec (nextAbstractNumId m) (abstractNumId a)).
  - destruct Hsafe as [Hlt|Hsafe]; [lia|]. rewrite (js_succ_safe _ Hsafe).
    apply Hins; lia.
  - apply Hins; lia.
Qed.

Lemma addInstance_ids_below i m :
  numId i < nextNumId m \/ safe_integer (numId i) ->
  ids_below_counters m -> ids_below_counters (addInstance i m).1.
Proof.
  intros Hsafe [Hma Hmi]. unfold addInstance.
  destruct (hasAbstractNumbering (inst_abstractNumId i) m); cbn [negb fst]; [|done].
  assert (Hins : forall c, numId i < c -> nextNumId m <= c ->
            ids_below_counters
              (mkManager (abstractNumberings m)
                 (<[numId i := i]> (instances m)) (nextAbstractNumId m) c)).
  { intros c Hc Hle. split; cbn.
    - exact Hma.
    - intros n j [[<- _]|[_ Hj]]%lookup_insert_Some; [done|].
      specialize (Hmi _ _ Hj). lia. }
  cbn [with_instances nextNumId].
  destruct (Z.leb_spec (nextNumId m) (numId i)).
  - destruct Hsafe as [Hlt|Hsafe]; [lia|]. rewrite (js_succ_safe _ Hsafe).
    apply Hins; lia.
  - apply Hins; lia.
Qed.

Lemma bump_ids_below m a n :
  nextAbstractNumId m <= a -> nextNumId m <= n ->
  ids_below_counters m ->
  ids_below_counters (mkManager (abstractNumberings m) (instances m) a n).
Proof. intros Ha Hn. by apply ids_below_mono. Qed.

Lemma createList_ids_below factory m :
  (forall d, factory (nextAbstractNumId m) = Ok d ->
     abstractNumId d = nextAbstractNumId m \/ safe_integer (abstractNumId d)) ->
  ids_below_counters m -> ids_below_counters (createList factory m).1.
Proof.
  intros Hfactory Hm. unfold createList. rewrite bind_get, bind_put.
  set (m1 := with_nextAbstractNumId (nextAbstractNumId m + 1) m).
  assert (H1 : ids_below_counters m1) by (apply bump_ids_below; [lia | lia | done]).
  destruct (factory (nextAbstractNumId m)) as [a|e] eqn:Hf; [|done].
  rewrite bind_result.
  assert (Ha : abstractNumId a < nextAbstractNumId m1 \/ safe_integer (abstractNumId a)).
  { destruct (Hfactory a eq_refl) as [->|Hs]; [left; cbn; lia | by right]. }
  pose proof (addAbstractNumbering_ids_below a m1 Ha H1) as H2.
  destruct (addAbstractNumbering a m1) as [m2 [[]|e]]; cbn [fst snd] in *; [|done].
  rewrite bind_get, bind_put, bind_result.
  set (m3 := with_nextNumId (nextNumId m2 + 1) m2).
  assert (H3 : ids_below_counters m3) by (apply bump_ids_below; [lia | lia | done]).
  pose proof (addInstance_ids_below
                (NumberingInstance_create (nextNumId m2) (nextAbstractNumId m))
                m3 ltac:(left; cbn; lia) H3) as H4.
  by destruct (addInstance _ m3) as [m4 [[]|e]].
Qed.

Lemma createInstance_ids_below id m :
  ids_below_counters m -> ids_below_counters (createInstance id m).1.
Proof.
  intros Hm. unfold createInstance. rewrite bind_get.
  destruct (hasAbstractNumbering id m); cbn [negb]; [|done].
  rewrite bind_put, bind_result.
  set (m1 := with_nextNumId (nextNumId m + 1) m).
  assert (H1 : ids_below_counters m1) by (apply bump_ids_below; [lia | lia | done]).
  pose proof (addInstance_ids_below (NumberingInstance_create (nextNumId m) id)
                m1 ltac:(left; cbn; lia) H1) as H2.
  by destruct (addInstance _ m1) as [m2 [[]|e]].
Qed.

(** Writing a definition back under a key that is registered. *)
Lemma store_registered_ids_below a d d' m :
  abstractNumberings m !! a = Some d ->
  ids_below_counters m -> ids_below_counters (with_abstracts (insert a d') m).
Proof.
  intros Ha. apply ids_below_mono; cbn; try done; try lia.
  intros b [<-|Hb]%lookup_insert_is_Some'; eauto.
Qed.

Lemma setListIndentation_ids_below n l li hi m :
  ids_below_counters m -> ids_below_counters (setListIndentation n l li hi m).1.
Proof.
  intros Hm. unfold setListIndentation.
  destruct ((l <? 0) || (8 <? l)); [done|].
  destruct (getInstance n m) as [i|]; [|done].
  destruct (getAbstractNumbering (inst_abstractNumId i) m) as [a|] eqn:Ha; [|done].
  destruct (abstract_getLevel l a) as [lv|]; [|done].
  destruct (setLeftIndent _ lv) as [l1|e]; [|done].
  destruct (setHangingIndent _ l1) as [l2|e]; cbn [fst];
    by apply (store_registered_ids_below _ a).
Qed.

Lemma normalizeListIndentation_ids_below n m :
  ids_below_counters m -> ids_below_counters (normalizeListIndentation n m).1.
Proof.
  intros Hm. unfold normalizeListIndentation.
  destruct (getInstance n m) as [i|]; [|done].
  destruct (getAbstractNumbering (inst_abstractNumId i) m) as [a|] eqn:Ha; [|done].
  destruct (normalizeLevels (getAllLevels a)) as [ls [[]|e]]; cbn [fst];
    by apply (store_registered_ids_below _ a).
Qed.

Lemma normalizeAll_loop_ids_below todo count m :
  ids_below_counters m -> ids_below_counters (normalizeAll_loop todo count m).1.
Proof.
  revert count m. induction todo as [|i todo IH]; intros count m Hm; [done|].
  cbn [normalizeAll_loop]. rewrite bind_result.
  pose proof (normalizeListIndentation_ids_below (numId i) m Hm) as H1.
  destruct (normalizeListIndentation (numId i) m) as [m1 [b|e]]; cbn [fst snd] in *;
    [|done].
  by apply IH.
Qed.

(** X1: while both counters are safe integers (at most
    Number.MAX_SAFE_INTEGER, 2^53 - 1) and the ids that a caller passes
    to addAbstractNumbering and addInstance, and the ids of the
    definitions that a factory returns, are safe integers, every
    operation of the manager keeps every registered id below the counter
    that mints the next one, also when it throws, so that a registered id
    is not minted again; the manager that the constructor makes, with
    factories that give a definition the id they are passed, starts so.
    Beyond the safe integers this fails: addInstance of an instance
    with numId 2^53 leaves nextNumId at 2^53, the id just registered,
    because 2^53 + 1 is no double. *)
Theorem counters_stay_ahead :
  (forall b bullet numbered, carries_id bullet -> carries_id numbered ->
     ids_below_counters (new_manager b bullet numbered).1) /\
  (forall o m, ids_below_counters m -> safe_counters m -> safe_op o m ->
     ids_below_counters (run o m)) /\
  (forall i m,
     numId i = MAX_SAFE_INTEGER + 1 ->
     hasAbstractNumbering (inst_abstractNumId i) m = true ->
     nextNumId m <= MAX_SAFE_INTEGER + 1 ->
     instances (addInstance i m).1 !! (MAX_SAFE_INTEGER + 1) = Some i /\
     nextNumId (addInstance i m).1 = MAX_SAFE_INTEGER + 1).
Proof.
  assert (He : ids_below_counters empty_manager).
  { split; intros k v Hk; cbn in Hk; by rewrite lookup_empty in Hk. }
  split; [|split].
  - intros b bullet numbered Hbullet Hnumbered.
    unfold new_manager. destruct b; [|exact He].
    unfold initializeDefaultNumberings. rewrite bind_get, bind_put.
    set (m1 := with_nextAbstractNumId (nextAbstractNumId empty_manager + 1) empty_manager).
    assert (H1 : ids_below_counters m1)
      by (apply bump_ids_below; [cbn; lia | cbn; lia | exact He]).
    destruct (bullet (nextAbstractNumId empty_manager)) as [a|e] eqn:Hb; [|done].
    rewrite bind_result.
    assert (Ha : abstractNumId a < nextAbstractNumId m1 \/ safe_integer (abstractNumId a)).
    { left. rewrite (Hbullet _ _ Hb). cbn. lia. }
    pose proof (addAbstractNumbering_ids_below a m1 Ha H1) as H2.
    destruct (addAbstractNumbering a m1) as [m2 [[]|e]]; cbn [fst snd] in *; [|done].
    rewrite bind_get, bind_put.
    assert (H3 : ids_below_counters
                   (with_nextAbstractNumId (nextAbstractNumId m2 + 1) m2))
      by (apply bump_ids_below; [lia | lia | done]).
    destruct (numbered (nextAbstractNumId m2)) as [a'|e] eqn:Hn; [|done].
    apply addAbstractNumbering_ids_below; [|done].
    left. rewrite (Hnumbered _ _ Hn). cbn. lia.
  - intros [a|id|i|n|factory|id|n l li hi|n| | |used] m Hm _ Hsafe; cbn [run];
      cbn [safe_op] in Hsafe.
    + apply addAbstractNumbering_ids_below; [by right | done].
    + revert Hm. apply ids_below_mono; cbn; try lia.
      * intros a [_ Ha]%lookup_delete_is_Some. done.
      * intros n. rewrite lookup_delete_all. by destruct (decide _); [intros []|].
    + apply addInstance_ids_below; [by right | done].
    + revert Hm. apply ids_below_mono; cbn; try lia; try done.
      intros k [_ Hk]%lookup_delete_is_Some. done.
    + by apply createList_ids_below.
    + by apply createInstance_ids_below.
    + by apply setListIndentation_ids_below.
    + by apply normalizeListIndentation_ids_below.
    + by apply normalizeAll_loop_ids_below.
    + exact He.
    + revert Hm. apply ids_below_mono; cbn; try lia.
      * intros a. rewrite lookup_delete_all. by destruct (decide _); [intros []|].
      * intros n. rewrite lookup_delete_all. by destruct (decide _); [intros []|].
  - intros i m Hi Hhas Hnext. unfold addInstance. rewrite Hhas. cbn [negb fst].
    cbn [with_instances nextNumId]. rewrite Hi.
    destruct (Z.leb_spec (nextNumId m) (MAX_SAFE_INTEGER + 1)); [|lia].
    cbn [with_nextNumId instances nextNumId].
    split; [apply lookup_insert_eq | reflexivity].
Qed.

(** *** Minting *)






(** *** setListIndentation *)

Lemma find_update_level_eq lvl l' ls l0 :
  List.find (fun l => level l =? lvl) ls = Some l0 ->
  level l' = lvl ->
  List.find (fun l => level l =? lvl) (update_level lvl (fun _ => l') ls) = Some l'.
Proof.
  intros Hfind Hl'. induction ls as [|l ls IH]; [done|].
  cbn [List.find update_level] in *.
  destruct (Z.eqb_spec (level l) lvl) as [Heq|Hne]; cbn [List.find].
  - by rewrite Hl', Z.eqb_refl.
  - destruct (Z.eqb_spec (level l) lvl); [done|]. by apply IH.
Qed.

Lemma find_update_level_ne lvl j l' ls :
  j <> lvl -> level l' = lvl ->
  List.find (fun l => level l =? j) (update_level lvl (fun _ => l') ls) =
  List.find (fun l => level l =? j) ls.
Proof.
  intros Hj Hl'. induction ls as [|l ls IH]; [done|].
  cbn [List.find update_level].
  destruct (Z.eqb_spec (level l) lvl) as [Heq|Hne]; cbn [List.find].
  - destruct (Z.eqb_spec (level l') j); [lia|].
    destruct (Z.eqb_spec (level l) j); [lia|]. done.
  - by rewrite IH.
Qed.

Lemma find_level_index lvl ls l0 :
  List.find (fun l => level l =? lvl) ls = Some l0 -> level l0 = lvl.
Proof. intros [_ H]%List.find_some. by apply Z.eqb_eq. Qed.

(** X4: setListIndentation(numId, level, leftIndent, hangingIndent),
    written [setListIndentation numId lvl li hi] here,
    throws and changes nothing for a level outside [0,8]; for a level in
    [0,8] it returns false and changes nothing when the instance, its
    definition or that level of the definition is missing; otherwise it
    returns true, and that level of the definition has the left and
    hanging indents it was given, a negative one replaced by zero, and
    is otherwise as before, as is every other level. *)
Theorem setListIndentation_outcomes
  (numId lvl li hi : Z) (m : NumberingManager) :
  ((lvl < 0 \/ 8 < lvl) ->
   setListIndentation numId lvl li hi m =
     (m, Throw (InvalidLevel lvl))) /\
  (0 <= lvl <= 8 ->
   (instances m !! numId = None ->
    setListIndentation numId lvl li hi m = (m, Ok false)) /\
   (forall inst, instances m !! numId = Some inst ->
    abstractNumberings m !! inst_abstractNumId inst = None ->
    setListIndentation numId lvl li hi m = (m, Ok false)) /\
   (forall inst d, instances m !! numId = Some inst ->
    abstractNumberings m !! inst_abstractNumId inst = Some d ->
    abstract_getLevel lvl d = None ->
    setListIndentation numId lvl li hi m = (m, Ok false)) /\
   (forall inst d l0, instances m !! numId = Some inst ->
    abstractNumberings m !! inst_abstractNumId inst = Some d ->
    abstract_getLevel lvl d = Some l0 ->
    exists d',
      setListIndentation numId lvl li hi m =
        (with_abstracts (insert (inst_abstractNumId inst) d') m, Ok true) /\
      abstractNumId d' = abstractNumId d /\
      abstract_getLevel lvl d' =
        Some (mkLevel lvl (format l0) (text l0) (start l0)
                (Z.max 0 li) (Z.max 0 hi)) /\
      (forall j, j <> lvl -> abstract_getLevel j d' = abstract_getLevel j d))).
Proof.
  split.
  - intros Hl. unfold setListIndentation.
    destruct (Z.ltb_spec lvl 0); [done|]. destruct (Z.ltb_spec 8 lvl); [done|]. lia.
  - intros Hl.
    assert (Hguard : (lvl <? 0) || (8 <? lvl) = false).
    { destruct (Z.ltb_spec lvl 0); [lia|]. destruct (Z.ltb_spec 8 lvl); [lia|]. done. }
    unfold setListIndentation, getInstance, getAbstractNumbering. rewrite Hguard.
    split; [by intros ->|].
    split; [by intros inst -> ->|].
    split; [by intros inst d -> -> ->|].
    intros inst d l0 -> -> Hl0. rewrite Hl0.
    unfold setLeftIndent, setHangingIndent.
    destruct (Z.ltb_spec (Z.max 0 li) 0); [lia|].
    destruct (Z.ltb_spec (Z.max 0 hi) 0); [lia|].
    cbn [level format text start leftIndent hangingIndent].
    eexists. split; [reflexivity|]. split; [done|].
    unfold abstract_getLevel in *. cbn [set_levels levels].
    pose proof (find_level_index _ _ _ Hl0) as Hidx. rewrite Hidx.
    split.
    + by apply (find_update_level_eq lvl _ _ l0).
    + intros j Hj. by apply find_update_level_ne.
Qed.

(** The manager with one list has its ids below the counters. *)
Lemma odd_manager_ids_below : ids_below_counters odd_manager.
Proof.
  apply createList_ids_below.
  - intros d [= <-]. by left.
  - split; intros k v Hk; cbn in Hk; by rewrite lookup_empty in Hk.
Defined.

Lemma counters_stay_ahead_witness :
  ids_below_counters odd_manager /\
  safe_counters odd_manager /\
  safe_op (OpAddInstance (NumberingInstance_create 7 0)) odd_manager /\
  ids_below_counters (run (OpAddInstance (NumberingInstance_create 7 0)) odd_manager) /\
  nextNumId (run (OpAddInstance (NumberingInstance_create 7 0)) odd_manager) = 8.
Proof.
  assert (Hcounters : safe_counters odd_manager).
  { split; vm_compute; discriminate. }
  assert (Hop : safe_op (OpAddInstance (NumberingInstance_create 7 0)) odd_manager).
  { split; vm_compute; discriminate. }
  split; [exact odd_manager_ids_below|]. split; [exact Hcounters|].
  split; [exact Hop|]. split; [|reflexivity].
  exact (proj1 (proj2 counters_stay_ahead) _ _ odd_manager_ids_below Hcounters Hop).
Defined.



(** *** Listing in ascending order *)

#[local] Instance numId_le_total : Total numId_le.
Proof. intros a b. unfold numId_le. lia. Qed.

#[local] Instance numId_le_trans : Transitive numId_le.
Proof. intros a b c. unfold numId_le. lia. Qed.

#[local] Instance abstractNumId_le_total : Total abstractNumId_le.
Proof. intros a b. unfold abstractNumId_le. lia. Qed.

#[local] Instance abstractNumId_le_trans : Transitive abstractNumId_le.
Proof. intros a b c. unfold abstractNumId_le. lia. Qed.

Lemma elem_of_values {V} (m : gmap Z V) (v : V) :
  v ∈ (map_to_list m).*2 <-> exists k, m !! k = Some v.
Proof.
  rewrite list_elem_of_fmap. split.
  - intros [[k v'] [-> Hin]]. apply elem_of_map_to_list in Hin. by exists k.
  - intros [k Hk]. exists (k, v). split; [done | by apply elem_of_map_to_list].
Qed.

Lemma length_values {V} (m : gmap Z V) : length (map_to_list m).*2 = size m.
Proof. rewrite length_fmap. apply length_map_to_list. Qed.

(** X5: getAllInstances and getAllAbstractNumberings return every
    registered instance, or definition, once, in ascending order of
    numId, or abstractNumId. *)
Theorem listings_sorted_and_complete (m : NumberingManager) :
  StronglySorted numId_le (getAllInstances m) /\
  getAllInstances m ≡ₚ (map_to_list (instances m)).*2 /\
  (forall i, i ∈ getAllInstances m <-> exists n, instances m !! n = Some i) /\
  length (getAllInstances m) = size (instances m) /\
  StronglySorted abstractNumId_le (getAllAbstractNumberings m) /\
  getAllAbstractNumberings m ≡ₚ (map_to_list (abstractNumberings m)).*2 /\
  (forall d, d ∈ getAllAbstractNumberings m <->
             exists a, abstractNumberings m !! a = Some d) /\
  length (getAllAbstractNumberings m) = size (abstractNumberings m).
Proof.
  unfold getAllInstances, getAllAbstractNumberings.
  split; [apply StronglySorted_merge_sort; apply _|].
  split; [apply merge_sort_Permutation|].
  split; [intros i; rewrite merge_sort_Permutation; apply elem_of_values|].
  split; [rewrite merge_sort_Permutation; apply length_values|].
  split; [apply StronglySorted_merge_sort; apply _|].
  split; [apply merge_sort_Permutation|].
  split; [intros d; rewrite merge_sort_Permutation; apply elem_of_values|].
  rewrite merge_sort_Permutation; apply length_values.
Qed.

(** *** normalizeAllListIndentation *)

Lemma standard_level_idemp l : standard_level (standard_level l) = standard_level l.
Proof. reflexivity. Qed.

Lemma standardized_idemp d : standardized (standardized d) = standardized d.
Proof.
  unfold standardized, set_levels. cbn [levels abstractNumId name].
  f_equal. rewrite <- list_fmap_compose. apply list_fmap_ext. by intros [].
Qed.

Lemma standardized_in_range d : levels_in_range d -> levels_in_range (standardized d).
Proof.
  unfold levels_in_range, standardized. cbn [set_levels levels].
  intros H. apply Forall_fmap. eapply Forall_impl; [exact H|]. by intros l.
Qed.

(** The state in which the loop runs: the definitions that the
    instances refer to are registered and have their level indexes in
    [0,8]. *)
Definition normalizable (m : NumberingManager) : Prop :=
  references_resolve m /\
  forall a d, abstractNumberings m !! a = Some d -> levels_in_range d.

Lemma normalizeAll_loop_standardizes (todo : list NumberingInstance) :
  forall count m,
    normalizable m ->
    (forall i, i ∈ todo -> instances m !! numId i = Some i) ->
    exists m',
      normalizeAll_loop todo count m = (m', Ok (count + Z.of_nat (length todo))) /\
      instances m' = instances m /\
      nextAbstractNumId m' = nextAbstractNumId m /\
      nextNumId m' = nextNumId m /\
      forall a, abstractNumberings m' !! a =
                if decide (a ∈ inst_abstractNumId <$> todo)
                then standardized <$> abstractNumberings m !! a
                else abstractNumberings m !! a.
Proof.
  induction todo as [|i todo IH]; intros count m [Hres Hrange] Hin.
  - exists m. cbn [normalizeAll_loop length]. unfold ret.
    split; [do 2 f_equal; lia|]. do 3 (split; [done|]).
    intros a. cbn [fmap list_fmap]. by rewrite decide_False by apply not_elem_of_nil.
  - cbn [normalizeAll_loop]. rewrite bind_result.
    assert (Hi : instances m !! numId i = Some i) by (apply Hin; by left).
    destruct (Hres _ _ Hi) as [d Hd].
    rewrite (normalizeListIndentation_standard (numId i) m i d Hi Hd (Hrange _ _ Hd)).
    cbn [fst snd]. fold (standardized d).
    set (m1 := with_abstracts (insert (inst_abstractNumId i) (standardized d)) m).
    destruct (IH (count + 1) m1) as [m' [Hrun [Hinst [Hca [Hci Habs]]]]].
    { split; [by apply store_abstract_preserves|].
      intros a d'. cbn. intros [[_ <-]|[_ Ha]]%lookup_insert_Some.
      - apply standardized_in_range. by apply (Hrange _ _ Hd).
      - by apply (Hrange _ _ Ha). }
    { intros j Hj. cbn. apply Hin. by right. }
    exists m'. rewrite Hrun. split; [do 2 f_equal; cbn [length]; lia|].
    split; [done|]. split; [done|]. split; [done|].
    intros a. rewrite Habs. cbn [fmap list_fmap]. cbn [m1 with_abstracts abstractNumberings].
    destruct (decide (a = inst_abstractNumId i)) as [->|Hne].
    + rewrite lookup_insert_eq, Hd. cbn [fmap option_fmap option_map].
      rewrite standardized_idemp.
      rewrite (decide_True (P := _ ∈ _ :: _)) by by left.
      by destruct (decide _).
    + rewrite lookup_insert_ne by done.
      destruct (decide (a ∈ inst_abstractNumId <$> todo)) as [Ht|Ht].
      * rewrite decide_True; [done | by right].
      * rewrite decide_False; [done|]. intros [?|?]%elem_of_cons; tauto.
Qed.

(** X6: normalizeAllListIndentation, when every instance is registered
    under its own numId and refers to a registered definition, and the
    level indexes of the definitions are in [0,8]: the call returns the
    number of instances; the instances and both counters are as before;
    every definition that some instance refers to has the standard
    indents on all its levels and is otherwise as it was; and the
    definitions that no instance refers to are untouched. *)
Theorem normalizeAllListIndentation_normalizes_all (m : NumberingManager) :
  keyed_by_numId m ->
  references_resolve m ->
  (forall a d, abstractNumberings m !! a = Some d -> levels_in_range d) ->
  exists m',
    normalizeAllListIndentation m = (m', Ok (getInstanceCount m)) /\
    instances m' = instances m /\
    nextAbstractNumId m' = nextAbstractNumId m /\
    nextNumId m' = nextNumId m /\
    (forall a d,
       abstractNumberings m !! a = Some d ->
       (exists n i, instances m !! n = Some i /\ inst_abstractNumId i = a) ->
       abstractNumberings m' !! a = Some (standardized d)) /\
    (forall a,
       ~ (exists n i, instances m !! n = Some i /\ inst_abstractNumId i = a) ->
       abstractNumberings m' !! a = abstractNumberings m !! a).
Proof.
  intros Hkey Hres Hrange.
  assert (Hmem : forall i, i ∈ getAllInstances m <-> exists n, instances m !! n = Some i).
  { intros i. unfold getAllInstances. rewrite merge_sort_Permutation.
    apply elem_of_values. }
  destruct (normalizeAll_loop_standardizes (getAllInstances m) 0 m)
    as [m' [Hrun [Hinst [Hca [Hci Habs]]]]].
  { by split. }
  { intros i [n Hn]%Hmem. by rewrite (Hkey _ _ Hn). }
  exists m'. unfold normalizeAllListIndentation. rewrite Hrun.
  assert (Hlen : length (getAllInstances m) = size (instances m)).
  { unfold getAllInstances. rewrite merge_sort_Permutation. apply length_values. }
  split; [unfold getInstanceCount; do 2 f_equal; lia|].
  split; [done|]. split; [done|]. split; [done|].
  assert (Href : forall a, a ∈ inst_abstractNumId <$> getAllInstances m <->
            exists n i, instances m !! n = Some i /\ inst_abstractNumId i = a).
  { intros a. rewrite list_elem_of_fmap. split.
    - intros [i [-> [n Hn]%Hmem]]. by exists n, i.
    - intros [n [i [Hn <-]]]. exists i. split; [done|]. apply Hmem. by exists n. }
  split.
  - intros a d Hd Hr. rewrite Habs. rewrite decide_True by by apply Href.
    by rewrite Hd.
  - intros a Hr. rewrite Habs. rewrite decide_False; [done|]. by rewrite Href.
Qed.

Lemma normalizeAllListIndentation_normalizes_all_witness :
  keyed_by_numId odd_manager /\
  references_resolve odd_manager /\
  exists m',
    normalizeAllListIndentation odd_manager = (m', Ok 1) /\
    abstractNumberings m' !! 0 =
      Some (mkAbstract 0 None
              [mkLevel 0 "decimal" "%1." 1 720 360;
               mkLevel 1 "lowerLetter" "%2." 1 1440 360]).
Proof.
  assert (Hinst : forall n i, instances odd_manager !! n = Some i ->
            n = 1 /\ i = mkInstance 1 0 []).
  { intros n i Hn. destruct (decide (n = 1)) as [->|Hne].
    - split; [done|]. by injection Hn as <-.
    - exfalso. change (instances odd_manager) with
        (<[1 := mkInstance 1 0 []]> (∅ : gmap Z NumberingInstance)) in Hn.
      rewrite lookup_insert_ne in Hn by done. by rewrite lookup_empty in Hn. }
  assert (Habs : forall a d, abstractNumberings odd_manager !! a = Some d ->
            a = 0 /\ d = mkAbstract 0 None odd_levels).
  { intros a d Ha. destruct (decide (a = 0)) as [->|Hne].
    - split; [done|]. by injection Ha as <-.
    - exfalso. change (abstractNumberings odd_manager) with
        (<[0 := mkAbstract 0 None odd_levels]> (∅ : gmap Z AbstractNumbering)) in Ha.
      rewrite lookup_insert_ne in Ha by done. by rewrite lookup_empty in Ha. }
  assert (Hkey : keyed_by_numId odd_manager).
  { intros n i Hn. by destruct (Hinst n i Hn) as [-> ->]. }
  assert (Hres : references_resolve odd_manager).
  { intros n i Hn. destruct (Hinst n i Hn) as [-> ->]. by eexists. }
  assert (Hrange : forall a d, abstractNumberings odd_manager !! a = Some d ->
            levels_in_range d).
  { intros a d Ha. destruct (Habs a d Ha) as [-> ->]. repeat constructor; cbn; lia. }
  split; [exact Hkey|]. split; [exact Hres|].
  destruct (normalizeAllListIndentation_normalizes_all odd_manager Hkey Hres Hrange)
    as [m' [Hrun [_ [_ [_ [Hstd _]]]]]].
  exists m'. split; [exact Hrun|].
  apply (Hstd 0 (mkAbstract 0 None odd_levels) eq_refl).
  by exists 1, (mkInstance 1 0 []).
Defined.

End NumberingListsTheory.

(** ** CommentManager: threads *)

Module CommentThreads.
Import Comments.

(** getCommentThread: a top-level comment with its replies. *)
Definition getCommentThread (n : Z) (m : CommentManager)
  : option (Comment * list Comment) :=
  match comments m !! n with
  | Some entry =>
      if isReply (comment entry) then None
      else Some (comment entry, replies entry)
  | None => None
  end.

End CommentThreads.

Module CommentThreadsTheory.
Import Comments CommentThreads CommentsTheory.

(** X7: removeComment(id) for a registered id removes from the store
    exactly that comment and the comments of its reply list; every other
    comment, a reply to one of the removed replies included, stays with
    its entry as it was, reply list included, and the counter is as
    before; the call returns true when no comment of the reply list
    carries the id itself. *)
Theorem removeComment_removes_exactly (n : Z) (m : CommentManager) (entry : CommentEntry) :
  comments m !! n = Some entry ->
  (forall k, comments (removeComment n m).1 !! k =
             if decide (k = n \/ k ∈ getId <$> replies entry) then None
             else comments m !! k) /\
  nextId (removeComment n m).1 = nextId m /\
  (n ∉ getId <$> replies entry -> (removeComment n m).2 = Ok true).
Proof.
  intros Hn. split; [intros k; by apply removeComment_store|].
  split; [unfold removeComment; by rewrite Hn|].
  by apply removeComment_registered.
Qed.

(** A thread of three: comment 0, its reply 1, and comment 2 that
    replies to the reply. *)
Definition nested_thread : CommentManager :=
  (createReply 3000 1 "Cy" "Agreed" "C"
     (createReply 2000 0 "Bob" "Done" "B" one_comment).1).1.

Lemma removeComment_removes_exactly_witness :
  comments nested_thread !! 0 =
    Some (mkEntry (mkComment 0 "Ann" "A" 1000 "Please check" None)
            [mkComment 1 "Bob" "B" 2000 "Done" (Some 0)]) /\
  (removeComment 0 nested_thread).2 = Ok true /\
  comments (removeComment 0 nested_thread).1 !! 1 = None /\
  comments (removeComment 0 nested_thread).1 !! 2 =
    Some (mkEntry (mkComment 2 "Cy" "C" 3000 "Agreed" (Some 1)) []).
Proof.
  assert (H : comments nested_thread !! 0 =
    Some (mkEntry (mkComment 0 "Ann" "A" 1000 "Please check" None)
            [mkComment 1 "Bob" "B" 2000 "Done" (Some 0)])) by reflexivity.
  split; [exact H|].
  destruct (removeComment_removes_exactly 0 nested_thread _ H) as [Hk [_ Hret]].
  split.
  { apply Hret. cbn.
    intros [Heq|Hnil]%elem_of_cons; [discriminate | by apply elem_of_nil in Hnil]. }
  split; [by rewrite Hk | by rewrite Hk].
Defined.

(** Removing the reply leaves it in the reply list of its parent. *)
Example removed_reply_stays_listed :
  comments (removeComment 1 nested_thread).1 !! 1 = None /\
  getReplies 0 (removeComment 1 nested_thread).1 =
    [mkComment 1 "Bob" "B" 2000 "Done" (Some 0)] /\
  hasReplies 0 (removeComment 1 nested_thread).1 = true.
Proof. repeat split; reflexivity. Qed.

(** *** register *)

Lemma register_store c m :
  let c' := setId (nextId m) c in
  let stored := <[nextId m := mkEntry c' []]> (comments m) in
  comments (register c m).1 =
    match parentId c with
    | Some p =>
        match stored !! p with
        | Some parentEntry =>
            <[p := mkEntry (comment parentEntry) (replies parentEntry ++ [c'])]> stored
        | None => stored
        end
    | None => stored
    end.
Proof.
  unfold register. cbn [fst comments].
  change (getId (setId (nextId m) c)) with (nextId m).
  change (getParentId (setId (nextId m) c)) with (parentId c).
  unfold isReply. change (parentId (setId (nextId m) c)) with (parentId c).
  by destruct (parentId c).
Qed.

(** register on the values of the comments, for a Comment object that
    is registered for the first time, when the ids of the store were
    minted by the counter: the comment it returns is the one given with
    the id of the counter; the counter advances by one and the store
    gains exactly one comment; every comment already stored keeps its
    entry, but for the parent, whose reply list gains the comment; and
    a reply whose parent is not registered is stored with no
    threading. *)
Lemma register_value_adds_one (c : Comment) (m : CommentManager) :
  ids_minted m ->
  let c' := setId (nextId m) c in
  (register c m).2 = Ok c' /\
  nextId (register c m).1 = nextId m + 1 /\
  size (comments (register c m).1) = S (size (comments m)) /\
  (forall k, k <> nextId m -> parentId c <> Some k ->
             comments (register c m).1 !! k = comments m !! k) /\
  (forall p parentEntry,
     parentId c = Some p -> comments m !! p = Some parentEntry ->
     comments (register c m).1 !! p =
       Some (mkEntry (comment parentEntry) (replies parentEntry ++ [c'])) /\
     comments (register c m).1 !! nextId m = Some (mkEntry c' [])) /\
  (forall p,
     parentId c = Some p -> comments m !! p = None -> p <> nextId m ->
     comments (register c m).1 = <[nextId m := mkEntry c' []]> (comments m)).
Proof.
  intros Hm c'. pose proof (ids_minted_fresh m Hm) as Hfresh.
  pose proof (register_store c m) as Hstore. cbn zeta in Hstore. fold c' in Hstore.
  assert (Hsize : size (<[nextId m := mkEntry c' []]> (comments m))
                  = S (size (comments m)))
    by by apply map_size_insert_None.
  split; [done|]. split; [done|]. split; [|split; [|split]].
  - rewrite Hstore. destruct (parentId c) as [p|]; [|exact Hsize].
    destruct (<[nextId m := mkEntry c' []]> (comments m) !! p) as [pe|] eqn:Hp;
      [|exact Hsize].
    rewrite map_size_insert_Some; [exact Hsize | eauto].
  - intros k Hk Hpk. rewrite Hstore.
    destruct (parentId c) as [p|].
    + assert (p <> k) by congruence.
      destruct (<[nextId m := mkEntry c' []]> (comments m) !! p) as [pe|].
      * rewrite lookup_insert_ne by done. by rewrite lookup_insert_ne.
      * by rewrite lookup_insert_ne.
    + by rewrite lookup_insert_ne.
  - intros p pe Hp Hpe. rewrite Hstore, Hp.
    assert (Hne : nextId m <> p) by (intros <-; congruence).
    rewrite lookup_insert_ne, Hpe by done.
    split; [apply lookup_insert_eq|].
    rewrite lookup_insert_ne by done. apply lookup_insert_eq.
  - intros p Hp Hnone Hne. rewrite Hstore, Hp.
    rewrite lookup_insert_ne by done. by rewrite Hnone.
Qed.

Lemma nested_thread_ids_minted : ids_minted nested_thread.
Proof.
  apply reachable_ids_minted.
  apply (reachable_run (OpCreateReply 3000 1 "Cy" "Agreed" "C")).
  apply (reachable_run (OpCreateReply 2000 0 "Bob" "Done" "B")).
  apply reachable_run, reachable_create.
Qed.

(** X9: after createReply(parentId, ...) on a registered parent, in a
    store whose ids were minted by the counter, getComment of the new id
    is the reply; getReplies of the parent is its former list followed
    by the reply, and hasReplies of the parent is true; getCommentThread
    of the new id is undefined, the reply not being a top-level comment;
    and getCommentThread of a parent that is a top-level comment is the
    parent with that list. *)
Theorem createReply_then_queries (now parentId : Z)
  (author content initials : string) (m : CommentManager) (parentEntry : CommentEntry) :
  ids_minted m ->
  comments m !! parentId = Some parentEntry ->
  let reply := setId (nextId m)
                 (Comment_createReply now parentId author content initials) in
  let m' := (createReply now parentId author content initials m).1 in
  getComment (nextId m) m' = Some reply /\
  getComment parentId m' = Some (comment parentEntry) /\
  getReplies parentId m' = replies parentEntry ++ [reply] /\
  getReplies (nextId m) m' = [] /\
  hasReplies parentId m' = true /\
  getCommentThread (nextId m) m' = None /\
  (isReply (comment parentEntry) = false ->
   getCommentThread parentId m' =
     Some (comment parentEntry, replies parentEntry ++ [reply])).
Proof.
  intros Hm Hp reply m'.
  assert (Hne : nextId m <> parentId).
  { intros Heq. specialize (Hm _ _ Hp). lia. }
  assert (Hstore : comments m' =
            <[parentId := mkEntry (comment parentEntry) (replies parentEntry ++ [reply])]>
              (<[nextId m := mkEntry reply []]> (comments m))).
  { unfold m', createReply. rewrite (proj2 (has_true parentId m)) by eauto.
    cbn [negb]. rewrite register_store. cbn zeta. fold reply.
    change (Comments.parentId (Comment_createReply now parentId author content initials))
      with (Some parentId).
    cbv iota beta. by rewrite lookup_insert_ne, Hp. }
  assert (Hnew : comments m' !! nextId m = Some (mkEntry reply [])).
  { rewrite Hstore, lookup_insert_ne by done. apply lookup_insert_eq. }
  assert (Hpar : comments m' !! parentId =
            Some (mkEntry (comment parentEntry) (replies parentEntry ++ [reply]))).
  { rewrite Hstore. apply lookup_insert_eq. }
  unfold getComment, getReplies, hasReplies, getCommentThread.
  rewrite Hnew, Hpar. cbn [fmap option_fmap option_map comment replies].
  split; [done|]. split; [done|]. split; [done|]. split; [done|].
  split; [|split; [done|by intros ->]].
  apply bool_decide_eq_true_2. rewrite length_app. cbn. lia.
Qed.

Lemma createReply_then_queries_witness :
  ids_minted one_comment /\
  getReplies 0 (createReply 2000 0 "Bob" "Done" "B" one_comment).1 =
    [mkComment 1 "Bob" "B" 2000 "Done" (Some 0)] /\
  getCommentThread 1 (createReply 2000 0 "Bob" "Done" "B" one_comment).1 = None.
Proof.
  assert (H : ids_minted one_comment).
  { apply reachable_ids_minted, reachable_run, reachable_create. }
  split; [exact H|].
  destruct (createReply_then_queries 2000 0 "Bob" "Done" "B" one_comment
              (mkEntry (mkComment 0 "Ann" "A" 1000 "Please check" None) [])
              H eq_refl) as [_ [_ [Hrep [_ [_ [Hthread _]]]]]].
  split; [exact Hrep | exact Hthread].
Defined.

End CommentThreadsTheory.

(** ** ImageManager: filenames, release and reload *)

Module ImageStore.
Import Images.

Local Open Scope string_scope.

(** getRelationshipId *)
Definition getRelationshipId (i : ImageRef) (w : World) : option string :=
  relationshipId <$> map_get i (images (manager w)).

(** The template literal [`image${n}.${extension}`] of registerImage. *)
Definition image_filename (n : Z) (extension : string) : string :=
  "image" ++ string_of_Z n ++ "." ++ extension.

(** releaseAllImageData: [releaseData] on the image of every entry. *)
Definition releaseAllImageData (w : World) : World :=
  mkWorld
    (foldl (fun h entry => heap_update h (image entry) releaseData)
       (heap w) (map_values (images (manager w))))
    (manager w).

(** *** The regular expression [/image(\d+)\./] *)

(** [\d] *)
Definition is_digit (c : ascii) : bool :=
  (48 <=? N_of_ascii c)%N && (N_of_ascii c <=? 57)%N.

(** The longest run of digits at the head of a string, and what follows. *)
Fixpoint span_digits (s : string) : string * string :=
  match s with
  | EmptyString => (EmptyString, EmptyString)
  | String c rest =>
      if is_digit c
      then let '(digits, tail) := span_digits rest in (String c digits, tail)
      else (EmptyString, s)
  end.

Fixpoint strip_prefix (p s : string) : option string :=
  match p, s with
  | EmptyString, _ => Some s
  | String a p', String b s' => if Ascii.eqb a b then strip_prefix p' s' else None
  | String _ _, EmptyString => None
  end.

(** A match of the expression that starts at the head of the string:
    its group.  The digits are matched greedily, and giving one back
    cannot help, since a digit is not a dot. *)
Definition match_at_head (s : string) : option string :=
  match strip_prefix "image" s with
  | Some after =>
      match span_digits after with
      | (String d ds, String "." _) => Some (String d ds)
      | _ => None
      end
  | None => None
  end.

(** [filename.match(/image(\d+)\./)]: the group of the leftmost match. *)
Fixpoint match_image_number (s : string) : option string :=
  match match_at_head s with
  | Some group => Some group
  | None =>
      match s with
      | EmptyString => None
      | String _ rest => match_image_number rest
      end
  end.

(** The integer that a string of digits spells. *)
Definition digits_value (digits : string) : Z :=
  match NilEmpty.uint_of_string digits with
  | Some u => Z.of_uint u
  | None => 0%Z
  end.

(** [parseInt(digits, 10)] on a string of digits: the double nearest to
    the integer that the digits spell. *)
Definition parseInt (digits : string) : Z := to_number (digits_value digits).

(** initializeFromLoadedImages *)
Definition initializeFromLoadedImages (w : World) : World :=
  let m := manager w in
  let maxNumber :=
    foldl (fun maxNumber entry =>
             match match_image_number (filename entry) with
             | Some group =>
                 let num := parseInt group in
                 if (maxNumber <? num)%Z then num else maxNumber
             | None => maxNumber
             end) 0%Z (map_values (images m)) in
  mkWorld (heap w)
    (mkManager (images m) (imagesByRelId m) (js_succ maxNumber) (nextDocPrId m)
       (maxImageCount m) (maxTotalImageSizeBytes m) (maxSingleImageSizeBytes m)).

(** What a load makes of an image object: bytes that are in memory
    stay, bytes that can be read come in, and a failed read changes
    nothing. *)
Definition after_load (source : ImageRef -> result Error Z) (r : ImageRef)
  (o : Image) : Image :=
  match imageData o with
  | Some _ => o
  | None =>
      match source r with
      | Ok bytes => setImageData (Some bytes) o
      | Throw _ => o
      end
  end.

(** Every filename of the image map was minted from a number below the
    counter. *)
Definition filenames_minted (w : World) : Prop :=
  forall e, e ∈ map_values (images (manager w)) ->
    exists n extension,
      filename e = image_filename n extension /\
      (0 <= n < nextImageNumber (manager w))%Z.

End ImageStore.

Module ImageStoreTheory.
Import NumbersTheory.
Import Images ImageStore ImagesTheory.

(** *** What a registerImage call leaves *)

Lemma size_checks_throws i w e :
  size_checks i w = Throw e ->
  e = ImageDataNotLoaded \/ is_capacity_error e = true /\ remediation e <> [].
Proof.
  unfold size_checks, getImageData.
  destruct (imageData (heap w i)) as [bytes|]; [|intros [= <-]; by left].
  destruct (maxSingleImageSizeBytes (manager w) <? bytes); [intros [= <-]; by right|].
  destruct (maxTotalImageSizeBytes (manager w) <? getTotalSize w + bytes);
    [intros [= <-]; by right | done].
Qed.

(** X10: a registerImage call that throws leaves the objects and the
    manager exactly as they were, and what it throws is a capacity
    error (the count, single-size or total-size error) that carries
    remediation lines; an image whose bytes are not in memory never
    makes it throw a size error. *)
Theorem registerImage_throws_atomically
  (i : ImageRef) (k : string) (w w' : World) (err : Error) :
  registerImage i k w = (w', Throw err) ->
  w' = w /\
  is_capacity_error err = true /\
  remediation err <> [] /\
  (imageData (heap w i) = None -> err = MaxImageCountExceeded (maxImageCount (manager w))).
Proof.
  unfold registerImage.
  destruct (imagesByRelId (manager w) !! k) as [e0|]; [done|].
  destruct (map_get i (images (manager w))) as [e1|]; [done|].
  destruct (maxImageCount (manager w) <=? map_size (images (manager w))).
  { intros [= <- <-]. by repeat split. }
  destruct (size_checks i w) as [[]|e] eqn:Hchk; cbv zeta; [done|].
  destruct (message_includes_not_loaded e) eqn:Hmsg; cbn [negb]; [done|].
  intros [= <- <-].
  destruct (size_checks_throws i w e Hchk) as [->|[Hcap Hrem]]; [done|].
  split; [done|]. split; [done|]. split; [done|].
  intros Hnone. unfold size_checks, getImageData in Hchk. rewrite Hnone in Hchk.
  injection Hchk as <-. done.
Qed.

Lemma registerImage_throws_atomically_witness :
  registerImage image1 "rId1" large_image_world =
    (large_image_world, Throw (SingleImageSizeExceeded 31457280 20971520)) /\
  large_image_world = large_image_world /\
  is_capacity_error (SingleImageSizeExceeded 31457280 20971520) = true.
Proof.
  assert (H : registerImage image1 "rId1" large_image_world =
    (large_image_world, Throw (SingleImageSizeExceeded 31457280 20971520)))
    by reflexivity.
  split; [exact H|].
  destruct (registerImage_throws_atomically _ _ _ _ _ H) as [Hw [Hcap _]].
  split; [exact Hw | exact Hcap].
Defined.

(** X11: whenever registerImage(image, relationshipId) returns a
    filename, by whichever of its three paths, the image object is a key
    of the manager afterwards and getFilename(image) is that filename. *)
Theorem registerImage_then_getFilename
  (i : ImageRef) (k : string) (w : World) (f : string) :
  (registerImage i k w).2 = Ok f ->
  hasImage i (registerImage i k w).1 = true /\
  getFilename i (registerImage i k w).1 = Some f.
Proof.
  unfold registerImage, hasImage, getFilename, map_has.
  destruct (imagesByRelId (manager w) !! k) as [e0|].
  { cbn [fst snd manager images]. intros [= <-]. by rewrite map_get_set_eq. }
  destruct (map_get i (images (manager w))) as [e1|] eqn:Hget.
  { cbn [fst snd]. intros [= <-]. by rewrite Hget. }
  destruct (maxImageCount (manager w) <=? map_size (images (manager w))); [done|].
  destruct (size_checks i w) as [[]|e]; cbv zeta;
    [|destruct (negb (message_includes_not_loaded e)); [done|]];
    cbn [fst snd manager images]; intros [= <-]; by rewrite map_get_set_eq.
Qed.

Lemma registerImage_then_getFilename_witness :
  (registerImage image2 "rId1" (registerImage image1 "rId1" new_world).1).2
    = Ok "image1.png"%string /\
  getFilename image2
    (registerImage image2 "rId1" (registerImage image1 "rId1" new_world).1).1
    = Some "image1.png"%string.
Proof.
  assert (H : (registerImage image2 "rId1"
                 (registerImage image1 "rId1" new_world).1).2
              = Ok "image1.png"%string) by reflexivity.
  split; [exact H|].
  exact (proj2 (registerImage_then_getFilename _ _ _ _ H)).
Defined.

(** X12: registerImage of an Image object that the manager does not
    track, under a relationship key that is not recorded, while the
    manager holds fewer than maxImageCount images: if the bytes of the
    image are not in memory no size is checked, and if they are and
    neither they alone nor they with the bytes of the loaded images
    exceed the limits, the call succeeds too.  It returns
    `image<N>.<ext>` with N the filename counter and ext the extension
    of the image, stores one entry under the object and under the key,
    writes the docPr id and the relationship id into the object, and
    advances both counters and the image count by one. *)
Theorem registerImage_mints
  (i : ImageRef) (k : string) (w : World) :
  imagesByRelId (manager w) !! k = None ->
  hasImage i w = false ->
  getImageCount w < maxImageCount (manager w) ->
  (imageData (heap w i) = None \/
   exists bytes, imageData (heap w i) = Some bytes /\
                 bytes <= maxSingleImageSizeBytes (manager w) /\
                 getTotalSize w + bytes <= maxTotalImageSizeBytes (manager w)) ->
  let m := manager w in
  let f := image_filename (nextImageNumber m) (extension (heap w i)) in
  let entry := mkEntry i f k (nextDocPrId m) in
  registerImage i k w =
    (mkWorld
       (heap_update (heap w) i
          (fun o => setRelationshipId k (setDocPrId (nextDocPrId m) o)))
       (mkManager (map_set i entry (images m)) (<[k := entry]> (imagesByRelId m))
          (nextImageNumber m + 1) (nextDocPrId m + 1)
          (maxImageCount m) (maxTotalImageSizeBytes m) (maxSingleImageSizeBytes m)),
     Ok f) /\
  getImageCount (registerImage i k w).1 = getImageCount w + 1 /\
  getRelationshipId i (registerImage i k w).1 = Some k.
Proof.
  intros Hk Hi Hcount Hsize m f entry. unfold hasImage, map_has in Hi.
  destruct (map_get i (images (manager w))) as [e|] eqn:Hget; [done|].
  assert (Hcall : registerImage i k w =
    (mkWorld
       (heap_update (heap w) i
          (fun o => setRelationshipId k (setDocPrId (nextDocPrId m) o)))
       (mkManager (map_set i entry (images m)) (<[k := entry]> (imagesByRelId m))
          (nextImageNumber m + 1) (nextDocPrId m + 1)
          (maxImageCount m) (maxTotalImageSizeBytes m) (maxSingleImageSizeBytes m)),
     Ok f)).
  { subst entry f m. unfold registerImage, getImageCount in *. cbv zeta.
    rewrite Hk, Hget.
    destruct (Z.leb_spec (maxImageCount (manager w)) (map_size (images (manager w))));
      [lia|].
    assert (Hchk : match size_checks i w with
                   | Throw e => if negb (message_includes_not_loaded e)
                                then Some e else None
                   | Ok _ => None
                   end = None).
    { unfold size_checks, getImageData.
      destruct Hsize as [->|[bytes [-> [Hb Ht]]]]; [done|].
      destruct (Z.ltb_spec (maxSingleImageSizeBytes (manager w)) bytes); [lia|].
      by destruct (Z.ltb_spec (maxTotalImageSizeBytes (manager w))
                     (getTotalSize w + bytes)); [lia|]. }
    rewrite Hchk. reflexivity. }
  split; [exact Hcall|]. rewrite Hcall. cbn [fst]. split.
  - unfold getImageCount. cbn [manager images]. rewrite map_size_set.
    unfold map_has, m. by rewrite Hget.
  - unfold getRelationshipId. cbn [manager images]. by rewrite map_get_set_eq.
Qed.

Lemma registerImage_mints_witness :
  imagesByRelId (manager new_world) !! "rId1"%string = None /\
  hasImage image1 new_world = false /\
  getImageCount new_world < maxImageCount (manager new_world) /\
  (registerImage image1 "rId1" new_world).2 = Ok "image1.png"%string /\
  getImageCount (registerImage image1 "rId1" new_world).1 = 1.
Proof.
  split; [reflexivity|]. split; [reflexivity|]. split; [reflexivity|].
  destruct (registerImage_mints image1 "rId1" new_world eq_refl eq_refl eq_refl
              (or_introl eq_refl)) as [Hcall [Hcount _]].
  split; [by rewrite Hcall | exact Hcount].
Defined.

(** *** Filenames *)

Local Open Scope string_scope.

Definition all_digits (s : string) : Prop :=
  forall c, In c (list_ascii_of_string s) -> is_digit c = true.

Lemma all_digits_uint (u : Decimal.uint) : all_digits (NilEmpty.string_of_uint u).
Proof.
  induction u; intros c; cbn; try tauto;
    (intros [<-|Hin]; [reflexivity | by apply IHu]).
Qed.

Lemma span_digits_run (digits rest : string) :
  all_digits digits ->
  span_digits (digits ++ String "." rest) = (digits, String "." rest).
Proof.
  induction digits as [|c digits IH]; intros Hd; [reflexivity|].
  simpl. rewrite (Hd c) by (cbn; by left).
  rewrite IH; [done|]. intros c' Hc'. apply Hd. cbn. by right.
Qed.

(** The decimal numeral of a number that is not negative. *)
Lemma string_of_Z_numeral (n : Z) :
  (0 <= n)%Z ->
  exists u, string_of_Z n = NilEmpty.string_of_uint u /\
            u <> Decimal.Nil /\ Z.of_uint u = n.
Proof.
  intros Hn. unfold string_of_Z, Z.to_int. destruct n as [|p|p]; [| |lia].
  - by exists (Decimal.D0 Decimal.Nil).
  - exists (Pos.to_uint p).
    pose proof (DecimalPos.Unsigned.to_uint_nonnil p) as Hnil.
    split; [cbn; by destruct (Pos.to_uint p)|]. split; [done|].
    change (Z.of_int (Z.to_int (Z.pos p)) = Z.pos p). apply DecimalZ.of_to.
Qed.

Lemma strip_image_prefix (s : string) :
  strip_prefix "image" ("image" ++ s) = Some s.
Proof. reflexivity. Qed.

Lemma match_minted_filename (n : Z) (extension : string) :
  (0 <= n)%Z ->
  match_image_number (image_filename n extension) = Some (string_of_Z n) /\
  digits_value (string_of_Z n) = n.
Proof.
  intros Hn. destruct (string_of_Z_numeral n Hn) as [u [Hu [Hnil Hval]]].
  split.
  - unfold image_filename.
    assert (Hhead : match_at_head ("image" ++ string_of_Z n ++ "." ++ extension)
                    = Some (string_of_Z n)).
    { unfold match_at_head. rewrite strip_image_prefix.
      change ("." ++ extension) with (String "." extension).
      rewrite span_digits_run by (rewrite Hu; apply all_digits_uint).
      rewrite Hu. destruct u; try done. }
    change ("image" ++ string_of_Z n ++ "." ++ extension)
      with (String "i" ("mage" ++ string_of_Z n ++ "." ++ extension)) in *.
    cbn [match_image_number]. by rewrite Hhead.
  - unfold digits_value. by rewrite Hu, NilEmpty.usu.
Qed.

(** A number that is a safe integer is read as it is. *)
Lemma parseInt_minted (n : Z) :
  (0 <= n <= MAX_SAFE_INTEGER)%Z -> parseInt (string_of_Z n) = n.
Proof.
  intros Hn. unfold parseInt.
  rewrite (proj2 (match_minted_filename n EmptyString ltac:(lia))).
  apply to_number_exact. lia.
Qed.

Lemma image_filename_number_inj (n n' : Z) (e e' : string) :
  (0 <= n)%Z -> (0 <= n')%Z ->
  image_filename n e = image_filename n' e' -> n = n'.
Proof.
  intros Hn Hn' Heq.
  destruct (match_minted_filename n e Hn) as [Hm Hp].
  destruct (match_minted_filename n' e' Hn') as [Hm' Hp'].
  rewrite Heq, Hm' in Hm. injection Hm as Hs. by rewrite <- Hp, <- Hp', Hs.
Qed.

Lemma elem_of_values_set (i : ImageRef) (e x : ImageEntry) (m : ImageMap) :
  x ∈ map_values (map_set i e m) -> x = e \/ x ∈ map_values m.
Proof.
  unfold map_values. induction m as [|[k v] m IH]; cbn [map_set].
  - cbn. intros [->|[]%elem_of_nil]%elem_of_cons. by left.
  - destruct (Nat.eqb k i); cbn [fmap list_fmap snd].
    + intros [->|Hin]%elem_of_cons; [by left | right; by right].
    + intros [->|Hin]%elem_of_cons; [right; by left|].
      destruct (IH Hin) as [->|Hx]; [by left | right; by right].
Qed.

Lemma elem_of_values_get (i : ImageRef) (e : ImageEntry) (m : ImageMap) :
  map_get i m = Some e -> e ∈ map_values m.
Proof.
  unfold map_values. induction m as [|[k v] m IH]; [done|].
  cbn [map_get fmap list_fmap snd]. destruct (Nat.eqb k i).
  - intros [= ->]. by left.
  - intros H. right. by apply IH.
Qed.


Local Open Scope Z_scope.

(** An entry whose filename was minted from a number below the
    counter of the manager. *)
Definition minted_below (w : World) (e : ImageEntry) : Prop :=
  exists n extension,
    filename e = image_filename n extension /\
    0 <= n < nextImageNumber (manager w).

(** The filenames of both maps were minted below the counter. *)
Definition all_minted (w : World) : Prop :=
  0 <= nextImageNumber (manager w) /\
  (forall e, e ∈ map_values (images (manager w)) -> minted_below w e) /\
  (forall k e, imagesByRelId (manager w) !! k = Some e -> minted_below w e).

Lemma new_manager_all_minted h options : all_minted (mkWorld h (new_manager options)).
Proof.
  split; [cbn; lia|]. split.
  - intros e He. by apply elem_of_nil in He.
  - intros k e He. cbn in He. by rewrite lookup_empty in He.
Qed.

Lemma registerImage_all_minted i k w :
  all_minted w -> all_minted (registerImage i k w).1.
Proof.
  intros (H0 & Himg & Hidx). unfold registerImage.
  destruct (imagesByRelId (manager w) !! k) as [e0|] eqn:Hk.
  { split; [done|]. split; [|exact Hidx].
    intros e [->|He]%elem_of_values_set; [by apply (Hidx k) | by apply Himg]. }
  destruct (map_get i (images (manager w))) as [e1|]; [done|].
  destruct (maxImageCount (manager w) <=? map_size (images (manager w))); [done|].
  assert (Hold : forall e, minted_below w e ->
            exists n extension,
              filename e = image_filename n extension /\
              0 <= n < nextImageNumber (manager w) + 1).
  { intros e (n & ext & Hf & Hn). exists n, ext. split; [done | lia]. }
  assert (Hmint : forall (h : Heap),
    all_minted
      (mkWorld h
         (mkManager
            (map_set i (mkEntry i (image_filename (nextImageNumber (manager w))
                                     (getExtension (heap w i))) k
                          (nextDocPrId (manager w))) (images (manager w)))
            (<[k := mkEntry i (image_filename (nextImageNumber (manager w))
                                 (getExtension (heap w i))) k
                      (nextDocPrId (manager w))]> (imagesByRelId (manager w)))
            (nextImageNumber (manager w) + 1) (nextDocPrId (manager w) + 1)
            (maxImageCount (manager w)) (maxTotalImageSizeBytes (manager w))
            (maxSingleImageSizeBytes (manager w))))).
  { intros h. split; [cbn; lia|]. split.
    - cbn [manager images]. intros e [->|He]%elem_of_values_set.
      + eexists _, _. split; [reflexivity|]. cbn. lia.
      + by apply Hold, Himg.
    - cbn [manager imagesByRelId].
      intros k' e [[_ <-]|[_ He]]%lookup_insert_Some.
      + eexists _, _. split; [reflexivity|]. cbn. lia.
      + by apply Hold, (Hidx k'). }
  destruct (size_checks i w) as [[]|err]; cbv zeta;
    [|destruct (negb (message_includes_not_loaded err)); [done|]]; apply Hmint.
Qed.

(** X13: when the filenames of the manager were minted from numbers
    below the filename counter, as they are in a new manager, every
    registerImage call keeps them so; and a call that mints (new object,
    new key) returns a filename that no entry of the manager has, neither
    in the image map nor in the index by relationship id. *)
Theorem registerImage_filename_is_new
  (i : ImageRef) (k : string) (w : World) (f : string) :
  all_minted w ->
  all_minted (registerImage i k w).1 /\
  (imagesByRelId (manager w) !! k = None ->
   hasImage i w = false ->
   (registerImage i k w).2 = Ok f ->
   (forall e, e ∈ map_values (images (manager w)) -> filename e <> f) /\
   (forall k' e, imagesByRelId (manager w) !! k' = Some e -> filename e <> f)).
Proof.
  intros Hw. split; [by apply registerImage_all_minted|].
  intros Hk Hi Hret. destruct Hw as (H0 & Himg & Hidx).
  assert (Hf : f = image_filename (nextImageNumber (manager w))
                     (getExtension (heap w i))).
  { revert Hret. unfold registerImage, hasImage, map_has in *. rewrite Hk.
    destruct (map_get i (images (manager w))); [done|].
    destruct (maxImageCount (manager w) <=? map_size (images (manager w))); [done|].
    destruct (size_checks i w) as [[]|err]; cbv zeta;
      [|destruct (negb (message_includes_not_loaded err)); [done|]];
      by intros [= <-]. }
  assert (Hnew : forall e, minted_below w e -> filename e <> f).
  { intros e (n & ext & Hfe & Hn) Heq. rewrite Hfe, Hf in Heq.
    apply image_filename_number_inj in Heq; lia. }
  split; [intros e He; by apply Hnew, Himg | intros k' e He; by apply Hnew, (Hidx k')].
Qed.

Lemma registerImage_filename_is_new_witness :
  all_minted (registerImage image1 "rId1" new_world).1 /\
  (registerImage image2 "rId2" (registerImage image1 "rId1" new_world).1).2
    = Ok "image2.png"%string /\
  (forall e, e ∈ map_values (images (manager (registerImage image1 "rId1" new_world).1)) ->
             filename e <> "image2.png"%string).
Proof.
  assert (H : all_minted (registerImage image1 "rId1" new_world).1).
  { apply registerImage_all_minted, new_manager_all_minted. }
  split; [exact H|]. split; [reflexivity|].
  apply (proj2 (registerImage_filename_is_new image2 "rId2" _ "image2.png" H)
           eq_refl eq_refl eq_refl).
Defined.

(** *** initializeFromLoadedImages *)

(** The loop that looks for the largest number in the filenames. *)
Definition max_number_step (maxNumber : Z) (entry : ImageEntry) : Z :=
  match match_image_number (filename entry) with
  | Some group =>
      let num := parseInt group in
      if maxNumber <? num then num else maxNumber
  | None => maxNumber
  end.

Lemma max_number_step_minted maxNumber e n extension :
  filename e = image_filename n extension -> 0 <= n <= MAX_SAFE_INTEGER ->
  max_number_step maxNumber e = Z.max maxNumber n.
Proof.
  intros Hf Hn. unfold max_number_step. rewrite Hf.
  destruct (match_minted_filename n extension ltac:(lia)) as [-> _]. cbv zeta.
  rewrite (parseInt_minted n Hn).
  destruct (Z.ltb_spec maxNumber n); lia.
Qed.

Lemma max_number_fold (entries : list ImageEntry) (start : Z) :
  (forall e, e ∈ entries ->
     exists n extension,
       filename e = image_filename n extension /\ 0 <= n <= MAX_SAFE_INTEGER) ->
  let result := foldl max_number_step start entries in
  start <= result /\
  (forall e n extension, e ∈ entries ->
     filename e = image_filename n extension -> 0 <= n -> n <= result) /\
  (result = start \/
   exists e n extension, e ∈ entries /\
     filename e = image_filename n extension /\ 0 <= n <= MAX_SAFE_INTEGER /\
     result = n).
Proof.
  revert start. induction entries as [|e entries IH]; intros start Hall; cbn [foldl].
  - split; [lia|]. split; [|by left]. intros e n ext He. by apply elem_of_nil in He.
  - destruct (Hall e) as (n & ext & Hf & Hn); [by left|].
    rewrite (max_number_step_minted start e n ext Hf Hn).
    destruct (IH (Z.max start n)) as (Hle & Hall' & Hex).
    { intros e' He'. apply Hall. by right. }
    cbv zeta in *. split; [lia|]. split.
    + intros e' n' ext' [->|He']%elem_of_cons Hf' Hn'.
      * rewrite Hf in Hf'. apply image_filename_number_inj in Hf'; [lia | lia | done].
      * by apply (Hall' e' n' ext').
    + destruct Hex as [Heq|(e' & n' & ext' & He' & Hf' & Hn' & Heq)].
      * destruct (Z.max_spec start n) as [[_ Hmax]|[_ Hmax]].
        -- right. exists e, n, ext. split; [by left|]. split; [done|]. split; [done|]. lia.
        -- left. lia.
      * right. exists e', n', ext'. split; [by right|]. done.
Qed.

(** X14: initializeFromLoadedImages, when every filename of the image
    map has the form `image<N>.<ext>` with N a safe integer that is not
    negative (at most Number.MAX_SAFE_INTEGER, 2^53 - 1), whatever the
    counter was: the counter becomes one more than the largest N (1 for
    an empty map), so every filename is minted from a number below it;
    nothing else of the manager and no object changes.  (Beyond the
    safe integers parseInt and the sum round: see
    [initializeFromLoadedImages_beyond_safe].) *)
Theorem initializeFromLoadedImages_above_all (w : World) :
  (forall e, e ∈ map_values (images (manager w)) ->
     exists n extension,
       filename e = image_filename n extension /\ 0 <= n <= MAX_SAFE_INTEGER) ->
  let w' := initializeFromLoadedImages w in
  filenames_minted w' /\
  (nextImageNumber (manager w') = 1 \/
   exists e n extension, e ∈ map_values (images (manager w)) /\
     filename e = image_filename n extension /\ 0 <= n <= MAX_SAFE_INTEGER /\
     nextImageNumber (manager w') = n + 1) /\
  heap w' = heap w /\
  images (manager w') = images (manager w) /\
  imagesByRelId (manager w') = imagesByRelId (manager w) /\
  nextDocPrId (manager w') = nextDocPrId (manager w).
Proof.
  intros Hall w'.
  destruct (max_number_fold (map_values (images (manager w))) 0 Hall)
    as (Hle & Hmax & Hex). cbv zeta in *.
  set (maxNumber := foldl max_number_step 0 (map_values (images (manager w)))) in *.
  assert (Hsafe : 0 <= maxNumber <= MAX_SAFE_INTEGER).
  { destruct Hex as [->|(e & n & ext & He & Hf & Hn & ->)]; [done | lia]. }
  assert (Hnext : nextImageNumber (manager w') = maxNumber + 1).
  { change (nextImageNumber (manager w')) with (js_succ maxNumber).
    apply js_succ_safe. split; [|lia]. unfold MAX_SAFE_INTEGER in *. lia. }
  split.
  - intros e He. change (images (manager w')) with (images (manager w)) in He.
    destruct (Hall e He) as (n & ext & Hf & Hn). exists n, ext. split; [done|].
    specialize (Hmax e n ext He Hf ltac:(lia)). lia.
  - split; [|done]. rewrite Hnext.
    destruct Hex as [->|(e & n & ext & He & Hf & Hn & ->)]; [by left|].
    right. by exists e, n, ext.
Qed.

(** A manager whose counter was set back to 1 while it holds three
    images. *)
Definition rewound_world : World :=
  let w := (registerImage 3%nat "rId3"
              (registerImage image2 "rId2"
                 (registerImage image1 "rId1" new_world).1).1).1 in
  mkWorld (heap w)
    (mkManager (images (manager w)) (imagesByRelId (manager w)) 1 1
       (maxImageCount (manager w)) (maxTotalImageSizeBytes (manager w))
       (maxSingleImageSizeBytes (manager w))).

Lemma initializeFromLoadedImages_above_all_witness :
  nextImageNumber (manager rewound_world) = 1 /\
  nextImageNumber (manager (initializeFromLoadedImages rewound_world)) = 4 /\
  filenames_minted (initializeFromLoadedImages rewound_world).
Proof.
  split; [reflexivity|]. split; [reflexivity|].
  apply (initializeFromLoadedImages_above_all rewound_world).
  intros e He.
  change (map_values (images (manager rewound_world))) with
    [mkEntry image1 "image1.png" "rId1" 1; mkEntry image2 "image2.png" "rId2" 2;
     mkEntry 3%nat "image3.png" "rId3" 3] in He.
  apply elem_of_cons in He as [->|He]; [exists 1, "png"%string; by split|].
  apply elem_of_cons in He as [->|He]; [exists 2, "png"%string; by split|].
  apply elem_of_cons in He as [->|He]; [exists 3, "png"%string; by split|].
  by apply elem_of_nil in He.
Defined.

(** A manager that was loaded with one image, whose filename carries a
    number beyond the safe integers. *)
Definition beyond_safe_world : World :=
  mkWorld (heap new_world)
    (mkManager [(image1, mkEntry image1 "image9007199254740993.png" "rId1" 1)] ∅ 1 2
       (maxImageCount (manager new_world)) (maxTotalImageSizeBytes (manager new_world))
       (maxSingleImageSizeBytes (manager new_world))).

(** parseInt reads 9007199254740993 as 9007199254740992, and one more
    is 9007199254740992 again: the counter ends below the number in
    the filename. *)
Example initializeFromLoadedImages_beyond_safe :
  nextImageNumber (manager (initializeFromLoadedImages beyond_safe_world)) =
    9007199254740992 /\
  ~ filenames_minted (initializeFromLoadedImages beyond_safe_world).
Proof.
  split; [reflexivity|]. intros Hminted.
  destruct (Hminted (mkEntry image1 "image9007199254740993.png" "rId1" 1))
    as (n & ext & Hf & Hn); [by left|].
  change (nextImageNumber (manager (initializeFromLoadedImages beyond_safe_world)))
    with 9007199254740992 in Hn.
  change (filename (mkEntry image1 "image9007199254740993.png" "rId1" 1))
    with (image_filename 9007199254740993 "png") in Hf.
  apply image_filename_number_inj in Hf; lia.
Qed.

(** *** Releasing and loading the bytes *)

Lemma released_heap (entries : list ImageEntry) (h : Heap) (r : ImageRef) :
  foldl (fun h entry => heap_update h (image entry) releaseData) h entries r =
    if decide (r ∈ image <$> entries) then releaseData (h r) else h r.
Proof.
  revert h. induction entries as [|e entries IH]; intros h.
  - cbn. by rewrite decide_False by apply not_elem_of_nil.
  - cbn [foldl fmap list_fmap]. rewrite IH. unfold heap_update.
    destruct (Nat.eqb_spec r (image e)) as [->|Hne].
    + rewrite (decide_True (P := _ ∈ _ :: _)) by by left.
      by destruct (decide _).
    + destruct (decide (r ∈ image <$> entries)) as [Hin|Hin].
      * rewrite decide_True; [done | by right].
      * rewrite decide_False; [done|]. intros [?|?]%elem_of_cons; tauto.
Qed.

Lemma total_of_unloaded (h : Heap) (entries : list ImageEntry) (start : Z) :
  (forall e, e ∈ entries -> imageData (h (image e)) = None) ->
  foldl (fun totalSize entry =>
           match getImageData (h (image entry)) with
           | Ok bytes => totalSize + bytes
           | Throw _ => totalSize
           end) start entries = start.
Proof.
  revert start. induction entries as [|e entries IH]; intros start Hall; [done|].
  cbn [foldl]. unfold getImageData at 2. rewrite (Hall e) by by left.
  apply IH. intros e' He'. apply Hall. by right.
Qed.

(** X15: releaseAllImageData, with [releaseData] of an image taken to
    drop its bytes: the manager is untouched, so the filenames, the ids
    and the image count survive; the image of every entry has no bytes
    in memory afterwards and is otherwise as it was; every other object
    is untouched; and getTotalSize() is 0. *)
Theorem releaseAllImageData_frees_bytes (w : World) :
  manager (releaseAllImageData w) = manager w /\
  getImageCount (releaseAllImageData w) = getImageCount w /\
  (forall r,
     heap (releaseAllImageData w) r =
       if decide (r ∈ image <$> map_values (images (manager w)))
       then releaseData (heap w r) else heap w r) /\
  getTotalSize (releaseAllImageData w) = 0.
Proof.
  split; [done|]. split; [done|].
  assert (Hheap : forall r,
     heap (releaseAllImageData w) r =
       if decide (r ∈ image <$> map_values (images (manager w)))
       then releaseData (heap w r) else heap w r).
  { intros r. apply released_heap. }
  split; [exact Hheap|].
  unfold getTotalSize. apply total_of_unloaded.
  intros e He. change (manager (releaseAllImageData w)) with (manager w) in He.
  rewrite Hheap. rewrite decide_True; [done|].
  apply list_elem_of_fmap. by exists e.
Qed.

Section Loading.

Variable source : ImageRef -> result Error Z.
Variable schedule : list ImageEntry -> list ImageEntry.
Hypothesis schedule_permutes : forall batch, schedule batch ≡ₚ batch.

Lemma after_load_idemp r o : after_load source r (after_load source r o) = after_load source r o.
Proof.
  unfold after_load. destruct (imageData o) as [b|] eqn:Ho; [by rewrite Ho|].
  destruct (source r) as [bytes|e]; [done | by rewrite Ho].
Qed.

Lemma ensureDataLoaded_heap r h r' :
  (ensureDataLoaded source r h).1 r' =
    if Nat.eqb r' r then after_load source r (h r') else h r'.
Proof.
  unfold ensureDataLoaded, after_load.
  destruct (Nat.eqb_spec r' r) as [->|Hne].
  - destruct (imageData (h r)) as [b|]; [done|].
    destruct (source r) as [bytes|e]; cbn [fst]; [|done].
    unfold heap_update. by rewrite Nat.eqb_refl.
  - destruct (imageData (h r)) as [b|]; [done|].
    destruct (source r) as [bytes|e]; cbn [fst]; [|done].
    unfold heap_update. by destruct (Nat.eqb_spec r' r).
Qed.

Lemma load_entry_heap onProgress total entry s r :
  ls_heap (load_entry source onProgress total entry s).1 r =
    if Nat.eqb r (image entry) then after_load source (image entry) (ls_heap s r)
    else ls_heap s r.
Proof.
  rewrite <- ensureDataLoaded_heap.
  unfold load_entry, try_catch, bind, await_load, count, report.
  destruct (ensureDataLoaded source (image entry) (ls_heap s)) as [h [[]|e]];
    destruct onProgress as [callback|]; cbn [fst ls_heap loaded progress];
    repeat case_match; simplify_eq; reflexivity.
Qed.

(** With no callback, or one whose calls all return, no entry is
    rejected. *)
Lemma load_entry_returns onProgress total entry s :
  (forall callback, onProgress = Some callback -> returns_always callback) ->
  (load_entry source onProgress total entry s).2 = Ok tt.
Proof.
  intros Hret. unfold load_entry, try_catch, bind, await_load, count, report.
  destruct (ensureDataLoaded source (image entry) (ls_heap s)) as [h [[]|e]];
    destruct onProgress as [callback|]; cbn [snd ls_heap loaded progress];
    try reflexivity; by rewrite (Hret callback eq_refl).
Qed.

Lemma settled_heap onProgress total (settled : list ImageEntry) acc r :
  ls_heap (foldl (settle source onProgress total) acc settled).1 r =
    if decide (r ∈ image <$> settled) then after_load source r (ls_heap acc.1 r)
    else ls_heap acc.1 r.
Proof.
  revert acc. induction settled as [|e settled IH]; intros acc.
  - cbn. by rewrite decide_False by apply not_elem_of_nil.
  - cbn [foldl fmap list_fmap]. rewrite IH.
    assert (Hfst : (settle source onProgress total acc e).1 =
                   (load_entry source onProgress total e acc.1).1).
    { unfold settle. by destruct (load_entry source onProgress total e acc.1). }
    rewrite Hfst, load_entry_heap.
    destruct (Nat.eqb_spec r (image e)) as [->|Hne].
    + rewrite (decide_True (P := _ ∈ _ :: _)) by by left.
      rewrite after_load_idemp. by destruct (decide _).
    + destruct (decide (r ∈ image <$> settled)) as [Hin|Hin].
      * rewrite decide_True; [done | by right].
      * rewrite decide_False; [done|]. intros [?|?]%elem_of_cons; tauto.
Qed.

Lemma settled_returns onProgress total (settled : list ImageEntry) acc :
  (forall callback, onProgress = Some callback -> returns_always callback) ->
  acc.2 = Ok tt ->
  (foldl (settle source onProgress total) acc settled).2 = Ok tt.
Proof.
  intros Hret. revert acc. induction settled as [|e settled IH]; intros acc Hacc; [done|].
  cbn [foldl]. apply IH. unfold settle.
  pose proof (load_entry_returns onProgress total e acc.1 Hret) as He.
  destruct (load_entry source onProgress total e acc.1) as [s' r']. cbn in *.
  by rewrite Hacc.
Qed.

Lemma run_batch_heap onProgress total batch s r :
  ls_heap (run_batch source schedule onProgress total batch s).1 r =
    if decide (r ∈ image <$> batch) then after_load source r (ls_heap s r)
    else ls_heap s r.
Proof.
  unfold run_batch. rewrite settled_heap. cbn [fst].
  assert (Hiff : r ∈ image <$> schedule batch <-> r ∈ image <$> batch)
    by by rewrite (schedule_permutes batch).
  destruct (decide (r ∈ image <$> schedule batch)) as [Hin|Hin].
  - rewrite decide_True; [done | by apply Hiff].
  - rewrite decide_False; [done | by rewrite <- Hiff].
Qed.

Lemma slice_app {A} (i k j : Z) (l : list A) :
  0 <= i <= k -> k <= j ->
  slice i j l = (slice i k l ++ slice k j l)%list.
Proof.
  intros Hi Hk. unfold slice.
  replace (Z.to_nat j - Z.to_nat i)%nat
    with ((Z.to_nat k - Z.to_nat i) + (Z.to_nat j - Z.to_nat k))%nat by lia.
  rewrite <- take_take_drop. f_equal. rewrite drop_drop. do 2 f_equal. lia.
Qed.

Lemma slice_beyond {A} (i j : Z) (l : list A) :
  0 <= i ->
  slice i (Z.min j (Z.of_nat (length l))) l = slice i j l.
Proof.
  intros Hi. destruct (Z.le_gt_cases j (Z.of_nat (length l))) as [Hle|Hgt].
  - by rewrite Z.min_l.
  - rewrite Z.min_r by lia. unfold slice.
    rewrite !take_ge; [done | rewrite length_drop; lia | rewrite length_drop; lia].
Qed.

(** The loop ends: it has run the batches up to an index [j], and the
    entries before [j] are the ones whose image was loaded.  When the
    call returns, [j] is past the last entry; and with no callback, or
    one that returns, the call returns. *)
Lemma batches_heap (all : list ImageEntry) (c : Z) (onProgress : option Callback)
  (fuel : nat) :
  1 <= c ->
  forall i s,
    let total := Z.of_nat (length all) in
    0 <= i ->
    (Z.to_nat (total - i) <= fuel)%nat ->
    exists s' outcome j,
      batches source schedule fuel i c total onProgress all s = Some (s', outcome) /\
      i <= j /\
      (forall r, ls_heap s' r =
         if decide (r ∈ image <$> slice i j all)
         then after_load source r (ls_heap s r) else ls_heap s r) /\
      (outcome = Ok tt -> total <= j) /\
      ((forall callback, onProgress = Some callback -> returns_always callback) ->
       outcome = Ok tt).
Proof.
  intros Hc. induction fuel as [|fuel IH]; intros i s total Hi Hfuel.
  - exists s, (Ok tt), i. cbn [batches]. destruct (Z.ltb_spec i total); [lia|].
    split; [done|]. split; [lia|]. split; [|split; [lia | done]].
    intros r. unfold slice. rewrite Nat.sub_diag, take_0.
    by rewrite decide_False by apply not_elem_of_nil.
  - cbn [batches]. destruct (Z.ltb_spec i total) as [Hlt|Hge].
    + set (batch := slice i (Z.min (i + c) total) all).
      assert (Hbatch : batch = slice i (i + c) all) by (apply slice_beyond; lia).
      pose proof (run_batch_heap onProgress total batch s) as Hheap1.
      assert (Hret1 : (forall callback, onProgress = Some callback ->
                         returns_always callback) ->
                      (run_batch source schedule onProgress total batch s).2 = Ok tt).
      { intros Hret. unfold run_batch. by apply settled_returns. }
      destruct (run_batch source schedule onProgress total batch s) as [s1 [[]|rejection]];
        cbn [fst snd] in Hheap1, Hret1.
      * destruct (IH (i + c) s1) as [s' [outcome [j [Hrun [Hj [Hheap [Hok Hret]]]]]]];
          [lia | fold total; lia|].
        exists s', outcome, j. split; [exact Hrun|]. split; [lia|].
        split; [|split; [exact Hok | exact Hret]].
        intros r. rewrite Hheap, Hheap1, Hbatch.
        rewrite (slice_app i (i + c) j all) by lia. rewrite fmap_app.
        destruct (decide (r ∈ image <$> slice i (i + c) all)) as [Hb|Hb];
          destruct (decide (r ∈ image <$> slice (i + c) j all)) as [Hd|Hd].
        -- rewrite after_load_idemp. rewrite decide_True; [done|].
           apply elem_of_app. by left.
        -- rewrite decide_True; [done|]. apply elem_of_app. by left.
        -- rewrite decide_True; [done|]. apply elem_of_app. by right.
        -- rewrite decide_False; [done|]. intros [?|?]%elem_of_app; tauto.
      * exists s1, (Throw rejection), (i + c). split; [done|]. split; [lia|].
        split; [|split; [done|]].
        -- intros r. by rewrite Hheap1, Hbatch.
        -- intros Hret. by specialize (Hret1 Hret).
    + exists s, (Ok tt), i. split; [done|]. split; [lia|]. split; [|split; [lia | done]].
      intros r. unfold slice. rewrite Nat.sub_diag, take_0.
      by rewrite decide_False by apply not_elem_of_nil.
Qed.

(** X16: loadAllImageData with a concurrency that denotes an integer in
    [1,50], whatever the order in which the loads of a batch settle and
    whether the calls of the progress callback, which touches neither
    the manager nor the images, return or throw.  The call ends (it
    returns or its promise is rejected), the manager is
    as before, and the entries whose load was started are those of the
    first batches: the image of such an entry has its bytes afterwards
    when they were not in memory and can be read, and is as it was when
    its read throws or it was loaded already; every other object is
    untouched.  When the call returns, every entry was loaded so; and
    it returns when there is no callback or the calls of the callback
    all return.  (A callback that throws twice for one entry rejects the
    call, and the batches after that one are never loaded.) *)
Theorem loadAllImageData_loads_every_image
  (concurrency : JsNumber) (onProgress : option Callback) (w : World) :
  (exists z, 1 <= z <= 50 /\ denotes concurrency z) ->
  let all := map_values (images (manager w)) in
  exists h calls outcome started,
    loadAllImageData source schedule (Some concurrency) onProgress w
      = Some (mkWorld h (manager w), calls, outcome) /\
    (forall r, h r =
       if decide (r ∈ image <$> take started all)
       then after_load source r (heap w r) else heap w r) /\
    (outcome = Ok tt ->
     forall r, h r =
       if decide (r ∈ image <$> all)
       then after_load source r (heap w r) else heap w r) /\
    ((forall callback, onProgress = Some callback -> returns_always callback) ->
     outcome = Ok tt).
Proof.
  intros Hvalid all. destruct (Hvalid) as [z [Hz Hden]].
  apply concurrency_valid_iff in Hvalid.
  unfold loadAllImageData. cbn [default id]. fold all.
  destruct (Z.eqb_spec (Z.of_nat (length all)) 0) as [Hzero|Hpos].
  - assert (Hnil : all = []) by (destruct all; [done | discriminate]).
    exists (heap w), [], (Ok tt), O. destruct w as [h m]. split; [done|].
    rewrite Hnil. cbn [heap take fmap list_fmap].
    split; [|split; [|done]]; intros; by rewrite decide_False by apply not_elem_of_nil.
  - rewrite Hvalid, (integer_value_denotes _ _ Hden).
    destruct (batches_heap all z onProgress (Z.to_nat (Z.of_nat (length all)))
                ltac:(lia) 0 (mkLoad (heap w) 0 []))
      as [s' [outcome [j [Hrun [Hj [Hheap [Hok Hret]]]]]]]; [lia | lia |].
    rewrite Hrun. exists (ls_heap s'), (progress s'), outcome, (Z.to_nat j).
    assert (Hslice : slice 0 j all = take (Z.to_nat j) all).
    { unfold slice. by rewrite Nat.sub_0_r. }
    split; [done|]. split; [|split; [|exact Hret]].
    + intros r. by rewrite Hheap, Hslice.
    + intros Houtcome r. specialize (Hok Houtcome).
      rewrite Hheap, Hslice. by rewrite take_ge by lia.
Qed.

End Loading.

Lemma loadAllImageData_loads_every_image_witness :
  exists h calls,
    loadAllImageData fourth_fails reverse (Some (js_int 3)) (Some throws_once) seven_images
      = Some (mkWorld h (manager seven_images), calls, Ok tt) /\
    imageData (h 3%nat) = Some 1024 /\
    imageData (h 4%nat) = None.
Proof.
  assert (Hvalid : exists z, 1 <= z <= 50 /\ denotes (js_int 3) z).
  { exists 3. split; [lia | reflexivity]. }
  destruct (loadAllImageData_loads_every_image fourth_fails reverse
              (fun batch => reverse_Permutation batch)
              (js_int 3) (Some throws_once) seven_images Hvalid)
    as [h [calls [outcome [started [Hcall [_ [Hall _]]]]]]].
  assert (Houtcome : outcome = Ok tt).
  { pose proof (f_equal observed Hcall) as Hobserved. vm_compute in Hobserved.
    injection Hobserved as _ Houtcome. symmetry. exact Houtcome. }
  subst outcome. exists h, calls. split; [exact Hcall|].
  rewrite (Hall eq_refl 3%nat), (Hall eq_refl 4%nat). split; vm_compute; reflexivity.
Defined.

(** A callback whose calls all throw: the call is rejected in the first
    batch, and the images of the later batches are never loaded. *)
Example loadAllImageData_rejected :
  match loadAllImageData fourth_fails reverse (Some (js_int 3)) (Some throws_always)
          seven_images with
  | Some (w', calls, outcome) =>
      calls = [(1, 7); (2, 7); (3, 7); (4, 7); (5, 7); (6, 7)] /\
      outcome = Throw (CallbackThrew 1) /\
      imageData (heap w' 1%nat) = Some 1024 /\
      imageData (heap w' 5%nat) = None
  | None => False
  end.
Proof. vm_compute. repeat split; reflexivity. Qed.

End ImageStoreTheory.

(** ** TableOfContents: settings *)

Module TocSettings.
Import Toc.

Local Open Scope string_scope.

(** setTitle *)
Definition setTitle (s : string) (t : TableOfContents) : TableOfContents :=
  mkToc s (levels t) (includeStyles t) (showPageNumbers t) (useHyperlinks t)
    (tabLeader t) (fieldSwitches t) (numbered t) (numberingFormat t)
    (noIndent t) (customIndents t) (spaceBetweenEntries t) (hyperlinkColor t).

(** setIncludeStyles *)
Definition setIncludeStyles (styles : list string) (t : TableOfContents)
  : TableOfContents :=
  mkToc (title t) (levels t) (Some styles) (showPageNumbers t) (useHyperlinks t)
    (tabLeader t) (fieldSwitches t) (numbered t) (numberingFormat t)
    (noIndent t) (customIndents t) (spaceBetweenEntries t) (hyperlinkColor t).

(** setNumbered; the format defaults to decimal. *)
Definition setNumbered (b : bool) (fmt : option NumberingFormat)
  (t : TableOfContents) : TableOfContents :=
  mkToc (title t) (levels t) (includeStyles t) (showPageNumbers t) (useHyperlinks t)
    (tabLeader t) (fieldSwitches t) b (default decimal fmt)
    (noIndent t) (customIndents t) (spaceBetweenEntries t) (hyperlinkColor t).

(** setNoIndent *)
Definition setNoIndent (b : bool) (t : TableOfContents) : TableOfContents :=
  mkToc (title t) (levels t) (includeStyles t) (showPageNumbers t) (useHyperlinks t)
    (tabLeader t) (fieldSwitches t) (numbered t) (numberingFormat t)
    b (customIndents t) (spaceBetweenEntries t) (hyperlinkColor t).

(** setCustomIndents *)
Definition setCustomIndents (indents : list Z) (t : TableOfContents)
  : TableOfContents :=
  mkToc (title t) (levels t) (includeStyles t) (showPageNumbers t) (useHyperlinks t)
    (tabLeader t) (fieldSwitches t) (numbered t) (numberingFormat t)
    (noIndent t) (Some indents) (spaceBetweenEntries t) (hyperlinkColor t).

(** setSpaceBetweenEntries *)
Definition setSpaceBetweenEntries (spacing : Z) (t : TableOfContents)
  : TableOfContents :=
  mkToc (title t) (levels t) (includeStyles t) (showPageNumbers t) (useHyperlinks t)
    (tabLeader t) (fieldSwitches t) (numbered t) (numberingFormat t)
    (noIndent t) (customIndents t) spacing (hyperlinkColor t).

(** setHyperlinkColor *)
Definition setHyperlinkColor (color : string) (t : TableOfContents)
  : TableOfContents :=
  mkToc (title t) (levels t) (includeStyles t) (showPageNumbers t) (useHyperlinks t)
    (tabLeader t) (fieldSwitches t) (numbered t) (numberingFormat t)
    (noIndent t) (customIndents t) (spaceBetweenEntries t) color.

(** The options of a second configure call over those of a first:
    what the second sets wins. *)
Definition later {A} (second first : option A) : option A :=
  match second with Some x => Some x | None => first end.

Definition configured_after (second first : TOCProperties) : TOCProperties :=
  mkProperties
    (later (p_title second) (p_title first))
    (later (p_levels second) (p_levels first))
    (later (p_includeStyles second) (p_includeStyles first))
    (later (p_showPageNumbers second) (p_showPageNumbers first))
    (later (p_rightAlignPageNumbers second) (p_rightAlignPageNumbers first))
    (later (p_useHyperlinks second) (p_useHyperlinks first))
    (later (p_style second) (p_style first))
    (later (p_tabLeader second) (p_tabLeader first))
    (later (p_fieldSwitches second) (p_fieldSwitches first))
    (later (p_numbered second) (p_numbered first))
    (later (p_numberingFormat second) (p_numberingFormat first))
    (later (p_noIndent second) (p_noIndent first))
    (later (p_customIndents second) (p_customIndents first))
    (later (p_spaceBetweenEntries second) (p_spaceBetweenEntries first))
    (later (p_hyperlinkColor second) (p_hyperlinkColor first)).

End TocSettings.

Module TocSettingsTheory.
Import Toc TocSettings TocTheory.

Local Open Scope string_scope.

(** toXML reads the title and the six settings of the field
    instruction, and nothing else. *)
Lemma toXML_same (t u : TableOfContents) :
  title t = title u ->
  includeStyles t = includeStyles u ->
  levels t = levels u ->
  useHyperlinks t = useHyperlinks u ->
  showPageNumbers t = showPageNumbers u ->
  tabLeader t = tabLeader u ->
  fieldSwitches t = fieldSwitches u ->
  toXML t = toXML u.
Proof.
  intros Ht Hs Hl Hh Hp Hd Hf. rewrite !toXML_value.
  unfold title_part, field_paragraph, buildFieldInstruction.
  by rewrite Ht, Hs, Hl, Hh, Hp, Hd, Hf.
Qed.

(** X17: when styles to include are set, and are not the empty array,
    the number of levels has no part in the field: whatever number the
    levels are set to, buildFieldInstruction and toXML give what they
    gave; the instruction then names the styles after the switch \t. *)
Theorem includeStyles_override_levels
  (t : TableOfContents) (style : string) (styles : list string) (n : Z) :
  includeStyles t = Some (style :: styles) ->
  buildFieldInstruction (set_levels n t) = buildFieldInstruction t /\
  toXML (set_levels n t) = toXML t /\
  (forall t', setLevels n t = Ok t' -> toXML t' = toXML t) /\
  (useHyperlinks t = false -> showPageNumbers t = true -> tabLeader t = dot ->
   fieldSwitches t = None ->
   buildFieldInstruction t =
     "TOC \t "
     ++ join " " (List.map (fun s => quote ++ s ++ quote ++ ",1") (style :: styles))
     ++ " \* MERGEFORMAT").
Proof.
  intros Hs.
  assert (Hb : buildFieldInstruction (set_levels n t) = buildFieldInstruction t).
  { unfold buildFieldInstruction. cbn [set_levels includeStyles levels useHyperlinks
      showPageNumbers tabLeader fieldSwitches]. by rewrite Hs. }
  assert (Hx : toXML (set_levels n t) = toXML t).
  { unfold toXML. by rewrite Hb. }
  split; [exact Hb|]. split; [exact Hx|]. split.
  - intros t'. unfold setLevels. destruct ((n <? 1)%Z || (9 <? n)%Z); [done|].
    by intros [= <-].
  - intros Hh Hp Hl Hf. unfold buildFieldInstruction. rewrite Hs, Hh, Hp, Hl, Hf.
    reflexivity.
Qed.

Lemma includeStyles_override_levels_witness :
  includeStyles (setIncludeStyles ["Heading1"; "Heading3"] (new no_properties)) =
    Some ["Heading1"; "Heading3"] /\
  buildFieldInstruction
    (set_levels 7 (setIncludeStyles ["Heading1"; "Heading3"] (new no_properties))) =
  buildFieldInstruction (setIncludeStyles ["Heading1"; "Heading3"] (new no_properties)).
Proof.
  split; [reflexivity|].
  exact (proj1 (includeStyles_override_levels
                  (setIncludeStyles ["Heading1"; "Heading3"] (new no_properties))
                  "Heading1" ["Heading3"] 7 eq_refl)).
Defined.

(** X18: the numbering of the entries, the removal of indents, the
    custom indents, the space between entries and the hyperlink color
    are stored but never written: setNumbered, setNoIndent,
    setCustomIndents, setSpaceBetweenEntries and setHyperlinkColor leave
    what toXML returns unchanged, and the properties
    rightAlignPageNumbers and style have no effect on the
    TableOfContents that the constructor and configure make. *)
Theorem presentation_settings_not_serialized (t : TableOfContents) :
  (forall b fmt, toXML (setNumbered b fmt t) = toXML t) /\
  (forall b, toXML (setNoIndent b t) = toXML t) /\
  (forall indents, toXML (setCustomIndents indents t) = toXML t) /\
  (forall spacing, toXML (setSpaceBetweenEntries spacing t) = toXML t) /\
  (forall color, toXML (setHyperlinkColor color t) = toXML t) /\
  (forall ti le st sp ra ra' hy sy sy' tl fs nu nf ni ci sb hc,
     new (mkProperties ti le st sp ra hy sy tl fs nu nf ni ci sb hc) =
     new (mkProperties ti le st sp ra' hy sy' tl fs nu nf ni ci sb hc) /\
     configure (mkProperties ti le st sp ra hy sy tl fs nu nf ni ci sb hc) t =
     configure (mkProperties ti le st sp ra' hy sy' tl fs nu nf ni ci sb hc) t).
Proof.
  split; [intros b fmt; apply toXML_same; reflexivity|].
  split; [intros b; apply toXML_same; reflexivity|].
  split; [intros indents; apply toXML_same; reflexivity|].
  split; [intros spacing; apply toXML_same; reflexivity|].
  split; [intros color; apply toXML_same; reflexivity|].
  intros. split; reflexivity.
Qed.

(** X19: configure writes the properties that are set and leaves the
    others: with no property set it changes nothing, and two calls in a
    row are one call with the properties of the second over those of
    the first. *)
Theorem configure_composes (first second : TOCProperties) (t : TableOfContents) :
  configure no_properties t = t /\
  configure second (configure first t) = configure (configured_after second first) t.
Proof.
  split; [by destruct t|].
  destruct first, second. unfold configure, configured_after, later.
  cbn [p_title p_levels p_includeStyles p_showPageNumbers p_rightAlignPageNumbers
       p_useHyperlinks p_style p_tabLeader p_fieldSwitches p_numbered
       p_numberingFormat p_noIndent p_customIndents p_spaceBetweenEntries
       p_hyperlinkColor title levels includeStyles showPageNumbers useHyperlinks
       tabLeader fieldSwitches numbered numberingFormat noIndent customIndents
       spaceBetweenEntries hyperlinkColor].
  f_equal;
    repeat match goal with
           | |- context [match ?x with Some _ => _ | None => _ end] =>
               is_var x; destruct x
           end; reflexivity.
Qed.

(** X20: a TableOfContents that the constructor makes has a title that
    is not empty (a missing or empty title becomes 'Table of Contents'),
    so toXML returns two paragraphs, the title and the field; after
    setTitle('') toXML returns the field paragraph alone. *)
Theorem title_paragraph_presence (properties : TOCProperties) (t : TableOfContents) :
  title (new properties) <> EmptyString /\
  toXML (new properties) =
    Ok [title_paragraph (title (new properties)); field_paragraph (new properties)] /\
  toXML (setTitle EmptyString t) = Ok [field_paragraph t].
Proof.
  assert (Ht : title (new properties) <> EmptyString).
  { unfold new. cbn [title]. unfold string_or.
    by destruct (p_title properties) as [[|c s]|]. }
  split; [exact Ht|]. split; [|reflexivity].
  rewrite toXML_value. unfold title_part.
  by destruct (title (new properties)).
Qed.

End TocSettingsTheory.

(** ** Style *)

Module Styles.

Local Open Scope string_scope.
Local Open Scope Z_scope.

Inductive Error : Type :=
| UiPriorityOutOfRange     (* 'UI priority must be between 0 and 99' *)
| RowBandSizeNegative      (* 'Row band size must be non-negative' *)
| ColBandSizeNegative      (* 'Column band size must be non-negative' *)
| HeadingLevelOutOfRange.  (* 'Heading level must be between 1 and 9' *)

(** The interfaces of the table formatting. *)
Record BorderProperties : Type := mkBorder {
  border_style : option string;
  border_size : option Z;
  border_space : option Z;
  border_color : option string
}.

Record CellBorders : Type := mkBorders {
  top : option BorderProperties;
  bottom : option BorderProperties;
  left : option BorderProperties;
  right : option BorderProperties;
  insideH : option BorderProperties;
  insideV : option BorderProperties;
  (* the two diagonals are absent from the borders of a table *)
  tl2br : option BorderProperties;
  tr2bl : option BorderProperties
}.

Record ShadingProperties : Type := mkShading {
  fill : option string;
  shading_color : option string;
  val : option string
}.

Record CellMargins : Type := mkMargins {
  margin_top : option Z;
  margin_bottom : option Z;
  margin_left : option Z;
  margin_right : option Z
}.

Record TableStyleFormatting : Type := mkTableFormatting {
  indent : option Z;
  cellSpacing : option Z;
  table_borders : option CellBorders;
  cellMargins : option CellMargins;
  table_shading : option ShadingProperties;
  table_alignment : option string
}.

Record TableCellStyleFormatting : Type := mkCellFormatting {
  cell_borders : option CellBorders;
  cell_shading : option ShadingProperties;
  margins : option CellMargins;
  verticalAlignment : option string
}.

Record TableRowStyleFormatting : Type := mkRowFormatting {
  cantSplit : option bool;
  isHeader : option bool;
  height : option Z;
  heightRule : option string
}.

(** Modelled from the spec: the value structs ParagraphFormatting and
    RunFormatting (their files are not among the sources), with the
    fields that Style reads or writes. *)
Record Spacing : Type := mkSpacing {
  before : option Z;
  after : option Z;
  line : option Z;
  lineRule : option string
}.

Record Indentation : Type := mkIndentation {
  indent_left : option Z;
  indent_right : option Z
}.

Record ParagraphFormatting : Type := mkParagraphFormatting {
  alignment : option string;
  spacing : option Spacing;
  indentation : option Indentation;
  keepNext : option bool;
  keepLines : option bool;
  pageBreakBefore : option bool
}.

Record RunFormatting : Type := mkRunFormatting {
  font : option string;
  size : option Z;
  bold : option bool;
  italic : option bool;
  color : option string;
  highlight : option string
}.

Record ConditionalTableFormatting : Type := mkConditional {
  conditional_type : string;
  conditional_paragraphFormatting : option ParagraphFormatting;
  conditional_runFormatting : option RunFormatting;
  tableFormatting : option TableStyleFormatting;
  cellFormatting : option TableCellStyleFormatting;
  rowFormatting : option TableRowStyleFormatting
}.

Record TableStyleProperties : Type := mkTableStyle {
  table : option TableStyleFormatting;
  cell : option TableCellStyleFormatting;
  row : option TableRowStyleFormatting;
  rowBandSize : option Z;
  colBandSize : option Z;
  conditionalFormatting : option (list ConditionalTableFormatting)
}.

(** The object literal [{}]. *)
Definition empty_tableStyle : TableStyleProperties :=
  mkTableStyle None None None None None None.

(** A Style holds its StyleProperties. *)
Record Style : Type := mkStyle {
  styleId : string;
  name : string;
  type : string;
  basedOn : option string;
  next : option string;
  isDefault : option bool;
  customStyle : option bool;
  paragraphFormatting : option ParagraphFormatting;
  runFormatting : option RunFormatting;
  tableStyle : option TableStyleProperties;
  qFormat : option bool;
  uiPriority : option Z;
  semiHidden : option bool;
  unhideWhenUsed : option bool;
  locked : option bool;
  personal : option bool;
  link : option string;
  autoRedefine : option bool;
  aliases : option string
}.

Definition with_basedOn (v : option string) (s : Style) : Style :=
  mkStyle (styleId s) (name s) (type s) v (next s) (isDefault s) (customStyle s)
    (paragraphFormatting s) (runFormatting s) (tableStyle s) (qFormat s)
    (uiPriority s) (semiHidden s) (unhideWhenUsed s) (locked s) (personal s)
    (link s) (autoRedefine s) (aliases s).

Definition with_link (v : option string) (s : Style) : Style :=
  mkStyle (styleId s) (name s) (type s) (basedOn s) (next s) (isDefault s)
    (customStyle s) (paragraphFormatting s) (runFormatting s) (tableStyle s)
    (qFormat s) (uiPriority s) (semiHidden s) (unhideWhenUsed s) (locked s)
    (personal s) v (autoRedefine s) (aliases s).

Definition with_uiPriority (v : option Z) (s : Style) : Style :=
  mkStyle (styleId s) (name s) (type s) (basedOn s) (next s) (isDefault s)
    (customStyle s) (paragraphFormatting s) (runFormatting s) (tableStyle s)
    (qFormat s) v (semiHidden s) (unhideWhenUsed s) (locked s)
    (personal s) (link s) (autoRedefine s) (aliases s).

Definition with_tableStyle (v : option TableStyleProperties) (s : Style) : Style :=
  mkStyle (styleId s) (name s) (type s) (basedOn s) (next s) (isDefault s)
    (customStyle s) (paragraphFormatting s) (runFormatting s) v
    (qFormat s) (uiPriority s) (semiHidden s) (unhideWhenUsed s) (locked s)
    (personal s) (link s) (autoRedefine s) (aliases s).

Definition with_rowBandSize (v : option Z) (t : TableStyleProperties)
  : TableStyleProperties :=
  mkTableStyle (table t) (cell t) (row t) v (colBandSize t) (conditionalFormatting t).

Definition with_colBandSize (v : option Z) (t : TableStyleProperties)
  : TableStyleProperties :=
  mkTableStyle (table t) (cell t) (row t) (rowBandSize t) v (conditionalFormatting t).

(** setBasedOn *)
Definition setBasedOn (id : string) (s : Style) : Style := with_basedOn (Some id) s.

(** setLink *)
Definition setLink (id : string) (s : Style) : Style := with_link (Some id) s.

(** setUiPriority: the check comes before the assignment. *)
Definition setUiPriority (priority : Z) (s : Style) : result Error Style :=
  if (priority <? 0) || (99 <? priority) then Throw UiPriorityOutOfRange
  else Ok (with_uiPriority (Some priority) s).

Local Open Scope method_scope.

(** [if (!this.properties.tableStyle) this.properties.tableStyle = {}] *)
Definition ensure_tableStyle : M Style Error unit :=
  s <- get ;;
  match tableStyle s with
  | None => put (with_tableStyle (Some empty_tableStyle) s)
  | Some _ => ret tt
  end.

(** setRowBandSize: the check comes after the table style is ensured. *)
Definition setRowBandSize (size : Z) : M Style Error unit :=
  ensure_tableStyle ;;
  if size <? 0 then throw RowBandSizeNegative
  else
    s <- get ;;
    put (with_tableStyle
           (Some (with_rowBandSize (Some size) (default empty_tableStyle (tableStyle s))))
           s).

(** setColBandSize *)
Definition setColBandSize (size : Z) : M Style Error unit :=
  ensure_tableStyle ;;
  if size <? 0 then throw ColBandSizeNegative
  else
    s <- get ;;
    put (with_tableStyle
           (Some (with_colBandSize (Some size) (default empty_tableStyle (tableStyle s))))
           s).

Local Close Scope method_scope.

(** A string in a condition: the empty string is falsy. *)
Definition nonempty (s : string) : bool :=
  match s with EmptyString => false | String _ _ => true end.

(** An optional string in a condition: [undefined] and the empty string
    are falsy. *)
Definition truthy (s : option string) : bool :=
  match s with Some s => nonempty s | None => false end.

(** [array.includes(s)] *)
Definition includes (l : list string) (s : string) : bool :=
  existsb (String.eqb s) l.

Definition is_hex_digit (c : ascii) : bool :=
  let n := nat_of_ascii c in
  ((48 <=? n) && (n <=? 57) || (65 <=? n) && (n <=? 70)
   || (97 <=? n) && (n <=? 102))%nat.

(** [/^[0-9A-Fa-f]{6}$/.test(s)] *)
Definition is_hex_color (s : string) : bool :=
  (String.length s =? 6)%nat && forallb is_hex_digit (list_ascii_of_string s).

Definition validTypes : list string := ["paragraph"; "character"; "table"; "numbering"].
Definition validAlignments : list string :=
  ["left"; "center"; "right"; "justify"; "both"; "distribute"].
Definition validLineRules : list string := ["auto"; "exact"; "atLeast"].
Definition validHighlights : list string :=
  ["black"; "blue"; "cyan"; "darkBlue"; "darkCyan"; "darkGray";
   "darkGreen"; "darkMagenta"; "darkRed"; "darkYellow"; "green";
   "lightGray"; "magenta"; "none"; "red"; "white"; "yellow"].

(** [x !== undefined && x < bound] *)
Definition below (bound : Z) (x : option Z) : bool :=
  match x with Some x => x <? bound | None => false end.

(** The checks of isValid on the paragraph formatting: [true] when one
    of them returns false from isValid. *)
Definition paragraph_rejected (pf : ParagraphFormatting) : bool :=
  if truthy (alignment pf)
     && negb (includes validAlignments (default EmptyString (alignment pf)))
  then true
  else if
    match spacing pf with
    | Some sp =>
        below 0 (before sp) || below 0 (after sp) || below 0 (line sp)
        || truthy (lineRule sp)
           && negb (includes validLineRules (default EmptyString (lineRule sp)))
    | None => false
    end
  then true
  else
    match indentation pf with
    | Some ind => below (-100000) (indent_left ind) || below (-100000) (indent_right ind)
    | None => false
    end.

(** The checks of isValid on the run formatting. *)
Definition run_rejected (rf : RunFormatting) : bool :=
  if match size rf with Some n => (n <=? 0) || (1638 <? n) | None => false end
  then true
  else if truthy (color rf) && negb (is_hex_color (default EmptyString (color rf)))
  then true
  else truthy (highlight rf)
       && negb (includes validHighlights (default EmptyString (highlight rf))).

(** isValid; nothing in its body throws, so the catch is never taken. *)
Definition isValid (s : Style) : bool :=
  if negb (nonempty (styleId s)) || negb (nonempty (name s)) || negb (nonempty (type s))
  then false
  else if negb (includes validTypes (type s)) then false
  else if bool_decide (basedOn s = Some (styleId s)) then false
  else if match paragraphFormatting s with
          | Some pf => paragraph_rejected pf
          | None => false
          end
  then false
  else if match runFormatting s with
          | Some rf => run_rejected rf
          | None => false
          end
  then false
  else if match uiPriority s with
          | Some p => (p <? 0) || (99 <? p)
          | None => false
          end
  then false
  else if bool_decide (link s = Some (styleId s)) then false
  else true.

Definition string_of_Z (z : Z) : string := NilZero.string_of_int (Z.to_int z).

(** The constructor call of createHeadingStyle, for a level that passed
    the check. *)
Definition heading (level : Z) : Style :=
  let sizes := [16; 13; 12; 11; 11; 11; 11; 11; 11] in
  let bold := level <=? 4 in
  mkStyle ("Heading" ++ string_of_Z level) ("Heading " ++ string_of_Z level)
    "paragraph" (Some "Normal") (Some "Normal") None None
    (Some (mkParagraphFormatting None
             (Some (mkSpacing (Some (if level =? 1 then 240 else 120)) (Some 120)
                      None None))
             None (Some true) (Some true) None))
    (Some (mkRunFormatting (Some "Calibri Light") (sizes !! Z.to_nat (level - 1))
             (Some bold) None
             (Some (if level =? 1 then "2E74B5" else "1F4D78")) None))
    None None None None None None None None None None.

(** createHeadingStyle *)
Definition createHeadingStyle (level : Z) : result Error Style :=
  if (level <? 1) || (9 <? level) then Throw HeadingLevelOutOfRange
  else Ok (heading level).

(** createNormalStyle *)
Definition createNormalStyle : Style :=
  mkStyle "Normal" "Normal" "paragraph" None (Some "Normal") (Some true) None
    (Some (mkParagraphFormatting None
             (Some (mkSpacing None (Some 200) (Some 276) (Some "auto")))
             None None None None))
    (Some (mkRunFormatting (Some "Calibri") (Some 11) None None None None))
    None None None None None None None None None None.

End Styles.

Module StylesTheory.
Import Styles.

Local Open Scope string_scope.
Local Open Scope Z_scope.

Lemma isValid_with_basedOn (s : Style) (id : string) :
  isValid s = true -> id <> styleId s -> isValid (setBasedOn id s) = true.
Proof.
  unfold isValid, setBasedOn, with_basedOn.
  cbn [styleId name type basedOn paragraphFormatting runFormatting uiPriority link].
  intros Hv Hne.
  destruct (negb (nonempty (styleId s)) || negb (nonempty (name s))
            || negb (nonempty (type s))); [done|].
  destruct (negb (includes validTypes (type s))); [done|].
  destruct (bool_decide (basedOn s = Some (styleId s))); [done|].
  rewrite bool_decide_eq_false_2; [exact Hv|]. by intros [= ->].
Qed.

Lemma isValid_with_link (s : Style) (id : string) :
  isValid s = true -> id <> styleId s -> isValid (setLink id s) = true.
Proof.
  unfold isValid, setLink, with_link.
  cbn [styleId name type basedOn paragraphFormatting runFormatting uiPriority link].
  intros Hv Hne.
  repeat match type of Hv with
         | (if ?c then false else _) = true => destruct c; [done|]
         end.
  rewrite bool_decide_eq_false_2; [done|]. by intros [= ->].
Qed.

(** X21: the setters setBasedOn and setLink take any style id, also the
    id of the style itself, and only isValid catches it: a style based
    on itself or linked to itself is never valid, and a valid style
    stays valid when it is based on, or linked to, any other id. *)
Theorem self_reference_is_invalid (s : Style) (id : string) :
  isValid (setBasedOn (styleId s) s) = false /\
  isValid (setLink (styleId s) s) = false /\
  (isValid s = true -> id <> styleId s ->
   isValid (setBasedOn id s) = true /\ isValid (setLink id s) = true).
Proof.
  split; [|split].
  - unfold isValid, setBasedOn, with_basedOn. cbn [styleId name type basedOn].
    rewrite bool_decide_eq_true_2 by done.
    by repeat match goal with |- (if ?c then _ else _) = _ => destruct c end.
  - unfold isValid, setLink, with_link.
    cbn [styleId name type basedOn paragraphFormatting runFormatting uiPriority link].
    rewrite (bool_decide_eq_true_2 (Some (styleId s) = Some (styleId s))) by done.
    by repeat match goal with |- (if ?c then _ else _) = _ => destruct c end.
  - intros Hv Hne. split; [by apply isValid_with_basedOn | by apply isValid_with_link].
Qed.

Lemma self_reference_is_invalid_witness :
  isValid createNormalStyle = true /\
  isValid (setBasedOn "Normal" createNormalStyle) = false /\
  isValid (setBasedOn "Body" createNormalStyle) = true /\
  isValid (setLink "Body" createNormalStyle) = true.
Proof.
  split; [reflexivity|]. split.
  - exact (proj1 (self_reference_is_invalid createNormalStyle "Body")).
  - apply (proj2 (proj2 (self_reference_is_invalid createNormalStyle "Body")));
      [reflexivity | discriminate].
Defined.

(** X22: setUiPriority throws for a priority outside 0..99 and stores
    every other one; a valid style stays valid, and a style that holds
    a priority outside 0..99 (passed to the constructor) is not valid:
    the setter accepts exactly the priorities that isValid accepts. *)
Theorem setUiPriority_agrees_with_isValid (priority : Z) (s : Style) :
  isValid s = true ->
  (priority < 0 \/ 99 < priority ->
   setUiPriority priority s = Throw UiPriorityOutOfRange /\
   isValid (with_uiPriority (Some priority) s) = false) /\
  (0 <= priority <= 99 ->
   setUiPriority priority s = Ok (with_uiPriority (Some priority) s) /\
   isValid (with_uiPriority (Some priority) s) = true).
Proof.
  intros Hv. unfold setUiPriority.
  assert (Hp : isValid (with_uiPriority (Some priority) s) =
               negb ((priority <? 0) || (99 <? priority))).
  { revert Hv. unfold isValid, with_uiPriority.
    cbn [styleId name type basedOn paragraphFormatting runFormatting uiPriority link].
    intros Hv.
    repeat match type of Hv with
           | (if ?c then false else _) = true =>
               lazymatch c with
               | match uiPriority s with _ => _ end => fail
               | _ => destruct c; [done|]
               end
           end.
    destruct (match uiPriority s with Some p => _ | None => false end); [done|].
    destruct (bool_decide (link s = Some (styleId s))); [done|].
    by destruct ((priority <? 0) || (99 <? priority)). }
  rewrite Hp. split.
  - intros Hout.
    assert ((priority <? 0) || (99 <? priority) = true) as ->; [|done].
    apply orb_true_iff. destruct Hout; [left | right]; by apply Z.ltb_lt.
  - intros Hin.
    assert ((priority <? 0) || (99 <? priority) = false) as ->; [|done].
    apply orb_false_iff. split; apply Z.ltb_ge; lia.
Qed.

Lemma setUiPriority_agrees_with_isValid_witness :
  isValid createNormalStyle = true /\
  setUiPriority 100 createNormalStyle = Throw UiPriorityOutOfRange /\
  isValid (with_uiPriority (Some 100) createNormalStyle) = false.
Proof.
  split; [reflexivity|].
  apply (proj1 (setUiPriority_agrees_with_isValid 100 createNormalStyle eq_refl)).
  right. lia.
Defined.

Lemma isValid_with_tableStyle (t : option TableStyleProperties) (s : Style) :
  isValid (with_tableStyle t s) = isValid s.
Proof. reflexivity. Qed.

(** X23: setRowBandSize and setColBandSize with a negative size throw
    after they have touched the style: a style without table
    properties holds the empty table properties afterwards, so the
    failed call is visible in getProperties; a style with table
    properties is unchanged.  isValid gives what it gave. *)
Theorem band_size_throw_leaves_table_style (size : Z) (s : Style) :
  size < 0 ->
  setRowBandSize size s =
    (with_tableStyle (Some (default empty_tableStyle (tableStyle s))) s,
     Throw RowBandSizeNegative) /\
  setColBandSize size s =
    (with_tableStyle (Some (default empty_tableStyle (tableStyle s))) s,
     Throw ColBandSizeNegative) /\
  (tableStyle s = None ->
   tableStyle (fst (setRowBandSize size s)) = Some empty_tableStyle /\
   fst (setRowBandSize size s) <> s) /\
  (is_Some (tableStyle s) -> fst (setRowBandSize size s) = s) /\
  isValid (fst (setRowBandSize size s)) = isValid s.
Proof.
  intros Hneg. apply Z.ltb_lt in Hneg.
  assert (Hr : setRowBandSize size s =
    (with_tableStyle (Some (default empty_tableStyle (tableStyle s))) s,
     Throw RowBandSizeNegative)).
  { unfold setRowBandSize, ensure_tableStyle, bind, get, put, ret, throw.
    rewrite Hneg. destruct s as [? ? ? ? ? ? ? ? ? [ts|] ? ? ? ? ? ? ? ? ?]; reflexivity. }
  assert (Hc : setColBandSize size s =
    (with_tableStyle (Some (default empty_tableStyle (tableStyle s))) s,
     Throw ColBandSizeNegative)).
  { unfold setColBandSize, ensure_tableStyle, bind, get, put, ret, throw.
    rewrite Hneg. destruct s as [? ? ? ? ? ? ? ? ? [ts|] ? ? ? ? ? ? ? ? ?]; reflexivity. }
  split; [exact Hr|]. split; [exact Hc|]. rewrite Hr. cbn [fst].
  split; [|split].
  - intros Hnone. rewrite Hnone. split; [reflexivity|].
    intros Heq. apply (f_equal tableStyle) in Heq. cbn in Heq. congruence.
  - intros [ts Hts]. rewrite Hts. destruct s. cbn in Hts. by subst.
  - apply isValid_with_tableStyle.
Qed.

Lemma band_size_throw_leaves_table_style_witness :
  (-1 < 0) /\
  tableStyle createNormalStyle = None /\
  tableStyle (fst (setRowBandSize (-1) createNormalStyle)) = Some empty_tableStyle.
Proof.
  split; [lia|]. split; [reflexivity|].
  apply (proj1 (proj1 (proj2 (proj2
    (band_size_throw_leaves_table_style (-1) createNormalStyle eq_refl))) eq_refl)).
Defined.

(** X24: createHeadingStyle (levels range over integers) throws exactly
    for a level outside 1..9; for a level in 1..9 it returns a style
    that isValid accepts, based on Normal, with the id 'Heading'
    followed by the level, bold exactly for the levels up to 4, and a
    font size between 11 and 16. *)
Theorem createHeadingStyle_valid (level : Z) :
  (level < 1 \/ 9 < level -> createHeadingStyle level = Throw HeadingLevelOutOfRange) /\
  (1 <= level <= 9 ->
   exists s n, createHeadingStyle level = Ok s /\
     isValid s = true /\
     styleId s = "Heading" ++ string_of_Z level /\
     basedOn s = Some "Normal" /\
     (runFormatting s ≫= bold) = Some (bool_decide (level <= 4)) /\
     (runFormatting s ≫= size) = Some n /\ 11 <= n <= 16).
Proof.
  split.
  - intros Hout. unfold createHeadingStyle.
    assert ((level <? 1) || (9 <? level) = true) as ->; [|done].
    apply orb_true_iff. destruct Hout; [left | right]; by apply Z.ltb_lt.
  - intros Hin.
    assert (Hcase : level = 1 \/ level = 2 \/ level = 3 \/ level = 4 \/ level = 5
                    \/ level = 6 \/ level = 7 \/ level = 8 \/ level = 9) by lia.
    destruct Hcase as [->|[->|[->|[->|[->|[->|[->|[->| ->]]]]]]]];
      eexists _, _; (split; [reflexivity|]);
      (split; [vm_compute; reflexivity|]);
      (split; [reflexivity|]); (split; [reflexivity|]);
      (split; [reflexivity|]); (split; [reflexivity|]); lia.
Qed.

End StylesTheory.

(** ** CommentManager: the Comment objects *)

Module CommentObjects.

(** A [Comment] object is known by its identity and its state lives in
    a heap of objects: register writes the id into the object it is
    given and stores that same object, in its own entry and in the
    reply list of its parent. *)
Definition CommentRef : Type := nat.

Definition Heap : Type := CommentRef -> Comments.Comment.

Definition heap_update (h : Heap) (r : CommentRef)
  (f : Comments.Comment -> Comments.Comment) : Heap :=
  fun r' => if Nat.eqb r' r then f (h r') else h r'.

Record CommentEntry : Type := mkEntry {
  comment : CommentRef;
  replies : list CommentRef
}.

Record CommentManager : Type := mkManager {
  comments : gmap Z CommentEntry;
  nextId : Z
}.

(** The manager together with the objects it refers to. *)
Record World : Type := mkWorld {
  heap : Heap;
  manager : CommentManager
}.

Definition Method (A : Type) : Type := M World Comments.Error A.

(** register *)
Definition register (r : CommentRef) : Method CommentRef :=
  fun w =>
    let m := manager w in
    (* Assign unique ID; the counter is a number *)
    let h := heap_update (heap w) r (Comments.setId (nextId m)) in
    (* Store comment *)
    let entry := mkEntry r [] in
    let stored := <[Comments.getId (h r) := entry]> (comments m) in
    (* If this is a reply, add it to the parent's replies array *)
    let threaded :=
      match Comments.getParentId (h r) with
      | Some p =>
          if Comments.isReply (h r) then
            match stored !! p with
            | Some parentEntry =>
                <[p := mkEntry (comment parentEntry) (replies parentEntry ++ [r])]> stored
            | None => stored
            end
          else stored
      | None => stored
      end in
    (mkWorld h (mkManager threaded (js_succ (nextId m))), Ok r).

(** getComment and getReplies: the objects, and what they hold. *)
Definition getComment (n : Z) (w : World) : option CommentRef :=
  comment <$> comments (manager w) !! n.

Definition getReplies (n : Z) (w : World) : list CommentRef :=
  match comments (manager w) !! n with Some entry => replies entry | None => [] end.

(** The store with every object replaced by what it holds. *)
Definition entry_values (h : Heap) (e : CommentEntry) : Comments.CommentEntry :=
  Comments.mkEntry (h (comment e)) (h <$> replies e).

Definition values (w : World) : Comments.CommentManager :=
  Comments.mkManager (entry_values (heap w) <$> comments (manager w))
    (nextId (manager w)).

(** The object is held by the store, as a comment or as a reply. *)
Definition is_stored (r : CommentRef) (w : World) : Prop :=
  exists n e, comments (manager w) !! n = Some e /\ (comment e = r \/ r ∈ replies e).

(** The ids in the store were all minted by the counter. *)
Definition ids_minted (w : World) : Prop :=
  forall n e, comments (manager w) !! n = Some e -> 0 <= n < nextId (manager w).

End CommentObjects.

Module CommentObjectsTheory.
Import CommentObjects.

Lemma entry_values_ext (h h' : Heap) (e : CommentEntry) :
  h' (comment e) = h (comment e) ->
  (forall r, r ∈ replies e -> h' r = h r) ->
  entry_values h' e = entry_values h e.
Proof.
  intros Hc Hr. unfold entry_values. rewrite Hc. f_equal.
  apply list_fmap_ext. intros i r Hi. apply Hr. by apply list_elem_of_lookup_2 in Hi.
Qed.

Lemma ids_minted_values (w : World) :
  ids_minted w -> Comments.ids_minted (values w).
Proof.
  intros Hm n e. unfold values. cbn [Comments.comments Comments.nextId].
  rewrite lookup_fmap. destruct (comments (manager w) !! n) as [e0|] eqn:Hn; [|done].
  intros _. by apply (Hm n e0).
Qed.

(** For an object that the store does not hold, and a counter that is
    a safe integer, register does to the values what register on values
    does. *)
Lemma register_values (r : CommentRef) (w : World) :
  safe_integer (nextId (manager w)) ->
  ~ is_stored r w ->
  values (register r w).1 = (Comments.register (heap w r) (values w)).1.
Proof.
  intros Hsafe Hnew. unfold register, Comments.register, values.
  rewrite (NumbersTheory.js_succ_safe _ Hsafe).
  cbn [fst heap manager comments nextId Comments.comments Comments.nextId].
  set (n := nextId (manager w)).
  set (h' := heap_update (heap w) r (Comments.setId n)).
  assert (Hr : h' r = Comments.setId n (heap w r)).
  { unfold h', heap_update. by rewrite Nat.eqb_refl. }
  assert (Hother : forall r', r' <> r -> h' r' = heap w r').
  { intros r' Hne. unfold h', heap_update. by destruct (Nat.eqb_spec r' r). }
  assert (Hold : entry_values h' <$> comments (manager w) =
                 entry_values (heap w) <$> comments (manager w)).
  { apply map_fmap_ext. intros k e He. apply entry_values_ext.
    - apply Hother. intros Heq. apply Hnew. exists k, e. split; [done | by left].
    - intros r' Hr'. apply Hother. intros ->. apply Hnew. exists k, e.
      split; [done | by right]. }
  rewrite Hr. f_equal.
  change (Comments.getId (Comments.setId n (heap w r))) with n.
  change (Comments.getParentId (Comments.setId n (heap w r)))
    with (Comments.parentId (heap w r)).
  unfold Comments.isReply.
  change (Comments.parentId (Comments.setId n (heap w r)))
    with (Comments.parentId (heap w r)).
  assert (Hstored : entry_values h' <$> <[n := mkEntry r []]> (comments (manager w)) =
            <[n := Comments.mkEntry (Comments.setId n (heap w r)) []]>
              (entry_values (heap w) <$> comments (manager w))).
  { rewrite fmap_insert, Hold. unfold entry_values at 1.
    cbn [comment replies fmap list_fmap]. by rewrite Hr. }
  destruct (Comments.parentId (heap w r)) as [p|]; [|exact Hstored].
  rewrite <- Hstored, lookup_fmap.
  destruct (<[n := mkEntry r []]> (comments (manager w)) !! p) as [pe|];
    cbn [fmap option_fmap option_map]; [|done].
  rewrite fmap_insert. f_equal. unfold entry_values.
  cbn [comment replies Comments.comment Comments.replies].
  by rewrite fmap_app, <- Hr.
Qed.

(** The entry under the new id holds the object that was given. *)
Lemma register_new_entry (r : CommentRef) (w : World) :
  exists rs,
    comments (manager (register r w).1) !! nextId (manager w) = Some (mkEntry r rs).
Proof.
  unfold register. cbn [fst manager comments].
  set (n := nextId (manager w)). unfold heap_update. rewrite Nat.eqb_refl.
  change (Comments.getId (Comments.setId n (heap w r))) with n.
  change (Comments.getParentId (Comments.setId n (heap w r)))
    with (Comments.parentId (heap w r)).
  unfold Comments.isReply.
  change (Comments.parentId (Comments.setId n (heap w r)))
    with (Comments.parentId (heap w r)).
  destruct (Comments.parentId (heap w r)) as [p|].
  - destruct (<[n := mkEntry r []]> (comments (manager w)) !! p) as [pe|] eqn:Hpe.
    + destruct (decide (p = n)) as [->|Hne].
      * rewrite lookup_insert_eq in Hpe. injection Hpe as <-.
        rewrite lookup_insert_eq. by eexists.
      * rewrite lookup_insert_ne, lookup_insert_eq by done. by eexists.
    + rewrite lookup_insert_eq. by eexists.
  - rewrite lookup_insert_eq. by eexists.
Qed.

(** X8: register(comment) for a Comment object that the store does not
    hold yet, when the ids of the store were minted by the counter and
    the counter is a safe integer (at most Number.MAX_SAFE_INTEGER).  It
    never throws and returns the object it was given, into which it has
    written the id of the counter; no other object changes.  On what
    the objects hold: the counter advances by one and the store gains
    exactly one comment; every comment already stored keeps its entry,
    but for the parent, whose reply list gains the comment at its end;
    and a reply whose parent is not registered is stored with no
    threading and no error.  (For an object that the store holds
    already, the id written into it changes its stored entry too: see
    [register_again_renumbers].) *)
Theorem register_adds_one (r : CommentRef) (w : World) :
  ids_minted w ->
  safe_integer (nextId (manager w)) ->
  ~ is_stored r w ->
  let n := nextId (manager w) in
  let c' := Comments.setId n (heap w r) in
  let w' := (register r w).1 in
  (register r w).2 = Ok r /\
  heap w' r = c' /\
  (forall r', r' <> r -> heap w' r' = heap w r') /\
  getComment n w' = Some r /\
  nextId (manager w') = n + 1 /\
  size (comments (manager w')) = S (size (comments (manager w))) /\
  (forall k, k <> n -> Comments.parentId (heap w r) <> Some k ->
     Comments.comments (values w') !! k = Comments.comments (values w) !! k) /\
  (forall p parentEntry,
     Comments.parentId (heap w r) = Some p ->
     Comments.comments (values w) !! p = Some parentEntry ->
     Comments.comments (values w') !! p =
       Some (Comments.mkEntry (Comments.comment parentEntry)
               (Comments.replies parentEntry ++ [c'])) /\
     Comments.comments (values w') !! n = Some (Comments.mkEntry c' [])) /\
  (forall p,
     Comments.parentId (heap w r) = Some p ->
     Comments.comments (values w) !! p = None -> p <> n ->
     Comments.comments (values w') =
       <[n := Comments.mkEntry c' []]> (Comments.comments (values w))).
Proof.
  intros Hm Hsafe Hnew n c' w'.
  pose proof (register_values r w Hsafe Hnew) as Hvalues. fold w' in Hvalues.
  destruct (CommentThreadsTheory.register_value_adds_one (heap w r) (values w)
              (ids_minted_values w Hm))
    as (_ & _ & Hsize & Hkeep & Hparent & Horphan).
  rewrite <- Hvalues in Hsize, Hkeep, Hparent, Horphan.
  change (Comments.nextId (values w)) with n in *.
  fold c' in Hparent, Horphan.
  assert (Hr : heap w' r = c').
  { unfold w', register, heap_update. cbn [fst heap]. by rewrite Nat.eqb_refl. }
  split; [done|]. split; [exact Hr|]. split.
  { intros r' Hne. unfold w', register, heap_update. cbn [fst heap].
    by destruct (Nat.eqb_spec r' r). }
  split.
  { unfold getComment. destruct (register_new_entry r w) as [rs Hentry].
    fold w' n in Hentry. by rewrite Hentry. }
  split; [apply (NumbersTheory.js_succ_safe _ Hsafe)|]. split.
  { unfold values in Hsize. cbn [Comments.comments] in Hsize.
    by rewrite !map_size_fmap in Hsize. }
  split; [exact Hkeep|]. split; [exact Hparent | exact Horphan].
Qed.

(** One object for a comment and one for a reply to comment 0. *)
Definition two_objects : Heap :=
  fun r => match r with
           | 2%nat => Comments.Comment_createReply 2000 0 "Bob" "Done" "B"
           | _ => Comments.Comment_create 1000 "Ann" "Please check" "A"
           end.

Definition new_world : World := mkWorld two_objects (mkManager ∅ 0).

Lemma register_adds_one_witness :
  ids_minted (register 1%nat new_world).1 /\
  safe_integer (nextId (manager (register 1%nat new_world).1)) /\
  ~ is_stored 2%nat (register 1%nat new_world).1 /\
  (register 2%nat (register 1%nat new_world).1).2 = Ok 2%nat /\
  Comments.comments (values (register 2%nat (register 1%nat new_world).1).1) !! 0 =
    Some (Comments.mkEntry
            (Comments.mkComment 0 "Ann" "A" 1000 "Please check" None)
            [Comments.mkComment 1 "Bob" "B" 2000 "Done" (Some 0)]).
Proof.
  assert (Hstore : comments (manager (register 1%nat new_world).1) =
                   {[0 := mkEntry 1%nat []]}) by reflexivity.
  assert (Hm : ids_minted (register 1%nat new_world).1).
  { intros n e. rewrite Hstore. intros [<- _]%lookup_singleton_Some.
    change (nextId (manager (register 1%nat new_world).1)) with 1. lia. }
  assert (Hnew : ~ is_stored 2%nat (register 1%nat new_world).1).
  { intros (n & e & He & Hr). rewrite Hstore in He.
    apply lookup_singleton_Some in He as [_ <-]. cbn in Hr.
    destruct Hr as [Hr|Hr]; [discriminate | by apply elem_of_nil in Hr]. }
  assert (Hsafe : safe_integer (nextId (manager (register 1%nat new_world).1))).
  { split; vm_compute; discriminate. }
  split; [exact Hm|]. split; [exact Hsafe|]. split; [exact Hnew|].
  destruct (register_adds_one 2%nat (register 1%nat new_world).1 Hm Hsafe Hnew)
    as (Hret & _ & _ & _ & _ & _ & _ & Hparent & _).
  split; [exact Hret|].
  apply (Hparent 0
           (Comments.mkEntry (Comments.mkComment 0 "Ann" "A" 1000 "Please check" None) [])
           eq_refl eq_refl).
Defined.

(** Registering an object that the store holds already gives it a new
    id, and the entry under its old id holds the renumbered object:
    comment 0 reads as comment 1. *)
Example register_again_renumbers :
  Comments.comments (values (register 1%nat (register 1%nat new_world).1).1) !! 0 =
    Some (Comments.mkEntry (Comments.mkComment 1 "Ann" "A" 1000 "Please check" None) []) /\
  Comments.comments (values (register 1%nat (register 1%nat new_world).1).1) !! 1 =
    Some (Comments.mkEntry (Comments.mkComment 1 "Ann" "A" 1000 "Please check" None) []).
Proof. split; reflexivity. Qed.

End CommentObjectsTheory.
